(** * cicd-template: the git workflow orchestrator (to-self / to-test / to-main)

    A shallow embedding of [src/utils/index.ts], [src/utils/mr.ts] and
    [src/core/toMain.ts], and the properties of the commit preparer, the
    remote resolver, the sync steps and the merge/PR request builder.

    Modelling conventions.
    - A JavaScript string is a [string]; a character is one code unit.  The
      model covers code units below 256, so the white space of [trim] and of
      the regular expression class [\s] is TAB, LF, VT, FF, CR, SP and NBSP.
    - A thrown [Error(message)] is [Throw message]; [await] is sequencing in
      the monad [M].
    - [simple-git], [inquirer], [child_process.spawn], [process] and [URL]
      are libraries of the platform: they are fields of the environment
      [Env], which answers every call from the history of the calls made so
      far.  The history is also the record of the side effects of a run. *)

From Stdlib Require Import String Ascii List Bool Arith ZArith Lia.
Import ListNotations.
Local Open Scope list_scope.
Local Open Scope string_scope.

Set Implicit Arguments.

(** ** JavaScript strings *)

Module JS.

(** Code unit of a character. *)
Definition code (c : ascii) : nat := nat_of_ascii c.

(** [WhiteSpace] and [LineTerminator] of ECMAScript below 256: what
    [String.prototype.trim] strips and what [\s] matches. *)
Definition isWhiteSpace (c : ascii) : bool :=
  let n := code c in
  (n =? 9)%nat || (n =? 10)%nat || (n =? 11)%nat || (n =? 12)%nat || (n =? 13)%nat
  || (n =? 32)%nat || (n =? 160)%nat.

(** [LineTerminator] below 256: what [.] does not match. *)
Definition isLineTerminator (c : ascii) : bool :=
  let n := code c in (n =? 10)%nat || (n =? 13)%nat.

Definition isEmpty (s : string) : bool :=
  match s with EmptyString => true | String _ _ => false end.

(** Truthiness of a string: [Boolean(s)]. *)
Definition truthy (s : string) : bool := negb (isEmpty s).

Fixpoint trimStart (s : string) : string :=
  match s with
  | EmptyString => EmptyString
  | String c s' => if isWhiteSpace c then trimStart s' else s
  end.

Fixpoint trimEnd (s : string) : string :=
  match s with
  | EmptyString => EmptyString
  | String c s' =>
      let r := trimEnd s' in
      if isWhiteSpace c && isEmpty r then EmptyString else String c r
  end.

(** [s.trim()] *)
Definition trim (s : string) : string := trimEnd (trimStart s).

(** [s.startsWith(p)] *)
Fixpoint startsWith (p s : string) : bool :=
  match p, s with
  | EmptyString, _ => true
  | String a p', String b s' => Ascii.eqb a b && startsWith p' s'
  | String _ _, EmptyString => false
  end.

(** [s.includes(sub)] *)
Fixpoint includes (sub s : string) : bool :=
  startsWith sub s ||
  match s with
  | EmptyString => false
  | String _ s' => includes sub s'
  end.

(** [s.endsWith(p)] *)
Fixpoint endsWith (p s : string) : bool :=
  String.eqb p s ||
  match s with
  | EmptyString => false
  | String _ s' => endsWith p s'
  end.

Fixpoint drop (n : nat) (s : string) : string :=
  match n, s with
  | O, _ => s
  | S n', String _ s' => drop n' s'
  | S _, EmptyString => EmptyString
  end.

Fixpoint take (n : nat) (s : string) : string :=
  match n, s with
  | O, _ => EmptyString
  | S n', String c s' => String c (take n' s')
  | S _, EmptyString => EmptyString
  end.

(** Position of the first occurrence of [sub] in [s], counted from [i]. *)
Fixpoint indexOfFrom (sub s : string) (i : Z) : Z :=
  if startsWith sub s then i
  else match s with
       | EmptyString => (-1)%Z
       | String _ s' => indexOfFrom sub s' (i + 1)
       end.

(** [s.indexOf(sub, position)]: the position is clamped to [0 .. length]. *)
Definition indexOf (sub s : string) (position : Z) : Z :=
  let len := Z.of_nat (String.length s) in
  let start := Z.min (Z.max position 0) len in
  indexOfFrom sub (drop (Z.to_nat start) s) start.

(** Relative index of [slice]: negative counts from the end. *)
Definition relIndex (len i : Z) : Z :=
  if (i <? 0)%Z then Z.max (len + i) 0 else Z.min i len.

(** [s.slice(start, end)] *)
Definition slice (s : string) (start stop : Z) : string :=
  let len := Z.of_nat (String.length s) in
  let from := relIndex len start in
  let to := relIndex len stop in
  take (Z.to_nat (to - from)) (drop (Z.to_nat from) s).

(** [s.slice(start)] *)
Definition sliceFrom (s : string) (start : Z) : string :=
  slice s start (Z.of_nat (String.length s)).

(** [a.slice(start, end)] on an array. *)
Definition arraySlice {A : Type} (l : list A) (start stop : Z) : list A :=
  let len := Z.of_nat (List.length l) in
  let from := relIndex len start in
  let to := relIndex len stop in
  firstn (Z.to_nat (to - from)) (skipn (Z.to_nat from) l).

(** [s.split(sep)] for a separator of one character. *)
Fixpoint split (sep : ascii) (s : string) : list string :=
  match s with
  | EmptyString => [EmptyString]
  | String c s' =>
      if Ascii.eqb c sep then EmptyString :: split sep s'
      else match split sep s' with
           | [] => [String c EmptyString]
           | w :: ws => String c w :: ws
           end
  end.

(** [a.join(sep)] *)
Fixpoint join (sep : string) (l : list string) : string :=
  match l with
  | [] => EmptyString
  | [x] => x
  | x :: rest => x ++ sep ++ join sep rest
  end.

(** [a.filter(Boolean)] on an array of strings. *)
Definition filterBoolean (l : list string) : list string :=
  filter truthy l.

(** [x || y] on strings. *)
Definition orElse (x y : string) : string := if truthy x then x else y.

(** *** Regular expressions

    The patterns of the source use classes, sequence, alternative and
    repetition only, so [test] on a pattern anchored at the start is
    membership of some prefix in the language of the pattern, decided with
    derivatives. *)

Inductive regex : Type :=
| Void
| Eps
| Class (p : ascii -> bool)
| Seq (r1 r2 : regex)
| Alt (r1 r2 : regex)
| Star (r : regex).

Definition Plus (r : regex) : regex := Seq r (Star r).
Definition Opt (r : regex) : regex := Alt r Eps.
Definition Chr (c : ascii) : regex := Class (Ascii.eqb c).
Definition NotChr (c : ascii) : regex := Class (fun x => negb (Ascii.eqb c x)).

Fixpoint nullable (r : regex) : bool :=
  match r with
  | Void => false
  | Eps => true
  | Class _ => false
  | Seq r1 r2 => nullable r1 && nullable r2
  | Alt r1 r2 => nullable r1 || nullable r2
  | Star _ => true
  end.

Fixpoint deriv (c : ascii) (r : regex) : regex :=
  match r with
  | Void => Void
  | Eps => Void
  | Class p => if p c then Eps else Void
  | Seq r1 r2 =>
      if nullable r1 then Alt (Seq (deriv c r1) r2) (deriv c r2)
      else Seq (deriv c r1) r2
  | Alt r1 r2 => Alt (deriv c r1) (deriv c r2)
  | Star r1 => Seq (deriv c r1) (Star r1)
  end.

(** [/^r/.test(s)]: some prefix of [s] matches [r]. *)
Fixpoint testAnchored (r : regex) (s : string) : bool :=
  nullable r ||
  match s with
  | EmptyString => false
  | String c s' => testAnchored (deriv c r) s'
  end.

(** [/r/.test(s)]: some substring of [s] matches [r]. *)
Fixpoint test (r : regex) (s : string) : bool :=
  testAnchored r s ||
  match s with
  | EmptyString => false
  | String _ s' => test r s'
  end.

(** [s.replace(/\.git$/, "")] *)
Definition stripDotGit (s : string) : string :=
  if endsWith ".git" s then take (String.length s - 4) s else s.

(** [s.replace(/\/+$/, "")] *)
Fixpoint stripTrailingSlashes (s : string) : string :=
  match s with
  | EmptyString => EmptyString
  | String c s' =>
      let r := stripTrailingSlashes s' in
      if Ascii.eqb c "/" && isEmpty r then EmptyString else String c r
  end.

(** [s.replace(/^\/+/, "")] *)
Fixpoint stripLeadingSlashes (s : string) : string :=
  match s with
  | EmptyString => EmptyString
  | String c s' => if Ascii.eqb c "/" then stripLeadingSlashes s' else s
  end.

(** Longest prefix of characters that are not white space: [\S*]. *)
Fixpoint takeNonSpace (s : string) : string :=
  match s with
  | EmptyString => EmptyString
  | String c s' => if isWhiteSpace c then EmptyString else String c (takeNonSpace s')
  end.

(** [s.match(/https?:\/\/\S+/)?.[0]]: the leftmost match, as long as it
    can be. *)
Fixpoint matchHttpUrl (s : string) : option string :=
  let here (scheme : string) : option string :=
    if startsWith scheme s then
      let rest := takeNonSpace (drop (String.length scheme) s) in
      if isEmpty rest then None else Some (scheme ++ rest)
    else None in
  match here "https://" with
  | Some m => Some m
  | None =>
      match here "http://" with
      | Some m => Some m
      | None =>
          match s with
          | EmptyString => None
          | String _ s' => matchHttpUrl s'
          end
      end
  end.

(** Hexadecimal digit, upper case. *)
Definition hexDigit (n : nat) : ascii :=
  match n with
  | 0 => "0" | 1 => "1" | 2 => "2" | 3 => "3" | 4 => "4" | 5 => "5"
  | 6 => "6" | 7 => "7" | 8 => "8" | 9 => "9" | 10 => "A" | 11 => "B"
  | 12 => "C" | 13 => "D" | 14 => "E" | _ => "F"
  end%char.

Definition percent (byte : nat) : string :=
  String "%" (String (hexDigit (byte / 16)) (String (hexDigit (byte mod 16)) EmptyString)).

(** Characters [encodeURIComponent] leaves alone:
    [A-Z a-z 0-9 - _ . ! ~ * ' ( )]. *)
Definition isUriUnreserved (c : ascii) : bool :=
  let n := code c in
  ((65 <=? n)%nat && (n <=? 90)%nat) || ((97 <=? n)%nat && (n <=? 122)%nat)
  || ((48 <=? n)%nat && (n <=? 57)%nat)
  || (n =? 45)%nat || (n =? 95)%nat || (n =? 46)%nat || (n =? 33)%nat || (n =? 126)%nat
  || (n =? 42)%nat || (n =? 39)%nat || (n =? 40)%nat || (n =? 41)%nat.

(** [encodeURIComponent(s)]: the UTF-8 bytes of every other character,
    percent-encoded (two bytes from 128 on). *)
Fixpoint encodeURIComponent (s : string) : string :=
  match s with
  | EmptyString => EmptyString
  | String c s' =>
      let n := code c in
      (if isUriUnreserved c then String c EmptyString
       else if (n <? 128)%nat then percent n
       else percent (192 + n / 64) ++ percent (128 + n mod 64))
      ++ encodeURIComponent s'
  end.

End JS.

Import JS.

(** ** Pure helpers of [src/utils/index.ts] and [src/utils/constant.ts] *)

Record CommitTypeEntry : Type := { value : string; name : string }.

Definition COMMIT_TYPES : list CommitTypeEntry :=
  [ {| value := "feat"; name := "feat: New feature" |};
    {| value := "fix"; name := "fix: Bug fix" |};
    {| value := "to"; name := "to: Fix via diff only" |};
    {| value := "docs"; name := "docs: Documentation" |};
    {| value := "style"; name := "style: Formatting (no logic change)" |};
    {| value := "refactor"; name := "refactor: Refactor (no feature/bugfix)" |};
    {| value := "perf"; name := "perf: Performance improvement" |};
    {| value := "test"; name := "test: Add/update tests" |};
    {| value := "chore"; name := "chore: Tooling/maintenance" |};
    {| value := "revert"; name := "revert: Revert previous change" |};
    {| value := "merge"; name := "merge: Merge changes" |};
    {| value := "sync"; name := "sync: Sync branch changes" |} ].

(** [isRecognizedCommitType(value)]; the caller passes a defined string. *)
Definition isRecognizedCommitType (v : string) : bool :=
  if isEmpty v then false
  else existsb (fun t => String.eqb (value t) v) COMMIT_TYPES.

Definition allowedCommitTypesText : string :=
  join ", " (map value COMMIT_TYPES).

Definition isLower (c : ascii) : bool :=
  ((97 <=? code c) && (code c <=? 122))%nat.

(** [^[a-z]+(\([^)]+\))?!?:\s+] *)
Definition conventionalPrefixPattern : regex :=
  Seq (Plus (Class isLower))
   (Seq (Opt (Seq (Chr "(") (Seq (Plus (NotChr ")")) (Chr ")"))))
    (Seq (Opt (Chr "!"))
     (Seq (Chr ":") (Plus (Class isWhiteSpace))))).

Definition hasConventionalPrefix (message : string) : bool :=
  testAnchored conventionalPrefixPattern (trim message).

Definition getRemoteFromUpstream (upstream : string) : option string :=
  let slashIndex := indexOf "/" upstream 0 in
  if (slashIndex <=? 0)%Z then None
  else Some (slice upstream 0 slashIndex).

(** ** [src/utils/mr.ts]: remote URLs *)

Inductive Provider : Type := github | gitlab | unknown.

Record ParsedRemote : Type :=
  { host : string; ownerPath : string; repo : string; provider : Provider }.

(** What the source reads of a [URL] object. *)
Record URLRecord : Type := { url_host : string; url_pathname : string }.

(** [^[^@]+@[^:]+:.+] *)
Definition scpPattern : regex :=
  Seq (Plus (NotChr "@"))
   (Seq (Chr "@")
    (Seq (Plus (NotChr ":"))
     (Seq (Chr ":") (Plus (Class (fun c => negb (isLineTerminator c))))))).

Definition isScpStyle (trimmed : string) : bool := testAnchored scpPattern trimmed.

Definition hasUrlScheme (trimmed : string) : bool :=
  startsWith "ssh://" trimmed || startsWith "http://" trimmed
  || startsWith "https://" trimmed.

(** [parts] of [parseRemoteUrl]: the segments of a path. *)
Definition pathSegments (path : string) : list string :=
  let normalized := stripTrailingSlashes (stripDotGit path) in
  filterBoolean (split "/" normalized).

Section RemoteUrl.

(** [new URL(s)]: [None] when the constructor throws. *)
Variable URL : string -> option URLRecord.

(** The [if / else if / else] of [parseRemoteUrl] that sets [host] and
    [path]; [None] is the [return null] of its branches. *)
Definition hostAndPath (trimmed : string) : option (string * string) :=
  if isScpStyle trimmed then
    let atIndex := indexOf "@" trimmed 0 in
    let colonIndex := indexOf ":" trimmed atIndex in
    Some (slice trimmed (atIndex + 1) colonIndex, sliceFrom trimmed (colonIndex + 1))
  else if hasUrlScheme trimmed then
    match URL trimmed with
    | Some url => Some (url_host url, stripLeadingSlashes (url_pathname url))
    | None => None
    end
  else None.

Definition parseRemoteUrl (remoteUrl : string) : option ParsedRemote :=
  let trimmed := trim remoteUrl in
  if isEmpty trimmed then None
  else
    match hostAndPath trimmed with
    | None => None
    | Some (host, path) =>
        if isEmpty host || isEmpty path then None
        else
          let parts := pathSegments path in
          if (List.length parts <? 2)%nat then None
          else
            let repo := last parts "" in
            let ownerPath := join "/" (arraySlice parts 0 (-1)) in
            let provider :=
              if includes "github" host then github
              else if includes "gitlab" host then gitlab
              else unknown in
            Some {| host := host; ownerPath := ownerPath; repo := repo;
                    provider := provider |}
    end.

End RemoteUrl.

Definition buildCreateMrUrl (parsed : ParsedRemote) (sourceBranch targetBranch : string)
  : option string :=
  let base := "https://" ++ host parsed ++ "/" ++ ownerPath parsed ++ "/" ++ repo parsed in
  let source := encodeURIComponent sourceBranch in
  let target := encodeURIComponent targetBranch in
  match provider parsed with
  | github => Some (base ++ "/compare/" ++ target ++ "..." ++ source ++ "?expand=1")
  | gitlab =>
      Some (base ++ "/-/merge_requests/new?merge_request[source_branch]=" ++ source
            ++ "&merge_request[target_branch]=" ++ target)
  | unknown => None
  end.

(** ** The platform: calls, answers and the monad of a run *)

(** Outcome of an [await]ed call: a value, or a thrown [Error(message)]. *)
Inductive result (A : Type) : Type :=
| Ok (a : A)
| Throw (message : string).
Arguments Ok {A} a.
Arguments Throw {A} message.

(** Every call that leaves the process. *)
Inductive Call : Type :=
| GitCheckIsRepo
| GitBranch
| GitStatus
| GitAdd (args : list string)
| GitDiff (args : list string)
| GitCommit (message : string)
| GitRaw (args : list string)
| GitGetRemotes (verbose : bool)
| GitPull (target : option (string * string))
| GitPush (remote branch : string) (options : list string)
| GitFetch (remote branch : string)
| GitMerge (args : list string)
| Spawn (command : string) (args : list string) (cwd : string)
| PromptInput (message : string)
| PromptList (message : string) (choices : list (string * string))
| LoadCicdConfigScopes (cwd : string).

(** The calls made so far, the latest first. *)
Definition History : Type := list Call.

(** What is written to the terminal; the colours of [chalk] are left out. *)
Inductive Output : Type :=
| LogStep (message : string)
| LogHeading (message : string)
| LogWarning (message : string)
| LogSuccess (message : string)
| StdoutWrite (text : string)
| StderrWrite (text : string).

Record StatusFile : Type :=
  { path : string; index : option string; working_dir : option string }.

Record StatusResult : Type :=
  { files : list StatusFile; conflicted : list string }.

Record BranchSummary : Type := { current : string; all : list string }.

Record RemoteWithRefs : Type :=
  { remote_name : string; fetch_url : string; push_url : string }.

(** The part of the [SimpleGit] interface the workflows use.  Each method
    answers from the history of the run. *)
Record SimpleGit : Type :=
  { checkIsRepo : History -> result bool;
    branch : History -> result BranchSummary;
    status : History -> result StatusResult;
    add : History -> list string -> result unit;
    diff : History -> list string -> result string;
    commit : History -> string -> result unit;
    raw : History -> list string -> result string;
    getRemotes : History -> bool -> result (list RemoteWithRefs);
    pull : History -> option (string * string) -> result unit;
    push : History -> string -> string -> list string -> result unit;
    fetch : History -> string -> string -> result unit;
    merge : History -> list string -> result unit }.

(** What [runCommandCapture] resolves to. *)
Record Captured : Type := { code : Z; stdout : string; stderr : string }.

Record Env : Type :=
  { stdinIsTTY : bool;
    processCwd : string;
    resolvePath : string -> string;
    newURL : string -> option URLRecord;
    simpleGit : string -> SimpleGit;
    (** [spawn] with the output collected: the promise always resolves. *)
    spawnCapture : History -> string -> list string -> string -> Captured;
    (** [inquirer.prompt] with one question: the answer it accepted. *)
    promptInput : History -> string -> result string;
    promptList : History -> string -> list (string * string) -> result string;
    (** The scopes of the configuration file of the repository, as
        [loadCicdConfigScopes] reads them; it catches every error. *)
    cicdConfigScopes : History -> string -> option (list string) }.

Record World : Type := { calls : History; output : list Output }.

(** A run: from the world before to the outcome and the world after. *)
Definition M (A : Type) : Type := World -> result A * World.

Definition ret {A : Type} (a : A) : M A := fun w => (Ok a, w).

Definition throw {A : Type} (message : string) : M A := fun w => (Throw message, w).

Definition bind {A B : Type} (m : M A) (k : A -> M B) : M B :=
  fun w =>
    match m w with
    | (Ok a, w') => k a w'
    | (Throw e, w') => (Throw e, w')
    end.

(** [try { body } catch { handler }] *)
Definition tryCatch {A : Type} (body : M A) (handler : M A) : M A :=
  fun w =>
    match body w with
    | (Ok a, w') => (Ok a, w')
    | (Throw _, w') => handler w'
    end.

(** A call: the answer is read from the history, then the call is added. *)
Definition perform {A : Type} (c : Call) (answer : History -> result A) : M A :=
  fun w => (answer (calls w), {| calls := c :: calls w; output := output w |}).

Definition emit (o : Output) : M unit :=
  fun w => (Ok tt, {| calls := calls w; output := o :: output w |}).

Declare Scope run_scope.
Delimit Scope run_scope with run.
Notation "x <- m ;; k" := (bind m (fun x => k))
  (at level 100, m at next level, right associativity) : run_scope.
Notation "m ;; k" := (bind m (fun _ => k))
  (at level 100, right associativity) : run_scope.
Local Open Scope run_scope.

Definition logStep (message : string) : M unit := emit (LogStep message).
Definition logHeading (message : string) : M unit := emit (LogHeading message).
Definition logWarning (message : string) : M unit := emit (LogWarning message).
Definition logSuccess (message : string) : M unit := emit (LogSuccess message).

(** [`${x}${y} ${file.path}`] *)
Definition formatGitStatusLine (file : StatusFile) : string :=
  let x := match index file with Some i => i | None => " " end in
  let y := match working_dir file with Some i => i | None => " " end in
  x ++ y ++ " " ++ path file.

(** Truthiness of [string | undefined]. *)
Definition truthyOpt (o : option string) : bool :=
  match o with Some s => truthy s | None => false end.

(** The string of a value known to be defined. *)
Definition str (o : option string) : string :=
  match o with Some s => s | None => "" end.

(** [for (const x of l) body(x)] *)
Fixpoint forEach {A : Type} (l : list A) (body : A -> M unit) : M unit :=
  match l with
  | [] => ret tt
  | x :: rest => body x ;; forEach rest body
  end.

(** Line feed: the [\n] of the source. *)
Definition nl : string := String (ascii_of_nat 10) EmptyString.

(** ** [src/utils/index.ts]: the workflow steps *)

Record CommitOptions : Type :=
  { commitMessage : option string; commitType : option string; cwd : option string }.

(** [validate] of the subject question: [None] is [true], [Some] the
    message shown. *)
Definition validateSubject (v : string) : option string :=
  if (0 <? String.length (trim v))%nat then None
  else Some "Commit message cannot be empty".

(** [validate] of the scope question. *)
Definition validateScope (v : string) : option string :=
  let trimmed := trim v in
  if isEmpty trimmed then None
  else if test (Class isWhiteSpace) trimmed then Some "Scope should not contain spaces"
  else if test (Class (fun c => Ascii.eqb c "(" || Ascii.eqb c ")")) trimmed
       then Some "Scope should not include parentheses"
  else None.

(** The expression bound to [finalMessage] in [commitIfDirty]. *)
Definition finalMessage (message : string) (type : option string) (scope : string)
  : string :=
  if hasConventionalPrefix message || negb (truthyOpt type) then message
  else if truthy scope then str type ++ "(" ++ scope ++ "): " ++ trim message
  else str type ++ ": " ++ trim message.

Section Workflow.

Variable env : Env.

Definition askInput (message : string) : M string :=
  perform (PromptInput message) (fun h => promptInput env h message).

Definition askList (message : string) (choices : list (string * string)) : M string :=
  perform (PromptList message choices) (fun h => promptList env h message choices).

Definition loadCicdConfigScopes (dir : string) : M (option (list string)) :=
  perform (LoadCicdConfigScopes dir) (fun h => Ok (cicdConfigScopes env h dir)).

Definition runCommandCapture (command : string) (args : list string) (dir : string)
  : M Captured :=
  perform (Spawn command args dir) (fun h => Ok (spawnCapture env h command args dir)).

Definition promptCommitType : M string :=
  askList "Select commit type (prefix):" (map (fun t => (name t, value t)) COMMIT_TYPES).

Definition promptCommitSubject : M string :=
  subject <- askInput "Enter commit subject (without prefix):" ;;
  ret (trim subject).

Definition promptCommitScope (dir : string) : M string :=
  scopes <- loadCicdConfigScopes dir ;;
  picked <-
    match scopes with
    | Some (s :: rest) =>
        scope <- askList "Select commit scope (optional):"
                   ((("(none)", "") :: map (fun x => (x, x)) (s :: rest))
                      ++ [("(custom)", "__custom__")])%list ;;
        ret (if String.eqb scope "__custom__" then None else Some scope)
    | _ => ret None
    end ;;
  match picked with
  | Some scope => ret scope
  | None =>
      scope <- askInput "Enter commit scope (optional):" ;;
      ret (trim scope)
  end.

Section WithGit.

Variable git : SimpleGit.

Definition gitCheckIsRepo : M bool := perform GitCheckIsRepo (checkIsRepo git).
Definition gitBranch : M BranchSummary := perform GitBranch (branch git).
Definition gitStatus : M StatusResult := perform GitStatus (status git).
Definition gitAdd (args : list string) : M unit :=
  perform (GitAdd args) (fun h => add git h args).
Definition gitDiff (args : list string) : M string :=
  perform (GitDiff args) (fun h => diff git h args).
Definition gitCommit (message : string) : M unit :=
  perform (GitCommit message) (fun h => commit git h message).
Definition gitRaw (args : list string) : M string :=
  perform (GitRaw args) (fun h => raw git h args).
Definition gitGetRemotes (verbose : bool) : M (list RemoteWithRefs) :=
  perform (GitGetRemotes verbose) (fun h => getRemotes git h verbose).
Definition gitPull (target : option (string * string)) : M unit :=
  perform (GitPull target) (fun h => pull git h target).
Definition gitPush (remote br : string) (options : list string) : M unit :=
  perform (GitPush remote br options) (fun h => push git h remote br options).

Definition getUpstreamRef : M (option string) :=
  tryCatch
    (out <- gitRaw ["rev-parse"; "--abbrev-ref"; "--symbolic-full-name"; "@{u}"] ;;
     let upstream := trim out in
     ret (if (0 <? String.length upstream)%nat then Some upstream else None))
    (ret None).

Definition getPreferredRemote : M string :=
  upstream <- getUpstreamRef ;;
  let remote :=
    if truthyOpt upstream then getRemoteFromUpstream (str upstream) else None in
  if truthyOpt remote then ret (str remote)
  else
    remotes <- gitGetRemotes true ;;
    let names := map remote_name remotes in
    if existsb (String.eqb "origin") names then ret "origin"
    else match names with
         | first :: _ => ret first
         | [] => throw "no git remotes found (expected 'origin')"
         end.

Definition remoteBranchExists (remote br : string) : M bool :=
  tryCatch
    (out <- gitRaw ["ls-remote"; "--heads"; remote; br] ;;
     ret (0 <? String.length (trim out))%nat)
    (ret false).

(** Lines 471 to 504 of [commitIfDirty]: the message, the type and the
    scope the commit is composed from. *)
Definition commitIntent (options : CommitOptions)
  : M (string * option string * string) :=
  logStep "Preparing commit message" ;;
  let message0 := option_map trim (commitMessage options) in
  let shouldPromptScope := stdinIsTTY env && negb (truthyOpt (commitMessage options)) in
  type0 <-
    (if truthyOpt (commitType options) then
       let candidate := trim (str (commitType options)) in
       if negb (isRecognizedCommitType candidate) then
         throw ("unknown commit type: " ++ candidate
                ++ " (allowed: " ++ allowedCommitTypesText ++ ")")
       else ret (Some candidate)
     else ret None) ;;
  mt <-
    (if negb (truthyOpt message0) || negb (truthyOpt type0) then
       (if negb (stdinIsTTY env) then
          if negb (truthyOpt message0) then
            throw "working tree has changes; pass --message in non-interactive mode"
          else if negb (truthyOpt type0) && negb (hasConventionalPrefix (str message0)) then
            throw "commit message has no type prefix; pass --type or use an already-prefixed message like 'feat: ...'"
          else ret tt
        else ret tt) ;;
       message1 <-
         (if negb (truthyOpt message0) then
            subject <- promptCommitSubject ;; ret (Some subject)
          else ret message0) ;;
       type1 <-
         (if negb (truthyOpt type0) && negb (hasConventionalPrefix (str message1)) then
            t <- promptCommitType ;; ret (Some t)
          else ret type0) ;;
       ret (message1, type1)
     else ret (message0, type0)) ;;
  let message := fst mt in
  let type := snd mt in
  scope <-
    (if shouldPromptScope && truthyOpt type && truthyOpt message
        && negb (hasConventionalPrefix (str message)) then
       promptCommitScope (match cwd options with
                          | Some dir => dir
                          | None => processCwd env
                          end)
     else ret "") ;;
  ret (str message, type, scope).

Definition commitIfDirty (options : CommitOptions) : M unit :=
  logStep "Scanning working tree status" ;;
  st <- gitStatus ;;
  let isDirty := (0 <? List.length (files st))%nat in
  if negb isDirty then ret tt
  else
    logStep "Found uncommitted changes" ;;
    logHeading "Uncommitted changes:" ;;
    forEach (files st)
      (fun file => emit (StdoutWrite ("  " ++ formatGitStatusLine file ++ nl))) ;;
    emit (StdoutWrite nl) ;;
    logStep "Staging changes (git add -A)" ;;
    gitAdd ["-A"] ;;
    d <- gitDiff ["--cached"; "--name-only"] ;;
    let staged := trim d in
    if (String.length staged =? 0)%nat then ret tt
    else
      intent <- commitIntent options ;;
      let message := fst (fst intent) in
      let type := snd (fst intent) in
      let scope := snd intent in
      let final := finalMessage message type scope in
      logStep ("Committing: " ++ final) ;;
      gitCommit final.

Definition pullIfPossible (remote br rerunCommandName : string) : M unit :=
  upstream <- getUpstreamRef ;;
  let hasUpstream := match upstream with Some _ => true | None => false end in
  canPull <- (if hasUpstream then ret true else remoteBranchExists remote br) ;;
  if negb canPull then logWarning "Remote branch not found yet; skipping pull."
  else
    tryCatch
      (if hasUpstream then gitPull None else gitPull (Some (remote, br)))
      (after <- gitStatus ;;
       if (0 <? List.length (conflicted after))%nat then
         emit (StderrWrite
                 (nl ++ "Pull resulted in conflicts:" ++ nl
                  ++ join nl (map (fun p => "  " ++ p) (conflicted after)) ++ nl)) ;;
         throw ("please resolve conflicts, then rerun " ++ rerunCommandName)
       else throw "git pull failed; please fix and rerun").

Definition pushCurrentBranch (remote br : string) : M unit :=
  upstream <- getUpstreamRef ;;
  let hasUpstream := match upstream with Some _ => true | None => false end in
  let pushOptions := if hasUpstream then [] else ["-u"] in
  gitPush remote br pushOptions.


End WithGit.

(** ** [src/utils/mr.ts]: creating the merge or pull request *)

Definition commandExists (command : string) : M bool :=
  r <- runCommandCapture "which" [command] (processCwd env) ;;
  ret (code r =? 0)%Z.

(** The [for (const tool of candidates)] of [createMergeRequest]: [true]
    when the loop body returned, [false] when the loop ran out. *)
Fixpoint tryCandidates (dir sourceBranch targetBranch : string) (mrUrl : option string)
  (candidates : list string) : M bool :=
  match candidates with
  | [] => ret false
  | tool :: rest =>
      found <- commandExists tool ;;
      if negb found then tryCandidates dir sourceBranch targetBranch mrUrl rest
      else if String.eqb tool "glab" then
        let args := ["mr"; "create"; "--source-branch"; sourceBranch;
                     "--target-branch"; targetBranch; "--fill"; "--yes"] in
        r <- runCommandCapture "glab" args dir ;;
        if (code r =? 0)%Z then
          let urlFromOutput :=
            match matchHttpUrl (stdout r) with
            | Some u => Some u
            | None => mrUrl
            end in
          (if truthyOpt urlFromOutput
           then logSuccess ("Merge request created: " ++ str urlFromOutput)
           else ret tt) ;;
          ret true
        else
          throw (trim ("failed to create merge request via glab." ++ nl
                       ++ orElse (stderr r) (orElse (stdout r) "")))
      else if String.eqb tool "gh" then
        let args := ["pr"; "create"; "--base"; targetBranch; "--head"; sourceBranch;
                     "--fill"; "--json"; "url"; "-q"; ".url"] in
        r <- runCommandCapture "gh" args dir ;;
        if (code r =? 0)%Z then
          let urlFromOutput :=
            if truthy (trim (stdout r)) then Some (trim (stdout r)) else mrUrl in
          (if truthyOpt urlFromOutput
           then logSuccess ("Pull request created: " ++ str urlFromOutput)
           else ret tt) ;;
          ret true
        else
          throw (trim ("failed to create pull request via gh." ++ nl
                       ++ orElse (stderr r) (orElse (stdout r) "")))
      else tryCandidates dir sourceBranch targetBranch mrUrl rest
  end.

Record MergeRequestOptions : Type :=
  { mr_cwd : string;
    parsedRemote : option ParsedRemote;
    sourceBranch : string;
    targetBranch : string }.

Definition candidatesFor (parsed : option ParsedRemote) : list string :=
  let preferGitLab :=
    match parsed with Some p => match provider p with gitlab => true | _ => false end
                 | None => false end in
  let preferGitHub :=
    match parsed with Some p => match provider p with github => true | _ => false end
                 | None => false end in
  if preferGitLab then ["glab"; "gh"]
  else if preferGitHub then ["gh"; "glab"]
  else ["glab"; "gh"].

Definition mrUrlFor (options : MergeRequestOptions) : option string :=
  match parsedRemote options with
  | Some p => buildCreateMrUrl p (sourceBranch options) (targetBranch options)
  | None => None
  end.

(** The message thrown when no tool is found. *)
Definition hint (mrUrl : option string) : string :=
  join nl
    (map str
       (filter truthyOpt
          [ Some "no supported MR/PR tool found (install one):";
            Some "- GitLab: glab (https://github.com/profclems/glab)";
            Some "- GitHub: gh (https://github.com/cli/cli)";
            if truthyOpt mrUrl then Some ("manual link: " ++ str mrUrl) else None ])).

Definition createMergeRequest (options : MergeRequestOptions) : M unit :=
  let candidates := candidatesFor (parsedRemote options) in
  let mrUrl := mrUrlFor options in
  returned <- tryCandidates (mr_cwd options) (sourceBranch options)
                (targetBranch options) mrUrl candidates ;;
  if returned then ret tt
  else throw (hint mrUrl).

(** ** [src/core/toMain.ts] *)

Record ToMainOptions : Type :=
  { tm_branch : option string;
    tm_commitMessage : option string;
    tm_commitType : option string;
    tm_cwd : option string }.

Definition targetBranchOf (options : ToMainOptions) : string :=
  if truthyOpt (option_map trim (tm_branch options))
  then trim (str (tm_branch options))
  else "main".

(** [cwd] of [toMain]. *)
Definition workingDirectory (options : ToMainOptions) : string :=
  if truthyOpt (tm_cwd options) then resolvePath env (str (tm_cwd options))
  else processCwd env.

Definition toMain (options : ToMainOptions) : M unit :=
  let dir := workingDirectory options in
  let target := targetBranchOf options in
  let git := simpleGit env dir in
  logStep ("Working directory: " ++ dir) ;;
  logStep "Checking git repository" ;;
  isRepo <- gitCheckIsRepo git ;;
  if negb isRepo then throw "not inside a git repository"
  else
    logStep "Detecting current branch" ;;
    summary <- gitBranch git ;;
    let currentBranch := current summary in
    if negb (truthy currentBranch) || String.eqb currentBranch "HEAD" then
      throw "detached HEAD; checkout a branch first"
    else if String.eqb currentBranch target then
      throw ("cannot run to-main on '" ++ target
             ++ "' branch; checkout another branch first")
    else
      commitIfDirty git {| commitMessage := tm_commitMessage options;
                           commitType := tm_commitType options;
                           cwd := None |} ;;
      logStep "Resolving remote/upstream" ;;
      remote <- getPreferredRemote git ;;
      logStep ("Pulling latest from " ++ remote ++ "/" ++ currentBranch) ;;
      pullIfPossible git remote currentBranch "to-main" ;;
      logStep ("Pushing to " ++ remote ++ "/" ++ currentBranch) ;;
      pushCurrentBranch git remote currentBranch ;;
      logSuccess ("Pushed " ++ currentBranch ++ " -> " ++ remote ++ "/" ++ currentBranch) ;;
      logStep ("Creating MR/PR: " ++ currentBranch ++ " -> " ++ target) ;;
      out <- gitRaw git ["remote"; "get-url"; remote] ;;
      let remoteUrl := trim out in
      let parsed := parseRemoteUrl (newURL env) remoteUrl in
      (match parsed with
       | Some _ => ret tt
       | None => logWarning ("Could not parse remote url: " ++ remoteUrl)
       end) ;;
      createMergeRequest {| mr_cwd := dir; parsedRemote := parsed;
                            sourceBranch := currentBranch; targetBranch := target |}.

End Workflow.

(** ** Reading a history *)

(** The messages of the commits of a history, the latest first. *)
Fixpoint committedMessages (h : History) : list string :=
  match h with
  | [] => []
  | GitCommit m :: rest => m :: committedMessages rest
  | _ :: rest => committedMessages rest
  end.

(** The calls that change the repository or its remote. *)
Definition mutates (c : Call) : bool :=
  match c with
  | GitAdd _ | GitCommit _ | GitPull _ | GitPush _ _ _ | GitFetch _ _ | GitMerge _ => true
  | _ => false
  end.


(** The two messages of the missing-commit-metadata kind. *)
Definition missingMessage : string :=
  "working tree has changes; pass --message in non-interactive mode".

Definition missingTypePrefix : string :=
  "commit message has no type prefix; pass --type or use an already-prefixed message like 'feat: ...'".

Definition isMissingCommitMetadata (e : string) : bool :=
  String.eqb e missingMessage || String.eqb e missingTypePrefix.

Definition unknownCommitType (candidate : string) : string :=
  "unknown commit type: " ++ candidate ++ " (allowed: " ++ allowedCommitTypesText ++ ")".

Definition invalidSourceBranch (target : string) : string :=
  "cannot run to-main on '" ++ target ++ "' branch; checkout another branch first".

Definition noRemoteConfigured : string := "no git remotes found (expected 'origin')".


(** The line of the manual link in the message of [createMergeRequest]. *)
Definition embedsManualLink (e : string) : bool := includes "manual link: " e.

(** ** A scripted platform, for concrete runs *)

Module Scripted.

(** Answers that do not depend on the history. *)
Record Script : Type :=
  { tty : bool;
    isRepo : bool;
    onBranch : string;
    changed : list StatusFile;
    conflicts : list string;
    stagedNames : string;
    upstream : result string;
    remotes : list string;
    lsRemote : result string;
    remoteUrl : string;
    pullAnswer : result unit;
    mergeAnswer : result unit;
    whichCode : string -> Z;
    toolAnswer : Captured;
    subjectAnswer : string;
    typeAnswer : string;
    scopeAnswer : string }.

Definition isRevParse (args : list string) : bool :=
  match args with
  | cmd :: _ => String.eqb cmd "rev-parse"
  | [] => false
  end.

Definition isLsRemote (args : list string) : bool :=
  match args with
  | cmd :: _ => String.eqb cmd "ls-remote"
  | [] => false
  end.

Definition git (s : Script) : SimpleGit :=
  {| checkIsRepo := fun _ => Ok (isRepo s);
     branch := fun _ => Ok {| current := onBranch s; all := [onBranch s] |};
     status := fun _ => Ok {| files := changed s; conflicted := conflicts s |};
     add := fun _ _ => Ok tt;
     diff := fun _ _ => Ok (stagedNames s);
     commit := fun _ _ => Ok tt;
     raw := fun _ args =>
              if isRevParse args then upstream s
              else if isLsRemote args then lsRemote s
              else Ok (remoteUrl s);
     getRemotes := fun _ _ =>
       Ok (map (fun n => {| remote_name := n; fetch_url := remoteUrl s;
                            push_url := remoteUrl s |}) (remotes s));
     pull := fun _ _ => pullAnswer s;
     push := fun _ _ _ _ => Ok tt;
     fetch := fun _ _ _ => Ok tt;
     merge := fun _ _ => mergeAnswer s |}.

(** [new URL] on the one address the examples need. *)
Definition url (s : string) : option URLRecord :=
  if String.eqb s "https://gitlab.example.com/group/sub/project.git" then
    Some {| url_host := "gitlab.example.com";
            url_pathname := "/group/sub/project.git" |}
  else None.

Definition env (s : Script) : Env :=
  {| stdinIsTTY := tty s;
     processCwd := "/work";
     resolvePath := fun p => p;
     newURL := url;
     simpleGit := fun _ => git s;
     spawnCapture := fun _ command args _ =>
       if String.eqb command "which" then
         {| code := whichCode s (hd "" args); stdout := ""; stderr := "" |}
       else toolAnswer s;
     promptInput := fun _ message =>
       if String.eqb message "Enter commit subject (without prefix):"
       then Ok (subjectAnswer s) else Ok (scopeAnswer s);
     promptList := fun _ _ _ => Ok (typeAnswer s);
     cicdConfigScopes := fun _ _ => None |}.

(** A dirty tree on branch [feat-x], one remote [origin], no terminal. *)
Definition base : Script :=
  {| tty := false;
     isRepo := true;
     onBranch := "feat-x";
     changed := [ {| path := "a.txt"; index := Some "M"; working_dir := Some " " |} ];
     conflicts := [];
     stagedNames := "a.txt";
     upstream := Ok "origin/feat-x";
     remotes := ["origin"];
     lsRemote := Ok "";
     remoteUrl := "git@github.com:acme/widget.git";
     pullAnswer := Ok tt;
     mergeAnswer := Ok tt;
     whichCode := fun _ => 1%Z;
     toolAnswer := {| code := 1%Z; stdout := ""; stderr := "" |};
     subjectAnswer := "";
     typeAnswer := "";
     scopeAnswer := "" |}.

Definition start : World := {| calls := []; output := [] |}.

End Scripted.

(** ** Names for the parts of a run *)

(** The history when the message is determined: status, add, diff. *)
Definition staged_history (w : World) : History :=
  GitDiff ["--cached"; "--name-only"] :: GitAdd ["-A"] :: GitStatus :: calls w.

(** What follows the message determination in [commitIfDirty]. *)
Definition commitStep (git : SimpleGit) (intent : string * option string * string)
  : M unit :=
  let final := finalMessage (fst (fst intent)) (snd (fst intent)) (snd intent) in
  logStep ("Committing: " ++ final) ;;
  gitCommit git final.

(** The type given with [--type], once validated. *)
Definition suppliedType (options : CommitOptions) : option string :=
  if truthyOpt (commitType options) then Some (trim (str (commitType options)))
  else None.

(** [--type] is absent, or names a recognized type. *)
Definition typeAcceptable (options : CommitOptions) : bool :=
  negb (truthyOpt (commitType options))
  || isRecognizedCommitType (trim (str (commitType options))).

Definition prepared (w : World) : World :=
  {| calls := calls w; output := LogStep "Preparing commit message" :: output w |}.

Definition revParseArgs : list string :=
  ["rev-parse"; "--abbrev-ref"; "--symbolic-full-name"; "@{u}"].

Definition lsRemoteArgs (remote br : string) : list string :=
  ["ls-remote"; "--heads"; remote; br].

(** The remote named by the upstream ref of the current branch, if the
    ref resolves and has a remote part. *)
Definition upstreamRemote (git : SimpleGit) (h : History) : option string :=
  match raw git h revParseArgs with
  | Ok out => if truthy (trim out) then getRemoteFromUpstream (trim out) else None
  | Throw _ => None
  end.





(** The upstream ref of the current branch, as [getUpstreamRef] reads it. *)
Definition upstreamRef (git : SimpleGit) (h : History) : option string :=
  match raw git h revParseArgs with
  | Ok out => if truthy (trim out) then Some (trim out) else None
  | Throw _ => None
  end.

(** [tool] is found on the path when asked at history [h]. *)
Definition available (env : Env) (h : History) (tool : string) : bool :=
  (code (spawnCapture env h "which" [tool] (processCwd env)) =? 0)%Z.

Definition whichCall (env : Env) (tool : string) : Call :=
  Spawn "which" [tool] (processCwd env).

(** The arguments of the create command of each tool. *)
Definition createArgs (tool source target : string) : list string :=
  if String.eqb tool "glab" then
    ["mr"; "create"; "--source-branch"; source; "--target-branch"; target;
     "--fill"; "--yes"]
  else
    ["pr"; "create"; "--base"; target; "--head"; source; "--fill"; "--json"; "url";
     "-q"; ".url"].

(** The error thrown when the create command of [tool] fails: a fixed
    text and the output of the tool. *)
Definition toolFailure (tool : string) (r : Captured) : string :=
  trim ((if String.eqb tool "glab" then "failed to create merge request via glab."
         else "failed to create pull request via gh.")
        ++ nl ++ orElse (stderr r) (orElse (stdout r) "")).

(** ** Scripts of the concrete runs *)

Import Scripted.

(** A repository without remotes whose branch tracks the local branch
    [feat/base]. *)
Definition localUpstream : Script :=
  {| tty := false; isRepo := true; onBranch := "feat-x";
     changed := []; conflicts := []; stagedNames := "";
     upstream := Ok "feat/base"; remotes := [];
     lsRemote := Ok ""; remoteUrl := "";
     pullAnswer := Ok tt; mergeAnswer := Ok tt;
     whichCode := fun _ => 1%Z;
     toolAnswer := {| code := 1%Z; stdout := ""; stderr := "" |};
     subjectAnswer := ""; typeAnswer := ""; scopeAnswer := "" |}.

Definition onMain : Script :=
  {| tty := false; isRepo := true; onBranch := "main";
     changed := changed base; conflicts := []; stagedNames := "a.txt";
     upstream := Ok "origin/main"; remotes := ["origin"];
     lsRemote := Ok ""; remoteUrl := "git@github.com:acme/widget.git";
     pullAnswer := Ok tt; mergeAnswer := Ok tt;
     whichCode := fun _ => 1%Z;
     toolAnswer := {| code := 1%Z; stdout := ""; stderr := "" |};
     subjectAnswer := ""; typeAnswer := ""; scopeAnswer := "" |}.

Definition interactive : Script :=
  {| tty := true; isRepo := true; onBranch := "feat-x";
     changed := changed base; conflicts := []; stagedNames := "a.txt";
     upstream := Ok "origin/feat-x"; remotes := ["origin"];
     lsRemote := Ok ""; remoteUrl := "git@github.com:acme/widget.git";
     pullAnswer := Ok tt; mergeAnswer := Ok tt;
     whichCode := fun _ => 1%Z;
     toolAnswer := {| code := 1%Z; stdout := ""; stderr := "" |};
     subjectAnswer := " add login "; typeAnswer := "feat"; scopeAnswer := "api" |}.

Definition pullConflict : Script :=
  {| tty := false; isRepo := true; onBranch := "feat-x";
     changed := []; conflicts := ["a.txt"; "src/b.ts"]; stagedNames := "";
     upstream := Ok "origin/feat-x"; remotes := ["origin"];
     lsRemote := Ok ""; remoteUrl := "git@github.com:acme/widget.git";
     pullAnswer := Throw "CONFLICT (content): Merge conflict in a.txt";
     mergeAnswer := Ok tt;
     whichCode := fun _ => 1%Z;
     toolAnswer := {| code := 1%Z; stdout := ""; stderr := "" |};
     subjectAnswer := ""; typeAnswer := ""; scopeAnswer := "" |}.

(** The branch is on the remote: the listing has its line. *)
Definition onRemote : Script :=
  {| tty := false; isRepo := true; onBranch := "feat-x";
     changed := []; conflicts := []; stagedNames := "";
     upstream := Throw "no upstream configured"; remotes := ["origin"];
     lsRemote := Ok ("d4bfb7e0a1c2f3e4d5b6a7980f1e2d3c4b5a6978"
                     ++ String "009"%char "refs/heads/feat-x" ++ nl);
     remoteUrl := "git@github.com:acme/widget.git";
     pullAnswer := Ok tt; mergeAnswer := Ok tt;
     whichCode := fun _ => 1%Z;
     toolAnswer := {| code := 1%Z; stdout := ""; stderr := "" |};
     subjectAnswer := ""; typeAnswer := ""; scopeAnswer := "" |}.

Definition onlyGhFails : Script :=
  {| tty := false; isRepo := true; onBranch := "feat-x";
     changed := []; conflicts := []; stagedNames := "";
     upstream := Ok "origin/feat-x"; remotes := ["origin"];
     lsRemote := Ok ""; remoteUrl := "git@example.org:acme/widget.git";
     pullAnswer := Ok tt; mergeAnswer := Ok tt;
     whichCode := fun tool => if String.eqb tool "gh" then 0%Z else 1%Z;
     toolAnswer := {| code := 1%Z; stdout := ""; stderr := "not logged in" |};
     subjectAnswer := ""; typeAnswer := ""; scopeAnswer := "" |}.

Definition noOptions : CommitOptions :=
  {| commitMessage := None; commitType := None; cwd := None |}.

Definition prefixedUntrimmed : CommitOptions :=
  {| commitMessage := Some " feat: x"; commitType := None; cwd := None |}.

Definition prefixedUnknownType : CommitOptions :=
  {| commitMessage := Some "feat: x"; commitType := Some "bogus"; cwd := None |}.

Definition unknownTypeOnly : CommitOptions :=
  {| commitMessage := None; commitType := Some "bogus"; cwd := None |}.

Definition toMainDefaults : ToMainOptions :=
  {| tm_branch := None; tm_commitMessage := None; tm_commitType := None;
     tm_cwd := None |}.

Definition bitbucket : ParsedRemote :=
  {| host := "bitbucket.org"; ownerPath := "acme"; repo := "widget";
     provider := unknown |}.

Definition toBitbucket : MergeRequestOptions :=
  {| mr_cwd := "/work"; parsedRemote := Some bitbucket;
     sourceBranch := "feat-x"; targetBranch := "main" |}.

Definition unparsed : MergeRequestOptions :=
  {| mr_cwd := "/work"; parsedRemote := None;
     sourceBranch := "feat-x"; targetBranch := "main" |}.

(** * More of the code *)

Unset Implicit Arguments.

(** ** Reading strings and patterns *)

(** Every character of [s] satisfies [p]. *)
Fixpoint allChars (p : ascii -> bool) (s : string) : bool :=
  match s with
  | EmptyString => true
  | String c s' => p c && allChars p s'
  end.

(** The character [x] does not occur in [s]. *)
Definition lacks (x : ascii) (s : string) : bool :=
  allChars (fun c => negb (Ascii.eqb x c)) s.

(** The whole of [s] matches [r]. *)
Fixpoint fullMatch (r : regex) (s : string) : bool :=
  match s with
  | EmptyString => nullable r
  | String c s' => fullMatch (deriv c r) s'
  end.

(** A character of a name: no white space, and none of [@], [:], [/]. *)
Definition isNameChar (c : ascii) : bool :=
  negb (isWhiteSpace c) && negb (Ascii.eqb c "@") && negb (Ascii.eqb c ":")
  && negb (Ascii.eqb c "/").

(** A non-empty string of name characters. *)
Definition isName (s : string) : bool := truthy s && allChars isNameChar s.

(** The provider [parseRemoteUrl] reads off a host. *)
Definition providerOf (h : string) : Provider :=
  if includes "github" h then github
  else if includes "gitlab" h then gitlab
  else unknown.

(** A scope as the commit intent may hold it: no white space and no
    parenthesis. *)
Definition isScopeChar (c : ascii) : bool :=
  negb (isWhiteSpace c) && negb (Ascii.eqb c "(") && negb (Ascii.eqb c ")").

(** ** [src/utils/config.ts]: the scopes of the configuration file *)

Module Config.

(** A value read from JSON: a string, or anything else. *)
Inductive JSValue : Type :=
| JSString (s : string)
| JSOther.

Definition normalizeScope (v : JSValue) : option string :=
  match v with
  | JSOther => None
  | JSString s =>
      let trimmed := trim s in
      if isEmpty trimmed then None
      else if test (Class isWhiteSpace) trimmed then None
      else if test (Class (fun c => Ascii.eqb c "(" || Ascii.eqb c ")")) trimmed then None
      else Some trimmed
  end.

(** [Array.from(new Set(l))]: the first occurrence of every element, in
    order. *)
Fixpoint unique (l : list string) : list string :=
  match l with
  | [] => []
  | x :: rest => x :: filter (fun y => negb (String.eqb x y)) (unique rest)
  end.

(** [scopes.map(normalizeScope).filter(Boolean)] *)
Fixpoint normalized (scopes : list JSValue) : list string :=
  match scopes with
  | [] => []
  | v :: rest =>
      match normalizeScope v with
      | Some s => if truthy s then s :: normalized rest else normalized rest
      | None => normalized rest
      end
  end.

(** What reading and parsing the configuration file comes to: the value
    of [parsed.scopes] when it is an array ([null] otherwise), the file
    missing ([ENOENT]), or any other failure. *)
Inductive ConfigRead : Type :=
| Parsed (scopes : option (list JSValue))
| Missing
| Failed.

(** [loadCicdConfigScopes], from the outcome of the read on. *)
Definition loadCicdConfigScopes (configPath : string) (r : ConfigRead)
  : M (option (list string)) :=
  match r with
  | Parsed None => ret None
  | Parsed (Some scopes) =>
      let u := unique (normalized scopes) in
      ret (if (0 <? List.length u)%nat then Some u else None)
  | Missing => ret None
  | Failed =>
      bind (logWarning ("Failed to read cicd config scopes from " ++ configPath
                        ++ "; ignoring."))
        (fun _ => ret None)
  end.

End Config.

(** ** Which calls a run makes *)

(** Every run of [m] only adds calls that satisfy [P]. *)
Definition confinedTo {A : Type} (P : Call -> bool) (m : M A) : Prop :=
  forall w, exists made,
    calls (snd (m w)) = (made ++ calls w)%list /\ forallb P made = true.

Definition isPrompt (c : Call) : bool :=
  match c with
  | PromptInput _ | PromptList _ _ | LoadCicdConfigScopes _ => true
  | _ => false
  end.

Definition isCommitPreparerCall (c : Call) : bool :=
  match c with
  | GitStatus | GitAdd _ | GitDiff _ | GitCommit _ => true
  | _ => isPrompt c
  end.

Definition isStagingCall (c : Call) : bool :=
  match c with
  | GitStatus | GitAdd _ | GitDiff _ | GitCommit _ => true
  | _ => false
  end.

Definition isPush (c : Call) : bool :=
  match c with
  | GitPush _ _ _ => true
  | _ => false
  end.

Definition isSpawn (c : Call) : bool :=
  match c with
  | Spawn _ _ _ => true
  | _ => false
  end.

(** The questions of the commit preparer. *)
Definition subjectQuestion : string := "Enter commit subject (without prefix):".
Definition typeQuestion : string := "Select commit type (prefix):".
Definition typeChoices : list (string * string) :=
  map (fun t => (name t, value t)) COMMIT_TYPES.
Definition scopeListQuestion : string := "Select commit scope (optional):".
Definition scopeQuestion : string := "Enter commit scope (optional):".

(** The choices of the scope list. *)
Definition scopeChoices (scopes : list string) : list (string * string) :=
  ((("(none)", "") :: map (fun x => (x, x)) scopes) ++ [("(custom)", "__custom__")])%list.

(** ** [src/core/toSelf.ts] *)

Record ToSelfOptions : Type :=
  { ts_commitMessage : option string; ts_commitType : option string }.

Section ToSelf.

Variable env : Env.

Definition toSelf (options : ToSelfOptions) : M unit :=
  let dir := processCwd env in
  let git := simpleGit env dir in
  logStep ("Working directory: " ++ dir) ;;
  logStep "Checking git repository" ;;
  isRepo <- gitCheckIsRepo git ;;
  if negb isRepo then throw "not inside a git repository"
  else
    logStep "Detecting current branch" ;;
    summary <- gitBranch git ;;
    let br := current summary in
    if negb (truthy br) || String.eqb br "HEAD" then
      throw "detached HEAD; checkout a branch first"
    else
      commitIfDirty env git {| commitMessage := ts_commitMessage options;
                               commitType := ts_commitType options;
                               cwd := None |} ;;
      logStep "Resolving remote/upstream" ;;
      remote <- getPreferredRemote git ;;
      logStep ("Pulling latest from " ++ remote ++ "/" ++ br) ;;
      pullIfPossible git remote br "to-self" ;;
      logStep ("Pushing to " ++ remote ++ "/" ++ br) ;;
      pushCurrentBranch git remote br ;;
      logSuccess ("Pushed " ++ br ++ " -> " ++ remote ++ "/" ++ br).

End ToSelf.

(** ** More scripts *)

Definition cleanTree : Script :=
  {| tty := false; isRepo := true; onBranch := "feat-x";
     changed := []; conflicts := []; stagedNames := "";
     upstream := Ok "origin/feat-x"; remotes := ["origin"];
     lsRemote := Ok ""; remoteUrl := "git@github.com:acme/widget.git";
     pullAnswer := Ok tt; mergeAnswer := Ok tt;
     whichCode := fun _ => 1%Z;
     toolAnswer := {| code := 1%Z; stdout := ""; stderr := "" |};
     subjectAnswer := ""; typeAnswer := ""; scopeAnswer := "" |}.

Definition typedOptions : CommitOptions :=
  {| commitMessage := Some " fix the build "; commitType := Some "fix"; cwd := None |}.

(** A terminal on which the operator picks the first configured scope. *)
Definition pickFirstScope : Env :=
  {| stdinIsTTY := true;
     processCwd := "/work";
     resolvePath := fun p => p;
     newURL := url;
     simpleGit := fun _ => git interactive;
     spawnCapture := fun _ _ _ _ => {| code := 1%Z; stdout := ""; stderr := "" |};
     promptInput := fun _ _ => Ok "";
     promptList := fun _ _ choices =>
       Ok match choices with
          | _ :: (_, v) :: _ => v
          | _ => ""
          end;
     cicdConfigScopes := fun _ _ => Some ["core"; "api"] |}.

(** A branch not yet published: no upstream, and the remote has no
    branch of that name. *)
Definition unpublished : Script :=
  {| tty := false; isRepo := true; onBranch := "feat-x";
     changed := []; conflicts := []; stagedNames := "";
     upstream := Throw "fatal: no upstream configured for branch 'feat-x'";
     remotes := ["backup"; "origin"];
     lsRemote := Ok ""; remoteUrl := "git@github.com:acme/widget.git";
     pullAnswer := Ok tt; mergeAnswer := Ok tt;
     whichCode := fun _ => 1%Z;
     toolAnswer := {| code := 1%Z; stdout := ""; stderr := "" |};
     subjectAnswer := ""; typeAnswer := ""; scopeAnswer := "" |}.

(** Outside of any repository. *)
Definition notARepository : Script :=
  {| tty := false; isRepo := false; onBranch := "";
     changed := []; conflicts := []; stagedNames := "";
     upstream := Throw "fatal: not a git repository"; remotes := [];
     lsRemote := Throw "fatal: not a git repository"; remoteUrl := "";
     pullAnswer := Ok tt; mergeAnswer := Ok tt;
     whichCode := fun _ => 1%Z;
     toolAnswer := {| code := 1%Z; stdout := ""; stderr := "" |};
     subjectAnswer := ""; typeAnswer := ""; scopeAnswer := "" |}.

(** A detached HEAD: the branch query reports the abbreviated commit. *)
Definition detachedAtCommit : Script :=
  {| tty := false; isRepo := true; onBranch := "d4bfb7e";
     changed := []; conflicts := []; stagedNames := "";
     upstream := Throw "fatal: HEAD does not point to a branch"; remotes := ["origin"];
     lsRemote := Ok ""; remoteUrl := "git@github.com:acme/widget.git";
     pullAnswer := Ok tt; mergeAnswer := Ok tt;
     whichCode := fun _ => 1%Z;
     toolAnswer := {| code := 1%Z; stdout := ""; stderr := "" |};
     subjectAnswer := ""; typeAnswer := ""; scopeAnswer := "" |}.

Definition toSelfDefaults : ToSelfOptions :=
  {| ts_commitMessage := None; ts_commitType := None |}.

Definition notInsideRepository : string := "not inside a git repository".
Definition detachedHead : string := "detached HEAD; checkout a branch first".

(** A look-up of a tool on the path. *)
Definition isLookup (env : Env) (c : Call) : bool :=
  match c with
  | Spawn command [_] dir => String.eqb command "which" && String.eqb dir (processCwd env)
  | _ => false
  end.

(** What a flow does before it publishes: neither a push nor a process. *)
Definition isPreparation (c : Call) : bool := negb (isPush c) && negb (isSpawn c).

(** Any call at all. *)
Definition anyCall (c : Call) : bool := true.

(** What a percent-encoded text is made of. *)
Definition isUriSafe (c : ascii) : bool := isUriUnreserved c || Ascii.eqb c "%".

(** The address of the repository page, the start of a manual link. *)
Definition repositoryPage (p : ParsedRemote) : string :=
  "https://" ++ host p ++ "/" ++ ownerPath p ++ "/" ++ repo p.

Definition widgetOnGitLab : ParsedRemote :=
  {| host := "gitlab.com"; ownerPath := "acme/tools"; repo := "widget";
     provider := gitlab |}.

(** ** [src/core/deploy/template.ts]: the deployment runner *)

Module Deploy.

Inductive DeployArtifact : Type :=
| DockerImage (ref : string)
| File (path : string)
| NoArtifact.

Definition kind (a : DeployArtifact) : string :=
  match a with
  | DockerImage _ => "docker-image"
  | File _ => "file"
  | NoArtifact => "none"
  end.

Record DeployContext : Type :=
  { cwd : string;
    env : string;
    appName : string;
    version : string;
    dryRun : option bool }.

Record DeployResult : Type :=
  { deployedEnv : string;
    deployedApp : string;
    deployedVersion : string;
    url : option string;
    revision : option string }.

(** What [notify] is told: [{ ok: true, result }] or [{ ok: false, error }]. *)
Inductive Payload : Type :=
| Succeeded (result : DeployResult)
| Failed (error : string).

(** The calls of the hooks. *)
Inductive HookCall : Type :=
| Preflight
| Build
| Deploying (artifact : DeployArtifact)
| Verify (result : DeployResult)
| Rollback (reason : string)
| Notify (payload : Payload).

(** The hook calls made so far, the latest first. *)
Definition Trail : Type := list HookCall.

(** The hooks: what each answers depends on what was called before. *)
Record DeployHooks : Type :=
  { preflight : option (Trail -> DeployContext -> result unit);
    build : option (Trail -> DeployContext -> result DeployArtifact);
    deploy : Trail -> DeployContext -> DeployArtifact -> result DeployResult;
    verify : option (Trail -> DeployContext -> DeployResult -> result unit);
    rollback : option (Trail -> DeployContext -> string -> result unit);
    notify : option (Trail -> DeployContext -> Payload -> result unit) }.

Record Stage : Type := { trail : Trail; logged : list Output }.

Definition Run (A : Type) : Type := Stage -> result A * Stage.

Definition pure {A : Type} (a : A) : Run A := fun s => (Ok a, s).

Definition raise {A : Type} (error : string) : Run A := fun s => (Throw error, s).

Definition andThen {A B : Type} (m : Run A) (k : A -> Run B) : Run B :=
  fun s =>
    match m s with
    | (Ok a, s') => k a s'
    | (Throw e, s') => (Throw e, s')
    end.

(** [try { body } catch (error) { handler(error) }] *)
Definition catch {A : Type} (body : Run A) (handler : string -> Run A) : Run A :=
  fun s =>
    match body s with
    | (Ok a, s') => (Ok a, s')
    | (Throw e, s') => handler e s'
    end.

Definition call {A : Type} (c : HookCall) (answer : Trail -> result A) : Run A :=
  fun s => (answer (trail s), {| trail := c :: trail s; logged := logged s |}).

Definition log (o : Output) : Run unit :=
  fun s => (Ok tt, {| trail := trail s; logged := o :: logged s |}).

(** [{ ...ctx, dryRun: Boolean(ctx.dryRun) }] *)
Definition safeCtx (ctx : DeployContext) : DeployContext :=
  {| cwd := cwd ctx; env := env ctx; appName := appName ctx; version := version ctx;
     dryRun := Some (match dryRun ctx with Some b => b | None => false end) |}.

Definition runCdDeployment (ctx : DeployContext) (hooks : DeployHooks) : Run DeployResult :=
  let safe := safeCtx ctx in
  andThen (log (LogStep ("CD: " ++ appName safe ++ " -> " ++ env safe
                         ++ " (" ++ version safe ++ ")"))) (fun _ =>
  andThen (if match dryRun safe with Some b => b | None => false end
           then log (LogWarning
                  "dry-run enabled: will still run hooks unless you handle it in your hooks.")
           else pure tt) (fun _ =>
  catch
    (andThen (match preflight hooks with
              | Some hook =>
                  andThen (log (LogStep "CD: preflight")) (fun _ =>
                  andThen (call Preflight (fun t => hook t safe)) (fun _ =>
                  log (LogSuccess "preflight ok")))
              | None => pure tt
              end) (fun _ =>
     andThen (match build hooks with
              | Some hook =>
                  andThen (log (LogStep "CD: build")) (fun _ =>
                  andThen (call Build (fun t => hook t safe)) (fun artifact =>
                  andThen (log (LogSuccess ("build ok (" ++ kind artifact ++ ")")))
                    (fun _ => pure artifact)))
              | None => pure NoArtifact
              end) (fun artifact =>
     andThen (log (LogStep "CD: deploy")) (fun _ =>
     andThen (call (Deploying artifact) (fun t => deploy hooks t safe artifact))
       (fun result =>
     andThen (log (LogSuccess "deploy ok")) (fun _ =>
     andThen (match verify hooks with
              | Some hook =>
                  andThen (log (LogStep "CD: verify")) (fun _ =>
                  andThen (call (Verify result) (fun t => hook t safe result)) (fun _ =>
                  log (LogSuccess "verify ok")))
              | None => pure tt
              end) (fun _ =>
     andThen (match notify hooks with
              | Some hook =>
                  call (Notify (Succeeded result))
                    (fun t => hook t safe (Succeeded result))
              | None => pure tt
              end) (fun _ =>
     pure result))))))))
    (fun error =>
       andThen (log (LogWarning "CD failed.")) (fun _ =>
       andThen (match rollback hooks with
                | Some hook =>
                    catch
                      (andThen (log (LogStep "CD: rollback")) (fun _ =>
                       andThen (call (Rollback error) (fun t => hook t safe error))
                         (fun _ =>
                       log (LogSuccess "rollback done"))))
                      (fun rollbackError =>
                         log (LogWarning ("rollback failed: " ++ rollbackError)))
                | None => log (LogWarning "no rollback hook; skipping.")
                end) (fun _ =>
       andThen (match notify hooks with
                | Some hook =>
                    catch
                      (call (Notify (Failed error))
                         (fun t => hook t safe (Failed error)))
                      (fun notifyError =>
                         log (LogWarning ("notify failed: " ++ notifyError)))
                | None => pure tt
                end) (fun _ =>
       raise error)))))).

(** ** Reading a trail *)

(** A step of the deployment itself, as opposed to the recovery. *)
Definition isForward (c : HookCall) : bool :=
  match c with
  | Rollback _ | Notify (Failed _) => false
  | _ => true
  end.

(** The recovery after the error [e], the latest call first: the
    rollback, then the notification of the failure, for the hooks that
    are defined. *)
Definition recovery (hooks : DeployHooks) (e : string) : Trail :=
  (match notify hooks with Some _ => [Notify (Failed e)] | None => [] end
   ++ match rollback hooks with Some _ => [Rollback e] | None => [] end)%list.

Definition errorOf {A : Type} (r : result A) : option string :=
  match r with Ok _ => None | Throw e => Some e end.

(** The error of the call [c] made after the trail [t], if it throws. *)
Definition failure (hooks : DeployHooks) (ctx : DeployContext) (t : Trail) (c : HookCall)
  : option string :=
  match c with
  | Preflight =>
      match preflight hooks with Some hook => errorOf (hook t ctx) | None => None end
  | Build =>
      match build hooks with Some hook => errorOf (hook t ctx) | None => None end
  | Deploying artifact => errorOf (deploy hooks t ctx artifact)
  | Verify result =>
      match verify hooks with Some hook => errorOf (hook t ctx result) | None => None end
  | Rollback reason =>
      match rollback hooks with Some hook => errorOf (hook t ctx reason) | None => None end
  | Notify payload =>
      match notify hooks with Some hook => errorOf (hook t ctx payload) | None => None end
  end.

(** The same hooks, without the notification. *)
Definition withoutNotify (hooks : DeployHooks) : DeployHooks :=
  {| preflight := preflight hooks; build := build hooks; deploy := deploy hooks;
     verify := verify hooks; rollback := rollback hooks; notify := None |}.

(** ** Hooks for the examples *)

Definition released (ctx : DeployContext) : DeployResult :=
  {| deployedEnv := env ctx; deployedApp := appName ctx; deployedVersion := version ctx;
     url := None; revision := Some (version ctx) |}.

(** Hooks that all succeed, but for a notification channel that is down. *)
Definition channelDown : DeployHooks :=
  {| preflight := Some (fun _ _ => Ok tt);
     build := Some (fun _ ctx => Ok (DockerImage (appName ctx ++ ":" ++ version ctx)));
     deploy := fun _ ctx _ => Ok (released ctx);
     verify := Some (fun _ _ _ => Ok tt);
     rollback := Some (fun _ _ _ => Ok tt);
     notify := Some (fun _ _ _ => Throw "channel not reachable") |}.

Definition toStaging : DeployContext :=
  {| cwd := "/work"; env := "staging"; appName := "widget"; version := "1.4.0";
     dryRun := None |}.

Definition fresh : Stage := {| trail := []; logged := [] |}.

End Deploy.

Set Implicit Arguments.

(** * Properties *)

Unset Implicit Arguments.

Arguments hasConventionalPrefix : simpl never.
Arguments isRecognizedCommitType : simpl never.
Arguments trim : simpl never.
Arguments String.append : simpl never.

(** ** Strings *)

Lemma trimEnd_idempotent (s : string) : trimEnd (trimEnd s) = trimEnd s.
Proof.
  induction s as [|c s IH]; simpl; [reflexivity|].
  destruct (isWhiteSpace c && isEmpty (trimEnd s)) eqn:E; simpl; [reflexivity|].
  rewrite IH, E. reflexivity.
Qed.

Lemma trimStart_head (s : string) :
  trimStart s = EmptyString \/
  exists c r, trimStart s = String c r /\ isWhiteSpace c = false.
Proof.
  induction s as [|c s IH]; simpl; [left; reflexivity|].
  destruct (isWhiteSpace c) eqn:E; [exact IH|].
  right. exists c, s. split; [reflexivity | exact E].
Qed.

Lemma trim_idempotent (s : string) : trim (trim s) = trim s.
Proof.
  unfold trim.
  destruct (trimStart_head s) as [H | (c & r & H & Hc)]; rewrite H.
  - reflexivity.
  - simpl. rewrite Hc. simpl. rewrite Hc. simpl. rewrite Hc. simpl.
    rewrite trimEnd_idempotent. reflexivity.
Qed.

Lemma hasConventionalPrefix_trim (m : string) :
  hasConventionalPrefix (trim m) = hasConventionalPrefix m.
Proof. unfold hasConventionalPrefix. rewrite trim_idempotent. reflexivity. Qed.

Lemma hasConventionalPrefix_truthy_trim (m : string) :
  hasConventionalPrefix m = true -> truthy (trim m) = true.
Proof.
  unfold hasConventionalPrefix. destruct (trim m); [discriminate | reflexivity].
Qed.

Lemma hasConventionalPrefix_truthy (m : string) :
  hasConventionalPrefix m = true -> truthy m = true.
Proof.
  intros H. destruct m; [discriminate H | reflexivity].
Qed.

(** ** The guard of the promote-to-main flow *)

(** C4.  In a git repository whose current branch is the configured target
    branch, [toMain] throws the invalid-source-branch error, and the only
    calls it made are the two queries [checkIsRepo] and [branch]: nothing
    was staged, committed, pulled, fetched, merged or pushed. *)
Theorem toMain_on_target_branch :
  forall (env : Env) (options : ToMainOptions) (w : World) (summary : BranchSummary),
    let git := simpleGit env (workingDirectory env options) in
    checkIsRepo git (calls w) = Ok true ->
    branch git (GitCheckIsRepo :: calls w) = Ok summary ->
    truthy (current summary) = true ->
    current summary <> "HEAD" ->
    current summary = targetBranchOf options ->
    let r := toMain env options w in
    fst r = Throw (invalidSourceBranch (targetBranchOf options))
    /\ exists made,
         calls (snd r) = (made ++ calls w)%list
         /\ made = [GitBranch; GitCheckIsRepo]
         /\ existsb mutates made = false.
Proof.
  intros env options w summary git Hrepo Hbranch Hnamed Hhead Htarget r.
  subst r. unfold toMain, logStep, gitCheckIsRepo, gitBranch, bind, emit, perform.
  fold git. simpl. rewrite Hrepo. simpl. rewrite Hbranch. simpl.
  rewrite Hnamed. simpl.
  destruct (String.eqb_spec (current summary) "HEAD") as [E | _]; [contradiction|].
  rewrite <- Htarget. rewrite String.eqb_refl. simpl.
  split; [reflexivity|].
  exists [GitBranch; GitCheckIsRepo]. repeat split.
Qed.

(** ** The commit preparer *)

(** One step of a run: a write to the terminal, or a call with a known
    answer. *)
Ltac run_emit :=
  unfold bind at 1; unfold emit at 1; cbv beta iota; cbn [calls output].

Ltac run_perform H :=
  unfold bind at 1; unfold perform at 1; cbv beta iota; cbn [calls output];
  rewrite H; cbv beta iota.

Lemma forEach_emit {A : Type} (f : A -> Output) (l : list A) (w : World) :
  exists o, forEach l (fun x => emit (f x)) w = (Ok tt, {| calls := calls w; output := o |}).
Proof.
  revert w. induction l as [|x l IH]; intros w; simpl.
  - exists (output w). destruct w; reflexivity.
  - unfold bind, emit at 1. simpl.
    destruct (IH {| calls := calls w; output := f x :: output w |}) as [o Ho].
    exists o. exact Ho.
Qed.

Section CommitPreparer.

Variable env : Env.
Variable git : SimpleGit.
Variable options : CommitOptions.
Variable w : World.

(** [commitIfDirty] up to the message determination: every way it can
    stop before, and the world in which the message is determined. *)
Lemma commitIfDirty_cases :
  exists o,
    commitIfDirty env git options w =
    match status git (calls w) with
    | Throw e => (Throw e, {| calls := GitStatus :: calls w; output := o |})
    | Ok st =>
        if negb (0 <? List.length (files st))%nat then
          (Ok tt, {| calls := GitStatus :: calls w; output := o |})
        else
          match add git (GitStatus :: calls w) ["-A"] with
          | Throw e =>
              (Throw e, {| calls := GitAdd ["-A"] :: GitStatus :: calls w; output := o |})
          | Ok _ =>
              match diff git (GitAdd ["-A"] :: GitStatus :: calls w)
                      ["--cached"; "--name-only"] with
              | Throw e => (Throw e, {| calls := staged_history w; output := o |})
              | Ok d =>
                  if (String.length (trim d) =? 0)%nat then
                    (Ok tt, {| calls := staged_history w; output := o |})
                  else
                    bind (commitIntent env options) (commitStep git)
                      {| calls := staged_history w; output := o |}
              end
          end
    end.
Proof.
  unfold commitIfDirty, logStep, logHeading, gitStatus, gitAdd, gitDiff.
  run_emit. unfold bind at 1. unfold perform at 1. cbv beta iota. cbn [calls output].
  destruct (status git (calls w)) as [st | e]; [|eexists; reflexivity].
  cbv beta iota zeta.
  destruct (0 <? List.length (files st))%nat; cbn [negb]; [|eexists; reflexivity].
  run_emit. run_emit.
  unfold bind at 1.
  match goal with
  | |- context [forEach ?l ?g ?w0] =>
      destruct (forEach_emit (fun file => StdoutWrite ("  " ++ formatGitStatusLine file ++ nl))
                  l w0) as [o Ho]; rewrite Ho
  end.
  run_emit. run_emit.
  unfold bind at 1. unfold perform at 1. cbv beta iota. cbn [calls output].
  destruct (add git (GitStatus :: calls w) ["-A"]) as [[] | e]; [|eexists; reflexivity].
  unfold bind at 1. unfold perform at 1. cbv beta iota. cbn [calls output].
  destruct (diff git (GitAdd ["-A"] :: GitStatus :: calls w) ["--cached"; "--name-only"])
    as [d | e]; [|eexists; reflexivity].
  cbv beta iota zeta.
  destruct (String.length (trim d) =? 0)%nat; eexists; reflexivity.
Qed.

Variable st : StatusResult.
Variable d : string.
Hypothesis Hstatus : status git (calls w) = Ok st.
Hypothesis Hdirty : files st <> [].
Hypothesis Hadd : add git (GitStatus :: calls w) ["-A"] = Ok tt.
Hypothesis Hdiff :
  diff git (GitAdd ["-A"] :: GitStatus :: calls w) ["--cached"; "--name-only"] = Ok d.
Hypothesis Hstaged : trim d <> "".

Lemma commitIfDirty_staged :
  exists o,
    commitIfDirty env git options w
    = bind (commitIntent env options) (commitStep git)
        {| calls := staged_history w; output := o |}.
Proof.
  assert (Hlen : (0 <? List.length (files st))%nat = true).
  { destruct (files st); [contradiction | reflexivity]. }
  assert (Hnon : (String.length (trim d) =? 0)%nat = false).
  { destruct (trim d); [contradiction | reflexivity]. }
  destruct commitIfDirty_cases as [o Ho]. exists o.
  rewrite Ho, Hstatus, Hlen, Hadd, Hdiff, Hnon. reflexivity.
Qed.

End CommitPreparer.

Lemma bind_Ok_inv {A B : Type} (m : M A) (k : A -> M B) (w w' : World) (b : B) :
  bind m k w = (Ok b, w') ->
  exists a w1, m w = (Ok a, w1) /\ k a w1 = (Ok b, w').
Proof.
  unfold bind. destruct (m w) as [[a | e] w1]; intros H.
  - exists a, w1. split; [reflexivity | exact H].
  - discriminate H.
Qed.

Lemma ret_Ok_inv {A : Type} (a b : A) (w w' : World) :
  ret a w = (Ok b, w') -> a = b /\ w = w'.
Proof. unfold ret. intros H. inversion H. split; reflexivity. Qed.

Lemma promptCommitSubject_trimmed (env : Env) (w w' : World) (s : string) :
  promptCommitSubject env w = (Ok s, w') -> trim s = s.
Proof.
  unfold promptCommitSubject. intros H.
  apply bind_Ok_inv in H. destruct H as (a & w1 & _ & H).
  apply ret_Ok_inv in H. destruct H as [<- _]. apply trim_idempotent.
Qed.

Lemma trim_empty : trim "" = "".
Proof. reflexivity. Qed.

(** The message of the commit intent is always trimmed: it is the trimmed
    [--message], or the trimmed answer to the subject question. *)
Lemma commitIntent_message_trimmed (env : Env) (options : CommitOptions)
  (w w' : World) (m : string) (ty : option string) (s : string) :
  commitIntent env options w = (Ok (m, ty, s), w') -> trim m = m.
Proof.
  unfold commitIntent. intros H.
  apply bind_Ok_inv in H. destruct H as (_ & w1 & _ & H).
  apply bind_Ok_inv in H. destruct H as (type0 & w2 & _ & H).
  apply bind_Ok_inv in H. destruct H as (mt & w3 & Hmt & H).
  apply bind_Ok_inv in H. destruct H as (scope & w4 & _ & H).
  apply ret_Ok_inv in H. destruct H as [H _]. inversion H; subst; clear H.
  assert (H0 : trim (str (option_map trim (commitMessage options)))
               = str (option_map trim (commitMessage options))).
  { destruct (commitMessage options); simpl; [apply trim_idempotent | apply trim_empty]. }
  destruct (negb (truthyOpt (option_map trim (commitMessage options)))
            || negb (truthyOpt type0)).
  - apply bind_Ok_inv in Hmt. destruct Hmt as (_ & w5 & _ & Hmt).
    apply bind_Ok_inv in Hmt. destruct Hmt as (message1 & w6 & Hm1 & Hmt).
    apply bind_Ok_inv in Hmt. destruct Hmt as (type1 & w7 & _ & Hmt).
    apply ret_Ok_inv in Hmt. destruct Hmt as [<- _]. simpl.
    destruct (negb (truthyOpt (option_map trim (commitMessage options)))).
    + apply bind_Ok_inv in Hm1. destruct Hm1 as (subject & w8 & Hs & Hm1).
      apply ret_Ok_inv in Hm1. destruct Hm1 as [<- _]. simpl.
      exact (promptCommitSubject_trimmed _ _ _ _ Hs).
    + apply ret_Ok_inv in Hm1. destruct Hm1 as [<- _]. exact H0.
  - apply ret_Ok_inv in Hmt. destruct Hmt as [<- _]. exact H0.
Qed.

Ltac run_pure :=
  cbv [bind ret throw emit logStep]; cbv beta iota zeta; cbn [calls output fst snd].

Lemma commitIntent_unknown_type (env : Env) (options : CommitOptions) (w : World) :
  typeAcceptable options = false ->
  commitIntent env options w
  = (Throw (unknownCommitType (trim (str (commitType options)))), prepared w).
Proof.
  unfold typeAcceptable. intros H.
  apply orb_false_iff in H. destruct H as [H1 H2].
  apply negb_false_iff in H1.
  unfold commitIntent. run_pure. rewrite H1, H2. reflexivity.
Qed.

Lemma suppliedType_truthy (options : CommitOptions) :
  typeAcceptable options = true ->
  truthyOpt (suppliedType options) = truthyOpt (commitType options).
Proof.
  unfold typeAcceptable, suppliedType. intros H.
  destruct (truthyOpt (commitType options)) eqn:E; [|reflexivity].
  simpl in H. simpl. destruct (trim (str (commitType options))); [discriminate H | reflexivity].
Qed.

Lemma commitIntent_type_step (options : CommitOptions) (w : World)
  (k : option string -> M (string * option string * string)) :
  typeAcceptable options = true ->
  bind (if truthyOpt (commitType options) then
          let candidate := trim (str (commitType options)) in
          if negb (isRecognizedCommitType candidate) then
            throw ("unknown commit type: " ++ candidate
                   ++ " (allowed: " ++ allowedCommitTypesText ++ ")")
          else ret (Some candidate)
        else ret None) k w
  = k (suppliedType options) w.
Proof.
  unfold typeAcceptable, suppliedType. intros H.
  destruct (truthyOpt (commitType options)); simpl in H; cbv zeta.
  - rewrite H. reflexivity.
  - reflexivity.
Qed.

Lemma commitIntent_prefixed (env : Env) (options : CommitOptions) (w : World) (m : string) :
  commitMessage options = Some m ->
  hasConventionalPrefix m = true ->
  typeAcceptable options = true ->
  commitIntent env options w = (Ok (trim m, suppliedType options, ""), prepared w).
Proof.
  intros Hm Hp Ht.
  pose proof (hasConventionalPrefix_truthy_trim _ Hp) as Htm.
  pose proof (hasConventionalPrefix_truthy _ Hp) as Htr.
  unfold commitIntent. unfold bind at 1. unfold logStep, emit. cbv beta iota zeta.
  rewrite commitIntent_type_step by exact Ht.
  rewrite Hm. cbn [option_map truthyOpt str]. rewrite Htm, Htr.
  rewrite hasConventionalPrefix_trim, Hp.
  destruct (truthyOpt (suppliedType options)), (stdinIsTTY env);
    cbn [negb andb orb]; run_pure; cbn [str negb andb orb];
    rewrite ?hasConventionalPrefix_trim, ?Hp; cbn [negb andb orb];
    reflexivity.
Qed.

Lemma commitIntent_missing_message (env : Env) (options : CommitOptions) (w : World) :
  stdinIsTTY env = false ->
  truthyOpt (option_map trim (commitMessage options)) = false ->
  typeAcceptable options = true ->
  commitIntent env options w = (Throw missingMessage, prepared w).
Proof.
  intros Htty Hm Ht.
  unfold commitIntent. unfold bind at 1. unfold logStep, emit. cbv beta iota zeta.
  rewrite commitIntent_type_step by exact Ht.
  rewrite Hm, Htty. reflexivity.
Qed.

Lemma commitIntent_missing_type (env : Env) (options : CommitOptions) (w : World)
  (m : string) :
  stdinIsTTY env = false ->
  commitMessage options = Some m ->
  truthy (trim m) = true ->
  hasConventionalPrefix m = false ->
  truthyOpt (commitType options) = false ->
  commitIntent env options w = (Throw missingTypePrefix, prepared w).
Proof.
  intros Htty Hm Htm Hp Hty.
  assert (Ht : typeAcceptable options = true).
  { unfold typeAcceptable. rewrite Hty. reflexivity. }
  unfold commitIntent. unfold bind at 1. unfold logStep, emit. cbv beta iota zeta.
  rewrite commitIntent_type_step by exact Ht.
  unfold suppliedType. rewrite Hty.
  rewrite Hm, Htty. cbn [option_map truthyOpt str]. rewrite Htm.
  rewrite hasConventionalPrefix_trim, Hp. reflexivity.
Qed.

Lemma finalMessage_prefixed (m : string) (ty : option string) (s : string) :
  hasConventionalPrefix m = true -> finalMessage (trim m) ty s = trim m.
Proof.
  intros H. unfold finalMessage. rewrite hasConventionalPrefix_trim, H. reflexivity.
Qed.

(** The run of [commitIfDirty] from the message determination on, when the
    message given with [--message] carries a conventional prefix. *)
Lemma commit_prefixed_tail (env : Env) (git : SimpleGit) (options : CommitOptions)
  (w : World) (m : string) :
  commitMessage options = Some m ->
  hasConventionalPrefix m = true ->
  let r := bind (commitIntent env options) (commitStep git) w in
  if typeAcceptable options then
    fst r = commit git (calls w) (trim m)
    /\ calls (snd r) = GitCommit (trim m) :: calls w
  else
    fst r = Throw (unknownCommitType (trim (str (commitType options))))
    /\ calls (snd r) = calls w.
Proof.
  intros Hm Hp r. subst r.
  destruct (typeAcceptable options) eqn:Ht.
  - assert (E : exists o,
               bind (commitIntent env options) (commitStep git) w
               = (commit git (calls w) (trim m),
                  {| calls := GitCommit (trim m) :: calls w; output := o |})).
    { unfold bind at 1. rewrite (@commitIntent_prefixed env options w m Hm Hp Ht).
      unfold commitStep. cbn [fst snd]. rewrite (@finalMessage_prefixed m _ _ Hp).
      unfold logStep, gitCommit. run_emit. unfold perform. cbn [calls output].
      eexists. reflexivity. }
    destruct E as [o E]. rewrite E. split; reflexivity.
  - assert (E : bind (commitIntent env options) (commitStep git) w
               = (Throw (unknownCommitType (trim (str (commitType options)))),
                  prepared w)).
    { unfold bind at 1. rewrite (@commitIntent_unknown_type env options w Ht).
      reflexivity. }
    rewrite E. split; reflexivity.
Qed.

(** C1, as the code has it.  When the message given with [--message]
    matches the conventional-prefix pattern after trimming, the only commit
    a run of [commitIfDirty] can create carries that message trimmed, with
    no type and no scope put before it, whatever [--type] is.  On a dirty
    tree whose staging leaves a diff, the commit is made when [--type] is
    absent or recognized; a [--type] that is given and not recognized stops
    the run with the unknown-commit-type error, after status, add and diff
    and before any commit. *)
Theorem commitIfDirty_prefixed_message :
  forall (env : Env) (git : SimpleGit) (options : CommitOptions) (w : World)
         (m : string),
    commitMessage options = Some m ->
    hasConventionalPrefix m = true ->
    let r := commitIfDirty env git options w in
    (committedMessages (calls (snd r)) = committedMessages (calls w)
     \/ committedMessages (calls (snd r)) = trim m :: committedMessages (calls w))
    /\ (forall (st : StatusResult) (d : string),
          status git (calls w) = Ok st ->
          files st <> [] ->
          add git (GitStatus :: calls w) ["-A"] = Ok tt ->
          diff git (GitAdd ["-A"] :: GitStatus :: calls w)
            ["--cached"; "--name-only"] = Ok d ->
          trim d <> "" ->
          (typeAcceptable options = true ->
           fst r = commit git (staged_history w) (trim m)
           /\ calls (snd r) = GitCommit (trim m) :: staged_history w)
          /\ (typeAcceptable options = false ->
              fst r = Throw (unknownCommitType (trim (str (commitType options))))
              /\ calls (snd r) = staged_history w
              /\ committedMessages (calls (snd r)) = committedMessages (calls w))).
Proof.
  intros env git options w m Hm Hp r. subst r. split.
  - destruct (commitIfDirty_cases env git options w) as [o Ho]. rewrite Ho.
    destruct (status git (calls w)) as [st | e]; [|left; reflexivity].
    destruct (negb (0 <? List.length (files st))%nat); [left; reflexivity|].
    destruct (add git (GitStatus :: calls w) ["-A"]) as [[] | e]; [|left; reflexivity].
    destruct (diff git (GitAdd ["-A"] :: GitStatus :: calls w) ["--cached"; "--name-only"])
      as [d | e]; [|left; reflexivity].
    destruct (String.length (trim d) =? 0)%nat; [left; reflexivity|].
    pose proof (@commit_prefixed_tail env git options
                  {| calls := staged_history w; output := o |} m Hm Hp) as H.
    cbv zeta in H. destruct (typeAcceptable options); destruct H as [_ H]; rewrite H.
    + right. reflexivity.
    + left. reflexivity.
  - intros st d Hstatus Hdirty Hadd Hdiff Hstaged.
    destruct (@commitIfDirty_staged env git options w st d
                Hstatus Hdirty Hadd Hdiff Hstaged) as [o Ho].
    rewrite Ho.
    pose proof (@commit_prefixed_tail env git options
                  {| calls := staged_history w; output := o |} m Hm Hp) as H.
    cbv zeta in H. split; intros Ht; rewrite Ht in H.
    + exact H.
    + destruct H as [Hr Hc]. split; [exact Hr|]. rewrite Hc. split; reflexivity.
Qed.

Lemma commit_tail_throw (env : Env) (git : SimpleGit) (options : CommitOptions)
  (w : World) (e : string) :
  commitIntent env options w = (Throw e, prepared w) ->
  bind (commitIntent env options) (commitStep git) w = (Throw e, prepared w).
Proof. intros H. unfold bind. rewrite H. reflexivity. Qed.

(** C7, as the code has it.  Without a terminal, on a dirty tree whose
    staged diff is not empty: with no message (or a blank one) and a type
    that is absent or recognized, the run throws the missing-message
    error; with a message without prefix and no type, it throws an error of
    the same missing-commit-metadata kind; a type that is given but not
    recognized is reported first, as the unknown-commit-type error.  In all
    three cases the calls made are status, add and diff: no commit. *)
Theorem commitIfDirty_non_interactive :
  forall (env : Env) (git : SimpleGit) (options : CommitOptions) (w : World)
         (st : StatusResult) (d : string),
    stdinIsTTY env = false ->
    status git (calls w) = Ok st ->
    files st <> [] ->
    add git (GitStatus :: calls w) ["-A"] = Ok tt ->
    diff git (GitAdd ["-A"] :: GitStatus :: calls w) ["--cached"; "--name-only"] = Ok d ->
    trim d <> "" ->
    let r := commitIfDirty env git options w in
    (truthyOpt (option_map trim (commitMessage options)) = false ->
     typeAcceptable options = true ->
     fst r = Throw missingMessage /\ calls (snd r) = staged_history w)
    /\ (forall m : string,
          commitMessage options = Some m ->
          hasConventionalPrefix m = false ->
          truthyOpt (commitType options) = false ->
          (exists e, fst r = Throw e /\ isMissingCommitMetadata e = true)
          /\ (truthy (trim m) = true -> fst r = Throw missingTypePrefix)
          /\ calls (snd r) = staged_history w)
    /\ (typeAcceptable options = false ->
        fst r = Throw (unknownCommitType (trim (str (commitType options))))
        /\ calls (snd r) = staged_history w).
Proof.
  intros env git options w st d Htty Hstatus Hdirty Hadd Hdiff Hstaged r. subst r.
  destruct (@commitIfDirty_staged env git options w st d
              Hstatus Hdirty Hadd Hdiff Hstaged) as [o Ho].
  rewrite Ho. clear Ho.
  set (w0 := {| calls := staged_history w; output := o |}).
  split; [|split].
  - intros Hm Ht.
    rewrite (commit_tail_throw env git options w0 _ (commitIntent_missing_message env options w0 Htty Hm Ht)).
    split; reflexivity.
  - intros m Hm Hp Hty.
    assert (Ht : typeAcceptable options = true).
    { unfold typeAcceptable. rewrite Hty. reflexivity. }
    destruct (truthy (trim m)) eqn:Htm.
    + rewrite (commit_tail_throw env git options w0 _
                 (commitIntent_missing_type env options w0 m Htty Hm Htm Hp Hty)).
      repeat split. exists missingTypePrefix. split; reflexivity.
    + assert (Hm0 : truthyOpt (option_map trim (commitMessage options)) = false).
      { rewrite Hm. exact Htm. }
      rewrite (commit_tail_throw env git options w0 _
                 (commitIntent_missing_message env options w0 Htty Hm0 Ht)).
      split; [|split].
      * exists missingMessage. split; reflexivity.
      * discriminate.
      * reflexivity.
  - intros Ht.
    rewrite (commit_tail_throw env git options w0 _ (commitIntent_unknown_type env options w0 Ht)).
    split; reflexivity.
Qed.

(** ** The repository inspector and the remote resolver *)

Lemma length_pos_truthy (s : string) :
  (0 <? String.length s)%nat = truthy s.
Proof. destruct s; reflexivity. Qed.

Lemma truthy_true_iff (s : string) : truthy s = true <-> s <> "".
Proof.
  destruct s; simpl; split; intros H; try reflexivity; try discriminate.
  contradiction.
Qed.

Lemma remoteBranchExists_run (git : SimpleGit) (remote br : string) (w : World) :
  remoteBranchExists git remote br w
  = (match raw git (calls w) (lsRemoteArgs remote br) with
     | Ok out => Ok (truthy (trim out))
     | Throw _ => Ok false
     end,
     {| calls := GitRaw (lsRemoteArgs remote br) :: calls w; output := output w |}).
Proof.
  unfold remoteBranchExists, tryCatch, gitRaw, bind, perform, ret, lsRemoteArgs.
  cbv beta iota. cbn [calls output].
  destruct (raw git (calls w) ["ls-remote"; "--heads"; remote; br]) as [out | e].
  - rewrite length_pos_truthy. reflexivity.
  - reflexivity.
Qed.

(** C9.  [remoteBranchExists] never throws; whenever the listing of the
    remote heads fails it answers [false]; and it answers [true] exactly
    when the listing succeeds with an output that is not empty once
    trimmed.  The listing of git is empty or has a line for a head, never
    white space alone: on such an output the answer is [true] exactly
    when the output is not empty. *)
Theorem remoteBranchExists_spec :
  forall (git : SimpleGit) (remote br : string) (w : World),
    let r := remoteBranchExists git remote br w in
    (exists b, fst r = Ok b)
    /\ (forall e, raw git (calls w) (lsRemoteArgs remote br) = Throw e -> fst r = Ok false)
    /\ (fst r = Ok true <->
        exists out, raw git (calls w) (lsRemoteArgs remote br) = Ok out /\ trim out <> "")
    /\ calls (snd r) = GitRaw (lsRemoteArgs remote br) :: calls w
    /\ (forall out,
          raw git (calls w) (lsRemoteArgs remote br) = Ok out ->
          out = "" \/ trim out <> "" ->
          (fst r = Ok true <-> out <> "")).
Proof.
  intros git remote br w r. subst r. rewrite remoteBranchExists_run. cbn [fst snd calls].
  destruct (raw git (calls w) (lsRemoteArgs remote br)) as [out | e].
  - split; [eexists; reflexivity|]. split; [discriminate|].
    split; [|split; [reflexivity|]].
    + split.
      * intros H. exists out. split; [reflexivity|]. apply truthy_true_iff. congruence.
      * intros (out' & H & Hne). inversion H; subst out'.
        apply truthy_true_iff in Hne. rewrite Hne. reflexivity.
    + intros out' H Hreal. inversion H; subst out'. destruct Hreal as [-> | Hne].
      * split; [discriminate | intros Hc; exfalso; apply Hc; reflexivity].
      * split.
        -- intros _ Hc. subst out. apply Hne. reflexivity.
        -- intros _. apply truthy_true_iff in Hne. rewrite Hne. reflexivity.
  - split; [eexists; reflexivity|]. split; [reflexivity|].
    split; [|split; [reflexivity|]].
    + split; [discriminate|]. intros (out & H & _). discriminate H.
    + intros out H. discriminate H.
Qed.

Lemma getUpstreamRef_run (git : SimpleGit) (w : World) :
  getUpstreamRef git w
  = (Ok match raw git (calls w) revParseArgs with
        | Ok out => if truthy (trim out) then Some (trim out) else None
        | Throw _ => None
        end,
     {| calls := GitRaw revParseArgs :: calls w; output := output w |}).
Proof.
  unfold getUpstreamRef, tryCatch, gitRaw, bind, perform, ret, revParseArgs.
  cbv beta iota. cbn [calls output].
  destruct (raw git (calls w)
              ["rev-parse"; "--abbrev-ref"; "--symbolic-full-name"; "@{u}"]) as [out | e].
  - cbv zeta. rewrite length_pos_truthy. reflexivity.
  - reflexivity.
Qed.

Lemma slice_prefix_truthy (s : string) (i : Z) :
  (0 < i)%Z -> s <> "" -> truthy (slice s 0 i) = true.
Proof.
  intros Hi Hs. destruct s as [|c s]; [contradiction|].
  unfold slice, relIndex.
  set (len := Z.of_nat (String.length (String c s))).
  assert (Hlen : (0 < len)%Z) by (subst len; cbn [String.length]; lia).
  replace (0 <? 0)%Z with false by reflexivity.
  destruct (i <? 0)%Z eqn:E; [apply Z.ltb_lt in E; lia|].
  replace (Z.to_nat (Z.min 0 len)) with 0%nat by lia.
  destruct (Z.to_nat (Z.min i len - Z.min 0 len)) as [|n] eqn:En; [lia|].
  reflexivity.
Qed.

Lemma getRemoteFromUpstream_truthy (u r : string) :
  getRemoteFromUpstream u = Some r -> truthy r = true.
Proof.
  unfold getRemoteFromUpstream. cbv zeta.
  destruct (indexOf "/" u 0 <=? 0)%Z eqn:E; [discriminate|].
  intros H. inversion H. apply Z.leb_gt in E.
  apply slice_prefix_truthy; [exact E|].
  intros ->. vm_compute in E. discriminate E.
Qed.

(** The selection order of [getPreferredRemote]: the remote of the
    upstream ref, else [origin], else the first remote listed, else the
    no-remote error; a failure of the listing itself is passed on. *)
Lemma getPreferredRemote_priority (git : SimpleGit) (w : World) :
  fst (getPreferredRemote git w)
  = match upstreamRemote git (calls w) with
    | Some remote => Ok remote
    | None =>
        match getRemotes git (GitRaw revParseArgs :: calls w) true with
        | Throw e => Throw e
        | Ok remotes =>
            let names := map remote_name remotes in
            if existsb (String.eqb "origin") names then Ok "origin"
            else match names with
                 | first :: _ => Ok first
                 | [] => Throw noRemoteConfigured
                 end
        end
    end.
Proof.
  unfold getPreferredRemote. unfold bind at 1. rewrite getUpstreamRef_run.
  unfold upstreamRemote. cbv zeta.
  destruct (raw git (calls w) revParseArgs) as [out | e].
  - destruct (truthy (trim out)) eqn:Et.
    + cbn [truthyOpt str]. rewrite Et.
      destruct (getRemoteFromUpstream (trim out)) as [remote |] eqn:Er.
      * cbn [truthyOpt str]. rewrite (getRemoteFromUpstream_truthy _ _ Er). reflexivity.
      * cbn [truthyOpt]. unfold gitGetRemotes, bind, perform, ret, throw. cbn [calls output].
        destruct (getRemotes git (GitRaw revParseArgs :: calls w) true) as [remotes | e'];
          [|reflexivity].
        cbv zeta. destruct (existsb (String.eqb "origin") (map remote_name remotes));
          [reflexivity|].
        destruct (map remote_name remotes); reflexivity.
    + cbn [truthyOpt]. unfold gitGetRemotes, bind, perform, ret, throw. cbn [calls output].
      destruct (getRemotes git (GitRaw revParseArgs :: calls w) true) as [remotes | e'];
        [|reflexivity].
      cbv zeta. destruct (existsb (String.eqb "origin") (map remote_name remotes));
        [reflexivity|].
      destruct (map remote_name remotes); reflexivity.
  - cbn [truthyOpt]. unfold gitGetRemotes, bind, perform, ret, throw. cbn [calls output].
    destruct (getRemotes git (GitRaw revParseArgs :: calls w) true) as [remotes | e'];
      [|reflexivity].
    cbv zeta. destruct (existsb (String.eqb "origin") (map remote_name remotes));
      [reflexivity|].
    destruct (map remote_name remotes); reflexivity.
Qed.

(** With upstream [origin/feat-x] the answer is [origin], whatever remotes
    are listed and in whatever order. *)
Lemma getPreferredRemote_upstream_origin (git : SimpleGit) (w : World) :
  raw git (calls w) revParseArgs = Ok "origin/feat-x" ->
  fst (getPreferredRemote git w) = Ok "origin".
Proof.
  intros H. rewrite getPreferredRemote_priority. unfold upstreamRemote. rewrite H.
  reflexivity.
Qed.

(** ** Conflicts of a pull or a merge *)

Lemma startsWith_append (p s : string) : startsWith p (p ++ s) = true.
Proof.
  induction p as [|c p IH]; [reflexivity|].
  change (String c p ++ s) with (String c (p ++ s)). cbn [startsWith].
  rewrite Ascii.eqb_refl. exact IH.
Qed.

Lemma startsWith_append_l (p s t : string) :
  startsWith p s = true -> startsWith p (s ++ t) = true.
Proof.
  revert s. induction p as [|c p IH]; intros s H; [reflexivity|].
  destruct s as [|a s]; [discriminate H|].
  change (String a s ++ t) with (String a (s ++ t)). cbn [startsWith] in *.
  apply andb_true_iff in H. destruct H as [H1 H2].
  rewrite H1. cbn [andb]. apply IH. exact H2.
Qed.

Lemma includes_append_l (p s t : string) :
  includes p s = true -> includes p (s ++ t) = true.
Proof.
  induction s as [|a s IH]; intros H.
  - cbn in H. rewrite orb_false_r in H.
    destruct p; [destruct t; reflexivity | discriminate H].
  - cbn [includes] in H. apply orb_true_iff in H.
    change (String a s ++ t) with (String a (s ++ t)). cbn [includes].
    apply orb_true_iff. destruct H as [H | H].
    + left. exact (startsWith_append_l p (String a s) t H).
    + right. apply IH. exact H.
Qed.

Lemma includes_append_r (p s t : string) :
  includes p t = true -> includes p (s ++ t) = true.
Proof.
  intros H. induction s as [|a s IH]; [exact H|].
  change (String a s ++ t) with (String a (s ++ t)). cbn [includes].
  rewrite IH. apply orb_true_r.
Qed.

Lemma append_empty_r (s : string) : s ++ "" = s.
Proof.
  induction s as [|a s IH]; [reflexivity|].
  change (String a s ++ "") with (String a (s ++ "")). rewrite IH. reflexivity.
Qed.

Lemma startsWith_refl (p : string) : startsWith p p = true.
Proof.
  pose proof (startsWith_append p "") as H. rewrite append_empty_r in H. exact H.
Qed.

Lemma includes_refl (p : string) : includes p p = true.
Proof.
  destruct p as [|c p]; [reflexivity|].
  cbn [includes]. rewrite startsWith_refl. reflexivity.
Qed.





(** ** The merge or pull request builder *)

Lemma commandExists_run (env : Env) (tool : string) (w : World) :
  commandExists env tool w
  = (Ok (available env (calls w) tool),
     {| calls := whichCall env tool :: calls w; output := output w |}).
Proof. reflexivity. Qed.

Lemma candidatesFor_cases (parsed : option ParsedRemote) :
  candidatesFor parsed = ["glab"; "gh"] \/ candidatesFor parsed = ["gh"; "glab"].
Proof.
  unfold candidatesFor. destruct parsed as [p|]; [|left; reflexivity].
  destruct (provider p); cbv zeta; [right | left | left]; reflexivity.
Qed.

Lemma tryCandidates_none (env : Env) (dir source target : string) (mrUrl : option string)
  (candidates : list string) :
  (forall h tool, In tool candidates -> available env h tool = false) ->
  forall w, fst (tryCandidates env dir source target mrUrl candidates w) = Ok false.
Proof.
  induction candidates as [|tool rest IH]; intros Hnone w; [reflexivity|].
  cbn [tryCandidates]. unfold bind at 1.
  rewrite commandExists_run, (Hnone (calls w) tool (or_introl eq_refl)).
  cbn [negb]. apply IH. intros h t Ht. apply Hnone. right. exact Ht.
Qed.

Lemma includes_hint_link (u : string) :
  truthy u = true ->
  hint (Some u) = hint None ++ nl ++ "manual link: " ++ u
  /\ embedsManualLink (hint (Some u)) = true.
Proof.
  intros Hu.
  assert (E : hint (Some u) = hint None ++ nl ++ "manual link: " ++ u).
  { unfold hint. cbn [truthyOpt str]. rewrite Hu. reflexivity. }
  split; [exact E|]. rewrite E. unfold embedsManualLink.
  apply includes_append_r, includes_append_r, includes_append_l, includes_refl.
Qed.

Lemma hint_none_no_link : embedsManualLink (hint None) = false.
Proof. vm_compute. reflexivity. Qed.

Lemma buildCreateMrUrl_known (p : ParsedRemote) (source target : string) :
  provider p <> unknown ->
  exists u, buildCreateMrUrl p source target = Some u /\ truthy u = true.
Proof.
  intros H. unfold buildCreateMrUrl. cbv zeta.
  destruct (provider p); [| |contradiction]; eexists; split; reflexivity.
Qed.

Lemma buildCreateMrUrl_unknown (p : ParsedRemote) (source target : string) :
  provider p = unknown -> buildCreateMrUrl p source target = None.
Proof. intros H. unfold buildCreateMrUrl. rewrite H. reflexivity. Qed.

(** C6, as the code has it.  When neither tool is on the path,
    [createMergeRequest] throws the hint; the hint carries the line of the
    manual link exactly when the remote was parsed and its provider is
    GitHub or GitLab, and then the link is the URL built from the parsed
    remote; when parsing failed, or the provider is unknown, the hint has
    no such line. *)
Theorem createMergeRequest_no_tool :
  forall (env : Env) (options : MergeRequestOptions) (w : World),
    (forall h tool, tool = "glab" \/ tool = "gh" -> available env h tool = false) ->
    let r := createMergeRequest env options w in
    fst r = Throw (hint (mrUrlFor options))
    /\ (embedsManualLink (hint (mrUrlFor options)) = true <->
        exists p, parsedRemote options = Some p /\ provider p <> unknown)
    /\ (forall p u,
          parsedRemote options = Some p ->
          buildCreateMrUrl p (sourceBranch options) (targetBranch options) = Some u ->
          hint (mrUrlFor options) = hint None ++ nl ++ "manual link: " ++ u)
    /\ (parsedRemote options = None -> hint (mrUrlFor options) = hint None).
Proof.
  intros env options w Hnone r. subst r.
  split; [|split; [|split]].
  - unfold createMergeRequest. cbv zeta. unfold bind.
    assert (Hnone' : forall h tool, In tool (candidatesFor (parsedRemote options)) ->
                                    available env h tool = false).
    { intros h tool Hin. apply Hnone.
      destruct (candidatesFor_cases (parsedRemote options)) as [E | E];
        rewrite E in Hin; cbn [In] in Hin; intuition auto. }
    pose proof (tryCandidates_none env (mr_cwd options) (sourceBranch options)
                  (targetBranch options) (mrUrlFor options)
                  (candidatesFor (parsedRemote options)) Hnone' w) as H.
    destruct (tryCandidates env (mr_cwd options) (sourceBranch options)
                (targetBranch options) (mrUrlFor options)
                (candidatesFor (parsedRemote options)) w) as [res w'].
    cbn [fst] in H. rewrite H. reflexivity.
  - unfold mrUrlFor. destruct (parsedRemote options) as [p|].
    + destruct (provider p) eqn:Ep.
      * destruct (buildCreateMrUrl_known p (sourceBranch options) (targetBranch options))
          as (u & Hu & Ht); [congruence|].
        rewrite Hu. split.
        -- intros _. exists p. split; [reflexivity | congruence].
        -- intros _. apply (includes_hint_link u Ht).
      * destruct (buildCreateMrUrl_known p (sourceBranch options) (targetBranch options))
          as (u & Hu & Ht); [congruence|].
        rewrite Hu. split.
        -- intros _. exists p. split; [reflexivity | congruence].
        -- intros _. apply (includes_hint_link u Ht).
      * rewrite (buildCreateMrUrl_unknown p _ _ Ep). rewrite hint_none_no_link. split.
        -- discriminate.
        -- intros (p' & Hp' & Hne). inversion Hp'; subst p'. contradiction.
    + rewrite hint_none_no_link. split; [discriminate|].
      intros (p & Hp & _). discriminate Hp.
  - intros p u Hp Hu. unfold mrUrlFor. rewrite Hp, Hu.
    apply includes_hint_link.
    destruct (provider p) eqn:Ep.
    + destruct (buildCreateMrUrl_known p (sourceBranch options) (targetBranch options))
        as (u' & Hu' & Ht); congruence.
    + destruct (buildCreateMrUrl_known p (sourceBranch options) (targetBranch options))
        as (u' & Hu' & Ht); congruence.
    + rewrite (buildCreateMrUrl_unknown p _ _ Ep) in Hu. discriminate Hu.
  - intros Hp. unfold mrUrlFor. rewrite Hp. reflexivity.
Qed.

(** One turn of the loop on a tool that is on the path and whose create
    command fails. *)
Lemma tryCandidates_failure (env : Env) (dir source target : string)
  (mrUrl : option string) (tool : string) (rest : list string) (w : World) :
  tool = "glab" \/ tool = "gh" ->
  available env (calls w) tool = true ->
  let r := spawnCapture env (whichCall env tool :: calls w) tool
             (createArgs tool source target) dir in
  code r <> 0%Z ->
  tryCandidates env dir source target mrUrl (tool :: rest) w
  = (Throw (toolFailure tool r),
     {| calls := Spawn tool (createArgs tool source target) dir
                 :: whichCall env tool :: calls w;
        output := output w |}).
Proof.
  intros Htool Hav r Hcode. apply Z.eqb_neq in Hcode. subst r.
  cbn [tryCandidates]. unfold bind at 1. rewrite commandExists_run, Hav. cbn [negb].
  destruct Htool as [-> | ->].
  - change (String.eqb "glab" "glab") with true in *. cbv iota.
    unfold createArgs in *. change (String.eqb "glab" "glab") with true in *.
    cbv iota in Hcode. unfold toolFailure. change (String.eqb "glab" "glab") with true.
    cbv iota. unfold bind at 1, runCommandCapture, perform at 1. cbn [calls output].
    rewrite Hcode. reflexivity.
  - change (String.eqb "gh" "glab") with false in *.
    change (String.eqb "gh" "gh") with true in *. cbv iota.
    unfold createArgs in *. change (String.eqb "gh" "glab") with false in *.
    cbv iota in Hcode. unfold toolFailure. change (String.eqb "gh" "glab") with false.
    cbv iota. unfold bind at 1, runCommandCapture, perform at 1. cbn [calls output].
    rewrite Hcode. reflexivity.
Qed.

Lemma startsWith_empty_inv (p : string) : startsWith p "" = true -> p = "".
Proof. destruct p; [reflexivity | discriminate]. Qed.

Lemma includes_empty (s : string) : includes "" s = true.
Proof. destruct s; reflexivity. Qed.

Lemma includes_empty_inv (p : string) : includes p "" = true -> p = "".
Proof.
  cbn [includes]. rewrite orb_false_r. apply startsWith_empty_inv.
Qed.

Lemma includes_trimStart (p s : string) :
  includes p (trimStart s) = true -> includes p s = true.
Proof.
  induction s as [|c s IH]; [exact (fun H => H)|].
  cbn [trimStart]. destruct (isWhiteSpace c); [|exact (fun H => H)].
  intros H. cbn [includes]. rewrite (IH H). apply orb_true_r.
Qed.

Lemma startsWith_trimEnd (p s : string) :
  startsWith p (trimEnd s) = true -> startsWith p s = true.
Proof.
  revert p. induction s as [|c s IH]; intros p; [exact (fun H => H)|].
  cbn [trimEnd]. cbv zeta.
  destruct (isWhiteSpace c && isEmpty (trimEnd s)).
  - intros H. apply startsWith_empty_inv in H. subst p. reflexivity.
  - destruct p as [|a p]; [reflexivity|]. cbn [startsWith].
    intros H. apply andb_true_iff in H. destruct H as [H1 H2].
    rewrite H1, (IH p H2). reflexivity.
Qed.

Lemma includes_trimEnd (p s : string) :
  includes p (trimEnd s) = true -> includes p s = true.
Proof.
  induction s as [|c s IH]; [exact (fun H => H)|].
  intros H.
  assert (Hs := startsWith_trimEnd p (String c s)).
  cbn [trimEnd] in H, Hs. cbv zeta in H, Hs.
  destruct (isWhiteSpace c && isEmpty (trimEnd s)).
  - apply includes_empty_inv in H. subst p. reflexivity.
  - cbn [includes] in H |- *. apply orb_true_iff in H. apply orb_true_iff.
    destruct H as [H | H]; [left; exact (Hs H) | right; exact (IH H)].
Qed.

Lemma includes_trim (p s : string) :
  includes p (trim s) = true -> includes p s = true.
Proof.
  unfold trim. intros H. apply includes_trimStart, includes_trimEnd. exact H.
Qed.

(** The fixed texts of the two failures hold no manual-link line. *)
Lemma includes_link_after_fixed (tool out : string) :
  tool = "glab" \/ tool = "gh" ->
  includes "manual link: "
    ((if String.eqb tool "glab" then "failed to create merge request via glab."
      else "failed to create pull request via gh.") ++ nl ++ out)
  = includes "manual link: " out.
Proof.
  intros [-> | ->].
  - change (String.eqb "glab" "glab") with true. cbv iota.
    cbv [String.append nl ascii_of_nat ascii_of_pos]. cbv beta iota.
    cbn [includes startsWith Ascii.eqb Bool.eqb andb orb]. reflexivity.
  - change (String.eqb "gh" "glab") with false. cbv iota.
    cbv [String.append nl ascii_of_nat ascii_of_pos]. cbv beta iota.
    cbn [includes startsWith Ascii.eqb Bool.eqb andb orb]. reflexivity.
Qed.

(** One turn of the loop on a tool that is not on the path. *)
Lemma tryCandidates_skip (env : Env) (dir source target : string)
  (mrUrl : option string) (tool : string) (rest : list string) (w : World) :
  available env (calls w) tool = false ->
  tryCandidates env dir source target mrUrl (tool :: rest) w
  = tryCandidates env dir source target mrUrl rest
      {| calls := whichCall env tool :: calls w; output := output w |}.
Proof.
  intros Hno. cbn [tryCandidates]. unfold bind at 1.
  rewrite commandExists_run, Hno. reflexivity.
Qed.

(** C10.  The candidates are tried in order and only presence on the path
    decides which one runs: the first one found is invoked; when its
    create command exits with a code other than zero, the run throws the
    failure of that tool at once.  No further call is made (the other tool
    is neither looked up nor run), and the error is the fixed text and the
    output of the tool: a manual-link line can only be in it if the tool
    itself printed one. *)
Theorem createMergeRequest_tool_failure :
  forall (env : Env) (options : MergeRequestOptions) (w : World)
         (first second : string),
    candidatesFor (parsedRemote options) = [first; second] ->
    let source := sourceBranch options in
    let target := targetBranch options in
    let dir := mr_cwd options in
    let r := createMergeRequest env options w in
    (available env (calls w) first = true ->
     let c := spawnCapture env (whichCall env first :: calls w) first
                (createArgs first source target) dir in
     code c <> 0%Z ->
     fst r = Throw (toolFailure first c)
     /\ calls (snd r)
        = Spawn first (createArgs first source target) dir
          :: whichCall env first :: calls w)
    /\ (available env (calls w) first = false ->
        available env (whichCall env first :: calls w) second = true ->
        let c := spawnCapture env
                   (whichCall env second :: whichCall env first :: calls w) second
                   (createArgs second source target) dir in
        code c <> 0%Z ->
        fst r = Throw (toolFailure second c)
        /\ calls (snd r)
           = Spawn second (createArgs second source target) dir
             :: whichCall env second :: whichCall env first :: calls w)
    /\ (forall (tool : string) (c : Captured),
          tool = first \/ tool = second ->
          embedsManualLink (toolFailure tool c) = true ->
          embedsManualLink (orElse (stderr c) (orElse (stdout c) "")) = true).
Proof.
  intros env options w first second Hc source target dir r.
  assert (Htools : (first = "glab" \/ first = "gh") /\ (second = "glab" \/ second = "gh")).
  { destruct (candidatesFor_cases (parsedRemote options)) as [E | E];
      rewrite E in Hc; inversion Hc; subst; split; auto. }
  destruct Htools as [Hfirst Hsecond].
  subst r. unfold createMergeRequest. cbv zeta. rewrite Hc.
  fold source target dir.
  split; [|split].
  - intros Hav Hcode. unfold bind.
    rewrite (tryCandidates_failure env dir source target (mrUrlFor options)
               first [second] w Hfirst Hav Hcode).
    split; reflexivity.
  - intros Hno Hav Hcode. unfold bind.
    rewrite (tryCandidates_skip env dir source target (mrUrlFor options)
               first [second] w Hno).
    rewrite (tryCandidates_failure env dir source target (mrUrlFor options)
               second [] {| calls := whichCall env first :: calls w; output := output w |}
               Hsecond Hav Hcode).
    split; reflexivity.
  - intros tool c Htool H.
    assert (Ht : tool = "glab" \/ tool = "gh") by (destruct Htool; subst; assumption).
    unfold embedsManualLink, toolFailure in *.
    apply includes_trim in H. rewrite (includes_link_after_fixed tool _ Ht) in H.
    exact H.
Qed.

(** ** Parsing the URL of the remote *)

(** C5.  [parseRemoteUrl] on the scp-style GitHub address and on the https
    GitLab address of the specification (given what [new URL] answers for the
    latter), and its two ways to [null]: an address that is neither
    scp-style nor starts with [ssh://], [http://] or [https://]; and a
    path with fewer than two segments. *)
Theorem parseRemoteUrl_spec :
  forall URL : string -> option URLRecord,
    parseRemoteUrl URL "git@github.com:acme/widget.git"
    = Some {| host := "github.com"; ownerPath := "acme"; repo := "widget";
              provider := github |}
    /\ (URL "https://gitlab.example.com/group/sub/project.git"
        = Some {| url_host := "gitlab.example.com";
                  url_pathname := "/group/sub/project.git" |} ->
        parseRemoteUrl URL "https://gitlab.example.com/group/sub/project.git"
        = Some {| host := "gitlab.example.com"; ownerPath := "group/sub";
                  repo := "project"; provider := gitlab |})
    /\ (forall s : string,
          isScpStyle (trim s) = false ->
          hasUrlScheme (trim s) = false ->
          parseRemoteUrl URL s = None)
    /\ (forall s h p : string,
          hostAndPath URL (trim s) = Some (h, p) ->
          (List.length (pathSegments p) < 2)%nat ->
          parseRemoteUrl URL s = None).
Proof.
  intros URL. split; [|split; [|split]].
  - vm_compute. reflexivity.
  - intros H. unfold parseRemoteUrl, hostAndPath.
    replace (trim "https://gitlab.example.com/group/sub/project.git")
      with "https://gitlab.example.com/group/sub/project.git" by (vm_compute; reflexivity).
    replace (isScpStyle "https://gitlab.example.com/group/sub/project.git")
      with false by (vm_compute; reflexivity).
    replace (hasUrlScheme "https://gitlab.example.com/group/sub/project.git")
      with true by (vm_compute; reflexivity).
    rewrite H. vm_compute. reflexivity.
  - intros s Hscp Hscheme. unfold parseRemoteUrl, hostAndPath. cbv zeta.
    rewrite Hscp, Hscheme. destruct (isEmpty (trim s)); reflexivity.
  - intros s h p Hhp Hlen. unfold parseRemoteUrl. cbv zeta. rewrite Hhp.
    apply Nat.ltb_lt in Hlen. rewrite Hlen.
    destruct (isEmpty (trim s)); [reflexivity|].
    destruct (isEmpty h || isEmpty p); reflexivity.
Qed.

(** ** Concrete runs *)

(** C3, where the code departs from it.  In a repository with no remote
    at all, on a branch whose upstream is the local branch [feat/base],
    [getPreferredRemote] does not throw the no-remote error: it answers
    [feat], which is not a remote. *)
Theorem getPreferredRemote_no_remote_local_upstream :
  getRemotes (Scripted.git localUpstream) [GitRaw revParseArgs] true = Ok []
  /\ raw (Scripted.git localUpstream) [] revParseArgs = Ok "feat/base"
  /\ fst (getPreferredRemote (Scripted.git localUpstream) start) = Ok "feat".
Proof. repeat split. Qed.

(** *** C1 *)

Lemma commitIfDirty_prefixed_message_witness :
  hasConventionalPrefix " feat: x" = true
  /\ calls (snd (commitIfDirty (env base) (git base) prefixedUntrimmed start))
     = GitCommit "feat: x" :: staged_history start
  /\ fst (commitIfDirty (env base) (git base) prefixedUnknownType start)
     = Throw (unknownCommitType "bogus").
Proof.
  split; [vm_compute; reflexivity|]. split.
  - refine (proj2 (proj1 (proj2 (commitIfDirty_prefixed_message (env base) (git base)
                                   prefixedUntrimmed start " feat: x" eq_refl _)
                            {| files := changed base; conflicted := [] |} "a.txt"
                            eq_refl _ eq_refl eq_refl _) _)).
    + vm_compute; reflexivity.
    + discriminate.
    + vm_compute; discriminate.
    + vm_compute; reflexivity.
  - refine (proj1 (proj2 (proj2 (commitIfDirty_prefixed_message (env base) (git base)
                                   prefixedUnknownType start "feat: x" eq_refl _)
                            {| files := changed base; conflicted := [] |} "a.txt"
                            eq_refl _ eq_refl eq_refl _) _)).
    + vm_compute; reflexivity.
    + discriminate.
    + vm_compute; discriminate.
    + vm_compute; reflexivity.
Defined.

(** The specification has the supplied message committed unchanged,
    whatever [--type] is.  The message [" feat: x"] matches the pattern after
    trimming and is committed as ["feat: x"]; and with the unknown type
    [bogus] the prefixed message ["feat: x"] is not committed at all. *)
Lemma commitIfDirty_prefixed_not_verbatim :
  hasConventionalPrefix " feat: x" = true
  /\ committedMessages
       (calls (snd (commitIfDirty (env base) (git base) prefixedUntrimmed start)))
     = ["feat: x"]
  /\ "feat: x" <> " feat: x"
  /\ hasConventionalPrefix "feat: x" = true
  /\ fst (commitIfDirty (env base) (git base) prefixedUnknownType start)
     = Throw (unknownCommitType "bogus")
  /\ committedMessages
       (calls (snd (commitIfDirty (env base) (git base) prefixedUnknownType start)))
     = [].
Proof.
  repeat split; try (vm_compute; reflexivity). discriminate.
Qed.

(** *** C4 *)

Lemma toMain_on_target_branch_witness :
  fst (toMain (env onMain) toMainDefaults start) = Throw (invalidSourceBranch "main").
Proof.
  refine (proj1 (toMain_on_target_branch (env onMain) toMainDefaults start
                   {| current := "main"; all := ["main"] |}
                   eq_refl eq_refl eq_refl _ eq_refl)).
  discriminate.
Defined.

(** *** C5 *)

Lemma parseRemoteUrl_spec_witness :
  parseRemoteUrl url "https://gitlab.example.com/group/sub/project.git"
  = Some {| host := "gitlab.example.com"; ownerPath := "group/sub";
            repo := "project"; provider := gitlab |}
  /\ parseRemoteUrl url "ftp://example.org/acme/widget.git" = None
  /\ parseRemoteUrl url "git@github.com:widget.git" = None.
Proof.
  destruct (parseRemoteUrl_spec url) as (_ & Hgitlab & Hother & Hshort).
  split; [|split].
  - apply Hgitlab. reflexivity.
  - apply Hother; vm_compute; reflexivity.
  - apply (Hshort "git@github.com:widget.git" "github.com" "widget.git").
    + vm_compute; reflexivity.
    + vm_compute. apply le_n.
Defined.

(** *** C6 *)

Lemma createMergeRequest_no_tool_witness :
  fst (createMergeRequest (env base) unparsed start) = Throw (hint None).
Proof.
  refine (proj1 (createMergeRequest_no_tool (env base) unparsed start _)).
  intros h tool _. reflexivity.
Defined.

(** The specification has the manual link in the message whenever the
    remote was parsed.  The address [git@bitbucket.org:acme/widget.git] is parsed, its
    provider is unknown, and the message has no manual link. *)
Lemma createMergeRequest_parsed_without_link :
  parseRemoteUrl url "git@bitbucket.org:acme/widget.git" = Some bitbucket
  /\ available (env base) [] "glab" = false
  /\ available (env base) [whichCall (env base) "glab"] "gh" = false
  /\ fst (createMergeRequest (env base) toBitbucket start) = Throw (hint None)
  /\ embedsManualLink (hint None) = false.
Proof.
  repeat split; vm_compute; reflexivity.
Qed.

(** *** C7 *)

Lemma commitIfDirty_non_interactive_witness :
  fst (commitIfDirty (env base) (git base) noOptions start) = Throw missingMessage
  /\ calls (snd (commitIfDirty (env base) (git base) noOptions start))
     = staged_history start.
Proof.
  refine (proj1 (commitIfDirty_non_interactive (env base) (git base) noOptions start
                   {| files := changed base; conflicted := [] |} "a.txt"
                   eq_refl eq_refl _ eq_refl eq_refl _) eq_refl eq_refl).
  - discriminate.
  - vm_compute; discriminate.
Defined.

(** The specification has the missing-commit-metadata error whenever no
    message is supplied.  With [--type bogus] and no message the error is the
    unknown-commit-type one. *)
Lemma commitIfDirty_unknown_type_first :
  stdinIsTTY (env base) = false
  /\ commitMessage unknownTypeOnly = None
  /\ fst (commitIfDirty (env base) (git base) unknownTypeOnly start)
     = Throw (unknownCommitType "bogus")
  /\ isMissingCommitMetadata (unknownCommitType "bogus") = false.
Proof.
  repeat split; vm_compute; reflexivity.
Qed.

(** *** C8 *)


(** *** C9 *)

Lemma remoteBranchExists_spec_witness :
  fst (remoteBranchExists (git pullConflict) "origin" "feat-x" start) = Ok false
  /\ fst (remoteBranchExists (git onRemote) "origin" "feat-x" start) = Ok true.
Proof.
  split.
  - destruct (remoteBranchExists_spec (git pullConflict) "origin" "feat-x" start)
      as (_ & _ & Hiff & _).
    destruct (fst (remoteBranchExists (git pullConflict) "origin" "feat-x" start))
      as [[|] | e] eqn:E; [|reflexivity|discriminate E].
    destruct (proj1 Hiff eq_refl) as (out & Hout & Hne).
    vm_compute in Hout. inversion Hout; subst out. exfalso. apply Hne. reflexivity.
  - destruct (remoteBranchExists_spec (git onRemote) "origin" "feat-x" start)
      as (_ & _ & _ & _ & Hreal).
    refine (proj2 (Hreal _ eq_refl _) _).
    + right. vm_compute. discriminate.
    + vm_compute. discriminate.
Defined.

(** *** C10 *)

Lemma createMergeRequest_tool_failure_witness :
  fst (createMergeRequest (env onlyGhFails) unparsed start)
  = Throw "failed to create pull request via gh.
not logged in"
  /\ calls (snd (createMergeRequest (env onlyGhFails) unparsed start))
     = [Spawn "gh" (createArgs "gh" "feat-x" "main") "/work";
        Spawn "which" ["gh"] "/work"; Spawn "which" ["glab"] "/work"].
Proof.
  refine (proj1 (proj2 (createMergeRequest_tool_failure (env onlyGhFails) unparsed start
                          "glab" "gh" eq_refl)) eq_refl eq_refl _).
  vm_compute; discriminate.
Defined.

(** * Further properties *)

(** ** Strings *)

Lemma append_assoc (a b c : string) : (a ++ b) ++ c = a ++ (b ++ c).
Proof.
  induction a as [|x a IH]; [reflexivity|].
  change (String x a ++ b) with (String x (a ++ b)).
  change (String x (a ++ b) ++ c) with (String x ((a ++ b) ++ c)).
  change (String x a ++ (b ++ c)) with (String x (a ++ (b ++ c))).
  rewrite IH. reflexivity.
Qed.

Lemma append_cons (x : ascii) (a b : string) : String x a ++ b = String x (a ++ b).
Proof. reflexivity. Qed.

Lemma append_nil_l (b : string) : "" ++ b = b.
Proof. reflexivity. Qed.

(** Appends with the same characters are equal. *)
Ltac str_norm :=
  repeat (rewrite append_assoc || rewrite append_cons || rewrite append_nil_l);
  try reflexivity.

Lemma length_append (a b : string) :
  String.length (a ++ b) = (String.length a + String.length b)%nat.
Proof.
  induction a as [|x a IH]; [reflexivity|].
  rewrite append_cons. cbn [String.length]. rewrite IH. reflexivity.
Qed.

Lemma drop_append (a b : string) : drop (String.length a) (a ++ b) = b.
Proof.
  induction a as [|x a IH]; [reflexivity|].
  rewrite append_cons. cbn [String.length drop]. exact IH.
Qed.

Lemma take_append (a b : string) : take (String.length a) (a ++ b) = a.
Proof.
  induction a as [|x a IH]; [reflexivity|].
  rewrite append_cons. cbn [String.length take]. rewrite IH. reflexivity.
Qed.

Lemma drop_0 (s : string) : drop 0 s = s.
Proof. destruct s; reflexivity. Qed.

Lemma truthy_append_l (a b : string) : truthy a = true -> truthy (a ++ b) = true.
Proof. destruct a; [discriminate | reflexivity]. Qed.

Lemma includes_char (x : ascii) (s : string) :
  includes (String x "") s = negb (lacks x s).
Proof.
  induction s as [|c s IH]; [reflexivity|].
  cbn [includes startsWith]. unfold lacks in *. cbn [allChars].
  rewrite IH. destruct (Ascii.eqb x c); reflexivity.
Qed.

Lemma lacks_iff (x : ascii) (s : string) :
  lacks x s = true <-> includes (String x "") s = false.
Proof.
  rewrite includes_char. destruct (lacks x s); split; intros H;
    try reflexivity; discriminate H.
Qed.

Lemma allChars_append (p : ascii -> bool) (a b : string) :
  allChars p (a ++ b) = allChars p a && allChars p b.
Proof.
  induction a as [|x a IH]; [reflexivity|].
  rewrite append_cons. cbn [allChars]. rewrite IH. apply andb_assoc.
Qed.

Lemma allChars_weaken (p q : ascii -> bool) (s : string) :
  (forall c, p c = true -> q c = true) -> allChars p s = true -> allChars q s = true.
Proof.
  intros Hpq. induction s as [|c s IH]; [reflexivity|].
  cbn [allChars]. intros H. apply andb_true_iff in H. destruct H as [H1 H2].
  rewrite (Hpq c H1), (IH H2). reflexivity.
Qed.

(** Where [indexOfFrom] stops on a needle of one character. *)
Lemma indexOfFrom_char (x : ascii) (s : string) (i : Z) :
  (lacks x s = true /\ indexOfFrom (String x "") s i = (-1)%Z)
  \/ exists a b,
       s = a ++ String x b /\ lacks x a = true
       /\ indexOfFrom (String x "") s i = (i + Z.of_nat (String.length a))%Z.
Proof.
  revert i. induction s as [|c s IH]; intros i.
  - left. split; reflexivity.
  - cbn [indexOfFrom startsWith]. unfold lacks. cbn [allChars].
    destruct (Ascii.eqb x c) eqn:E.
    + right. exists "", s. apply Ascii.eqb_eq in E. subst c.
      cbn [andb]. split; [reflexivity|]. split; [reflexivity|]. cbn. lia.
    + cbn [andb negb]. destruct (IH (i + 1)%Z) as [[H1 H2] | (a & b & Hs & Ha & Hi)].
      * left. split; [exact H1 | exact H2].
      * right. exists (String c a), b. subst s. split; [reflexivity|].
        split.
        -- unfold lacks. cbn [allChars]. rewrite E. exact Ha.
        -- rewrite Hi. cbn [String.length]. lia.
Qed.

Lemma indexOfFrom_append (x : ascii) (a b : string) (i : Z) :
  lacks x a = true ->
  indexOfFrom (String x "") (a ++ String x b) i = (i + Z.of_nat (String.length a))%Z.
Proof.
  revert i. induction a as [|c a IH]; intros i Ha.
  - change ("" ++ String x b) with (String x b). cbn [indexOfFrom startsWith].
    rewrite Ascii.eqb_refl. cbn. lia.
  - rewrite append_cons. cbn [indexOfFrom startsWith].
    unfold lacks in Ha. cbn [allChars] in Ha. apply andb_true_iff in Ha.
    destruct Ha as [Hc Ha]. apply negb_true_iff in Hc. rewrite Hc. cbn [andb].
    rewrite (IH (i + 1)%Z Ha). cbn [String.length]. lia.
Qed.

Lemma indexOf_0 (sub s : string) : indexOf sub s 0 = indexOfFrom sub s 0.
Proof.
  unfold indexOf. cbv zeta.
  replace (Z.min (Z.max 0 0) (Z.of_nat (String.length s))) with 0%Z by lia.
  reflexivity.
Qed.

Lemma slice_0_prefix (a b : string) :
  slice (a ++ b) 0 (Z.of_nat (String.length a)) = a.
Proof.
  unfold slice, relIndex. cbv zeta. rewrite length_append.
  replace (0 <? 0)%Z with false by reflexivity.
  replace (Z.of_nat (String.length a) <? 0)%Z with false by (symmetry; apply Z.ltb_ge; lia).
  replace (Z.min 0 (Z.of_nat (String.length a + String.length b))) with 0%Z by lia.
  replace (Z.min (Z.of_nat (String.length a))
             (Z.of_nat (String.length a + String.length b)))
    with (Z.of_nat (String.length a)) by lia.
  rewrite Z.sub_0_r, Nat2Z.id. cbn [Z.to_nat]. rewrite drop_0. apply take_append.
Qed.

(** ** The remote of an upstream ref *)

(** X1.  [getRemoteFromUpstream] gives back the remote of [remote/branch]
    for every non-empty remote name without a slash; what it returns is
    never empty, has no slash, and is the text before the first slash of
    the ref; and it returns [null] exactly for a ref without a slash or
    with a leading slash. *)
Theorem getRemoteFromUpstream_round_trip :
  (forall remote br : string,
      truthy remote = true ->
      includes "/" remote = false ->
      getRemoteFromUpstream (remote ++ "/" ++ br) = Some remote)
  /\ (forall u r : string,
        getRemoteFromUpstream u = Some r ->
        truthy r = true /\ includes "/" r = false
        /\ exists rest, u = r ++ "/" ++ rest)
  /\ (forall u : string,
        getRemoteFromUpstream u = None <->
        includes "/" u = false \/ startsWith "/" u = true).
Proof.
  split; [|split].
  - intros remote br Ht Hs. apply lacks_iff in Hs.
    unfold getRemoteFromUpstream. cbv zeta. rewrite indexOf_0.
    change ("/" ++ br) with (String "/" br).
    rewrite (indexOfFrom_append "/" remote br 0 Hs).
    destruct remote as [|c remote]; [discriminate Ht|].
    destruct (0 + Z.of_nat (String.length (String c remote)) <=? 0)%Z eqn:E.
    { apply Z.leb_le in E. cbn [String.length] in E. lia. }
    rewrite Z.add_0_l. rewrite slice_0_prefix. reflexivity.
  - intros u r H. unfold getRemoteFromUpstream in H. cbv zeta in H.
    rewrite indexOf_0 in H.
    destruct (indexOfFrom_char "/" u 0) as [[_ Hi] | (a & b & Hu & Ha & Hi)];
      rewrite Hi in H.
    + discriminate H.
    + destruct (0 + Z.of_nat (String.length a) <=? 0)%Z eqn:E; [discriminate H|].
      apply Z.leb_gt in E. rewrite Z.add_0_l in H. subst u.
      rewrite slice_0_prefix in H. inversion H; subst r.
      split; [destruct a; [cbn in E; lia | reflexivity]|].
      split; [apply lacks_iff; exact Ha|].
      exists b. reflexivity.
  - intros u. unfold getRemoteFromUpstream. cbv zeta. rewrite indexOf_0.
    destruct (indexOfFrom_char "/" u 0) as [[Hl Hi] | (a & b & Hu & Ha & Hi)];
      rewrite Hi.
    + split; [|reflexivity]. intros _. left. apply lacks_iff. exact Hl.
    + subst u. destruct a as [|c a].
      * split; [|reflexivity]. intros _. right. reflexivity.
      * destruct (0 + Z.of_nat (String.length (String c a)) <=? 0)%Z eqn:E.
        { apply Z.leb_le in E. cbn [String.length] in E. lia. }
        split; [discriminate|]. intros [H | H].
        -- apply lacks_iff in H. unfold lacks in H. rewrite allChars_append in H.
           apply andb_true_iff in H. destruct H as [_ H]. cbn [allChars] in H.
           rewrite Ascii.eqb_refl in H. discriminate H.
        -- rewrite append_cons in H. cbn [startsWith] in H.
           unfold lacks in Ha. cbn [allChars] in Ha. apply andb_true_iff in Ha.
           destruct Ha as [Hc _]. apply negb_true_iff in Hc. rewrite Hc in H.
           discriminate H.
Qed.

Lemma getRemoteFromUpstream_round_trip_witness :
  getRemoteFromUpstream "upstream/feat/login" = Some "upstream".
Proof.
  exact (proj1 getRemoteFromUpstream_round_trip "upstream" "feat/login" eq_refl eq_refl).
Defined.

(** ** Patterns *)

Lemma fullMatch_Void (s : string) : fullMatch Void s = false.
Proof. induction s as [|c s IH]; [reflexivity | exact IH]. Qed.

Lemma fullMatch_Alt (r1 r2 : regex) (s : string) :
  fullMatch (Alt r1 r2) s = fullMatch r1 s || fullMatch r2 s.
Proof.
  revert r1 r2. induction s as [|c s IH]; intros r1 r2; [reflexivity|].
  cbn [fullMatch deriv]. apply IH.
Qed.

Lemma fullMatch_Seq_nullable (r1 r2 : regex) (b : string) :
  nullable r1 = true -> fullMatch r2 b = true -> fullMatch (Seq r1 r2) b = true.
Proof.
  intros H1 H2. destruct b as [|c b].
  - cbn [fullMatch nullable] in *. rewrite H1, H2. reflexivity.
  - cbn [fullMatch deriv] in *. rewrite H1, fullMatch_Alt, H2. apply orb_true_r.
Qed.

Lemma fullMatch_Seq (r1 r2 : regex) (a b : string) :
  fullMatch r1 a = true -> fullMatch r2 b = true ->
  fullMatch (Seq r1 r2) (a ++ b) = true.
Proof.
  revert r1. induction a as [|c a IH]; intros r1 H1 H2.
  - apply fullMatch_Seq_nullable; assumption.
  - rewrite append_cons. cbn [fullMatch deriv] in *.
    destruct (nullable r1).
    + rewrite fullMatch_Alt, (IH _ H1 H2). reflexivity.
    + exact (IH _ H1 H2).
Qed.

Lemma fullMatch_Star_class (p : ascii -> bool) (s : string) :
  allChars p s = true -> fullMatch (Star (Class p)) s = true.
Proof.
  induction s as [|c s IH]; [reflexivity|].
  cbn [allChars]. intros H. apply andb_true_iff in H. destruct H as [Hc Hs].
  cbn [fullMatch deriv]. rewrite Hc.
  apply fullMatch_Seq_nullable; [reflexivity | exact (IH Hs)].
Qed.

Lemma fullMatch_Class (p : ascii -> bool) (c : ascii) :
  p c = true -> fullMatch (Class p) (String c "") = true.
Proof. intros H. cbn [fullMatch deriv]. rewrite H. reflexivity. Qed.

Lemma fullMatch_Plus_class (p : ascii -> bool) (s : string) :
  truthy s = true -> allChars p s = true -> fullMatch (Plus (Class p)) s = true.
Proof.
  destruct s as [|c s]; [discriminate|]. intros _ H.
  cbn [allChars] in H. apply andb_true_iff in H. destruct H as [Hc Hs].
  change (String c s) with (String c "" ++ s). unfold Plus.
  apply fullMatch_Seq; [apply fullMatch_Class; exact Hc|].
  apply fullMatch_Star_class. exact Hs.
Qed.

Lemma fullMatch_Chr (c : ascii) : fullMatch (Chr c) (String c "") = true.
Proof. apply fullMatch_Class. apply Ascii.eqb_refl. Qed.

Lemma fullMatch_Opt_skip (r : regex) : fullMatch (Opt r) "" = true.
Proof. cbn. apply orb_true_r. Qed.

Lemma fullMatch_Opt (r : regex) (s : string) :
  fullMatch r s = true -> fullMatch (Opt r) s = true.
Proof. intros H. unfold Opt. rewrite fullMatch_Alt, H. reflexivity. Qed.

(** A prefix that matches a pattern makes [test] succeed. *)
Lemma testAnchored_prefix (r : regex) (a b : string) :
  fullMatch r a = true -> testAnchored r (a ++ b) = true.
Proof.
  revert r. induction a as [|c a IH]; intros r H.
  - cbn [fullMatch] in H. change ("" ++ b) with b.
    destruct b; cbn [testAnchored]; rewrite H; reflexivity.
  - rewrite append_cons. cbn [testAnchored fullMatch] in *.
    rewrite (IH _ H). apply orb_true_r.
Qed.

Lemma trimEnd_append (a b : string) :
  truthy (trimEnd b) = true -> trimEnd (a ++ b) = a ++ trimEnd b.
Proof.
  intros Hb. induction a as [|c a IH]; [reflexivity|].
  rewrite !append_cons. cbn [trimEnd]. cbv zeta. rewrite IH.
  assert (H : isEmpty (a ++ trimEnd b) = false).
  { destruct a; [|reflexivity]. change ("" ++ trimEnd b) with (trimEnd b).
    unfold truthy in Hb. apply negb_true_iff in Hb. exact Hb. }
  rewrite H, andb_false_r. reflexivity.
Qed.

Lemma trimEnd_trim (m : string) : trimEnd (trim m) = trim m.
Proof. unfold trim. apply trimEnd_idempotent. Qed.

(** A string that starts with a character that is not white space and
    ends with a trimmed, non-empty string is its own trim. *)
Lemma trim_fixed (c : ascii) (a m : string) :
  isWhiteSpace c = false -> truthy (trim m) = true ->
  trim (String c a ++ trim m) = String c a ++ trim m.
Proof.
  intros Hc Hm. unfold trim at 1. rewrite append_cons. cbn [trimStart]. rewrite Hc.
  rewrite <- append_cons. rewrite trimEnd_append; rewrite trimEnd_trim; [reflexivity|exact Hm].
Qed.

(** ** The composed message *)

Lemma recognized_lower (t : string) :
  isRecognizedCommitType t = true ->
  allChars isLower t = true /\ exists c rest, t = String c rest /\ isWhiteSpace c = false.
Proof.
  unfold isRecognizedCommitType. destruct (isEmpty t); [discriminate|].
  cbn [existsb COMMIT_TYPES value]. intros H.
  repeat (apply orb_true_iff in H; destruct H as [H | H];
          [apply String.eqb_eq in H; subst t; split;
           [reflexivity | eexists; eexists; split; reflexivity] |]).
  discriminate H.
Qed.

Lemma hasConventionalPrefix_composed (t s m : string) :
  isRecognizedCommitType t = true ->
  includes ")" s = false ->
  truthy (trim m) = true ->
  hasConventionalPrefix
    (if truthy s then t ++ "(" ++ s ++ "): " ++ trim m else t ++ ": " ++ trim m) = true.
Proof.
  intros Ht Hs Hm. destruct (recognized_lower t Ht) as (Hlow & c & rest & -> & Hc).
  assert (Hplus : fullMatch (Plus (Class isLower)) (String c rest) = true).
  { apply fullMatch_Plus_class; [reflexivity | exact Hlow]. }
  assert (Htail : fullMatch (Seq (Opt (Chr "!")) (Seq (Chr ":") (Plus (Class isWhiteSpace))))
                    ": " = true) by reflexivity.
  unfold hasConventionalPrefix, conventionalPrefixPattern.
  destruct (truthy s) eqn:Es.
  - replace (String c rest ++ "(" ++ s ++ "): " ++ trim m)
      with (String c (rest ++ "(" ++ s ++ "): ") ++ trim m)
      by (rewrite <- !append_cons, !append_assoc; reflexivity).
    rewrite (trim_fixed c _ m Hc Hm).
    replace (String c (rest ++ "(" ++ s ++ "): ") ++ trim m)
      with ((String c rest ++ ("(" ++ s ++ ")") ++ ": ") ++ trim m)
      by (rewrite <- !append_cons, !append_assoc; reflexivity).
    apply testAnchored_prefix.
    apply fullMatch_Seq; [exact Hplus|].
    apply fullMatch_Seq; [|exact Htail].
    apply fullMatch_Opt.
    change ("(" ++ s ++ ")") with (String "(" "" ++ s ++ ")").
    apply fullMatch_Seq; [apply fullMatch_Chr|].
    apply fullMatch_Seq; [|apply fullMatch_Chr].
    apply fullMatch_Plus_class; [exact Es|].
    apply lacks_iff in Hs. exact Hs.
  - replace (String c rest ++ ": " ++ trim m)
      with (String c (rest ++ ": ") ++ trim m)
      by (rewrite <- !append_cons, !append_assoc; reflexivity).
    rewrite (trim_fixed c _ m Hc Hm).
    replace (String c (rest ++ ": ") ++ trim m)
      with ((String c rest ++ "" ++ ": ") ++ trim m)
      by (rewrite <- !append_cons, !append_assoc; reflexivity).
    apply testAnchored_prefix.
    apply fullMatch_Seq; [exact Hplus|].
    apply fullMatch_Seq; [apply fullMatch_Opt_skip | exact Htail].
Qed.

(** X2.  Whatever the type, the scope and the subject, the message
    [commitIfDirty] composes carries a conventional prefix, provided the
    type is a recognized one, the scope has no closing parenthesis and the
    subject is not blank; so composing again from that message, with any
    type and any scope, changes nothing. *)
Theorem finalMessage_has_prefix :
  forall (m t s : string),
    isRecognizedCommitType t = true ->
    includes ")" s = false ->
    truthy (trim m) = true ->
    hasConventionalPrefix (finalMessage m (Some t) s) = true
    /\ forall (ty : option string) (s' : string),
         finalMessage (finalMessage m (Some t) s) ty s' = finalMessage m (Some t) s.
Proof.
  intros m t s Ht Hs Hm.
  assert (H : hasConventionalPrefix (finalMessage m (Some t) s) = true).
  { unfold finalMessage. destruct (hasConventionalPrefix m) eqn:Ep; [exact Ep|].
    assert (Htt : truthy t = true) by (destruct t; [discriminate Ht | reflexivity]).
    cbn [truthyOpt str orb]. rewrite Htt. cbn [negb].
    apply (hasConventionalPrefix_composed t s m Ht Hs Hm). }
  split; [exact H|]. intros ty s'.
  unfold finalMessage at 1. rewrite H. reflexivity.
Qed.

Lemma finalMessage_has_prefix_witness :
  hasConventionalPrefix (finalMessage "add login" (Some "feat") "api") = true.
Proof.
  refine (proj1 (finalMessage_has_prefix "add login" "feat" "api" _ _ _));
    vm_compute; reflexivity.
Defined.

(** ** Splitting and joining *)

Lemma split_not_nil (sep : ascii) (s : string) : split sep s <> [].
Proof.
  destruct s as [|c s]; cbn [split]; [discriminate|].
  destruct (Ascii.eqb c sep); [discriminate|].
  destruct (split sep s); discriminate.
Qed.

Lemma split_lacks (sep : ascii) (s : string) :
  Forall (fun w => lacks sep w = true) (split sep s).
Proof.
  induction s as [|c s IH]; cbn [split].
  - constructor; [reflexivity | constructor].
  - destruct (Ascii.eqb c sep) eqn:E.
    + constructor; [reflexivity | exact IH].
    + destruct (split sep s) as [|w ws]; [constructor; [|constructor]|].
      * unfold lacks. cbn [allChars]. rewrite Ascii.eqb_sym, E. reflexivity.
      * inversion IH as [|? ? Hw Hws]; subst. constructor; [|exact Hws].
        unfold lacks in *. cbn [allChars]. rewrite Ascii.eqb_sym, E. exact Hw.
Qed.

Lemma split_single (sep : ascii) (s : string) :
  lacks sep s = true -> split sep s = [s].
Proof.
  induction s as [|c s IH]; [reflexivity|].
  unfold lacks. cbn [allChars]. intros H. apply andb_true_iff in H.
  destruct H as [Hc Hs]. apply negb_true_iff in Hc. rewrite Ascii.eqb_sym in Hc.
  cbn [split]. rewrite Hc, (IH Hs). reflexivity.
Qed.

Lemma split_append (sep : ascii) (a rest : string) :
  lacks sep a = true -> split sep (a ++ String sep rest) = a :: split sep rest.
Proof.
  induction a as [|c a IH]; intros H.
  - change ("" ++ String sep rest) with (String sep rest). cbn [split].
    rewrite Ascii.eqb_refl. reflexivity.
  - unfold lacks in H. cbn [allChars] in H. apply andb_true_iff in H.
    destruct H as [Hc Ha]. apply negb_true_iff in Hc. rewrite Ascii.eqb_sym in Hc.
    rewrite append_cons. cbn [split]. rewrite Hc, (IH Ha). reflexivity.
Qed.

Lemma split_join (sep : ascii) (l : list string) :
  l <> [] ->
  Forall (fun w => lacks sep w = true) l ->
  split sep (join (String sep "") l) = l.
Proof.
  induction l as [|x l IH]; intros Hne Hl; [contradiction|].
  inversion Hl as [|? ? Hx Hrest]; subst.
  destruct l as [|y l].
  - cbn [join]. apply split_single. exact Hx.
  - change (join (String sep "") (x :: y :: l))
      with (x ++ String sep "" ++ join (String sep "") (y :: l)).
    change (String sep "" ++ join (String sep "") (y :: l))
      with (String sep (join (String sep "") (y :: l))).
    rewrite (split_append sep x _ Hx). rewrite IH; [reflexivity | discriminate | exact Hrest].
Qed.

Lemma filterBoolean_all (l : list string) :
  Forall (fun w => truthy w = true) l -> filterBoolean l = l.
Proof.
  unfold filterBoolean. induction 1 as [|x l Hx _ IH]; [reflexivity|].
  cbn [filter]. rewrite Hx, IH. reflexivity.
Qed.

Lemma filterBoolean_Forall (P : string -> Prop) (l : list string) :
  Forall P l -> Forall (fun w => P w /\ truthy w = true) (filterBoolean l).
Proof.
  unfold filterBoolean. induction 1 as [|x l Hx _ IH]; [constructor|].
  cbn [filter]. destruct (truthy x) eqn:E; [constructor; [split; assumption | exact IH] | exact IH].
Qed.

Lemma last_In (l : list string) (d : string) : l <> [] -> In (last l d) l.
Proof.
  induction l as [|x l IH]; [contradiction|]. intros _.
  destruct l as [|y l]; [left; reflexivity|].
  right. apply IH. discriminate.
Qed.

Lemma join_truthy (sep x : string) (l : list string) :
  truthy x = true -> truthy (join sep (x :: l)) = true.
Proof.
  intros H. destruct l; [exact H|].
  change (join sep (x :: s :: l)) with (x ++ sep ++ join sep (s :: l)).
  apply truthy_append_l. exact H.
Qed.

Lemma arraySlice_init (A : Type) (l : list A) :
  arraySlice l 0 (-1) = firstn (List.length l - 1) l.
Proof.
  unfold arraySlice, relIndex. cbv zeta.
  replace (0 <? 0)%Z with false by reflexivity.
  replace (-1 <? 0)%Z with true by reflexivity.
  replace (Z.min 0 (Z.of_nat (List.length l))) with 0%Z by lia.
  rewrite Z.sub_0_r. cbn [Z.to_nat skipn].
  replace (Z.to_nat (Z.max (Z.of_nat (List.length l) + -1) 0))
    with (List.length l - 1)%nat by lia.
  reflexivity.
Qed.

(** ** What [parseRemoteUrl] returns *)

(** X3.  Whatever [parseRemoteUrl] returns: the host, the owner path and
    the repository name are not empty, the repository name has no slash,
    the provider is read off the host ([github] first), and white space
    around the address does not matter. *)
Theorem parseRemoteUrl_result :
  forall (URL : string -> option URLRecord) (s : string) (p : ParsedRemote),
    parseRemoteUrl URL s = Some p ->
    truthy (host p) = true
    /\ truthy (ownerPath p) = true
    /\ truthy (repo p) = true
    /\ includes "/" (repo p) = false
    /\ provider p = providerOf (host p)
    /\ parseRemoteUrl URL (trim s) = Some p.
Proof.
  intros URL s p H.
  assert (Htrim : parseRemoteUrl URL (trim s) = Some p).
  { unfold parseRemoteUrl in *. rewrite trim_idempotent. exact H. }
  unfold parseRemoteUrl in H. cbv zeta in H.
  destruct (isEmpty (trim s)); [discriminate H|].
  destruct (hostAndPath URL (trim s)) as [[h pa]|]; [|discriminate H].
  destruct (isEmpty h || isEmpty pa) eqn:Ehp; [discriminate H|].
  apply orb_false_iff in Ehp. destruct Ehp as [Eh _].
  destruct (List.length (pathSegments pa) <? 2)%nat eqn:Elen; [discriminate H|].
  apply Nat.ltb_ge in Elen.
  inversion H; subst p; clear H. cbn [host ownerPath repo provider].
  assert (Hparts : Forall (fun w => lacks "/" w = true /\ truthy w = true)
                     (pathSegments pa)).
  { unfold pathSegments. apply filterBoolean_Forall. apply split_lacks. }
  destruct (pathSegments pa) as [|x [|y parts]] eqn:Ep;
    [cbn in Elen; lia | cbn in Elen; lia |].
  split; [unfold truthy; rewrite Eh; reflexivity|].
  split.
  { rewrite arraySlice_init. cbn [List.length Nat.sub firstn].
    inversion Hparts as [|? ? [_ Hx] _]; subst. apply join_truthy. exact Hx. }
  assert (Hlast : In (last (x :: y :: parts) "") (x :: y :: parts))
    by (apply last_In; discriminate).
  rewrite Forall_forall in Hparts. destruct (Hparts _ Hlast) as [Hl Ht].
  split; [exact Ht|].
  split; [apply lacks_iff; exact Hl|].
  split; [reflexivity | exact Htrim].
Qed.

Lemma parseRemoteUrl_result_witness :
  truthy "acme" = true /\ includes "/" "widget" = false.
Proof.
  destruct (parseRemoteUrl_result Scripted.url " git@github.com:acme/widget.git "
              {| host := "github.com"; ownerPath := "acme"; repo := "widget";
                 provider := github |} eq_refl)
    as (_ & Ho & _ & Hr & _).
  split; [exact Ho | exact Hr].
Defined.

(** ** The scp-style address, there and back *)

Lemma endsWith_refl (p : string) : endsWith p p = true.
Proof. destruct p; cbn [endsWith]; rewrite String.eqb_refl; reflexivity. Qed.

Lemma endsWith_append (a p : string) : endsWith p (a ++ p) = true.
Proof.
  induction a as [|c a IH]; [apply endsWith_refl|].
  rewrite append_cons. cbn [endsWith]. rewrite IH. apply orb_true_r.
Qed.

Lemma stripDotGit_append (x : string) : stripDotGit (x ++ ".git") = x.
Proof.
  unfold stripDotGit. rewrite endsWith_append, length_append.
  replace (String.length x + String.length ".git" - 4)%nat with (String.length x)
    by (cbn [String.length]; lia).
  apply take_append.
Qed.

Lemma stripTrailingSlashes_lacks (r : string) :
  lacks "/" r = true -> stripTrailingSlashes r = r.
Proof.
  induction r as [|c r IH]; [reflexivity|].
  unfold lacks. cbn [allChars]. intros H. apply andb_true_iff in H.
  destruct H as [Hc Hr]. apply negb_true_iff in Hc. rewrite Ascii.eqb_sym in Hc.
  cbn [stripTrailingSlashes]. cbv zeta. rewrite Hc, (IH Hr). reflexivity.
Qed.

Lemma stripTrailingSlashes_append (a b : string) :
  truthy (stripTrailingSlashes b) = true ->
  stripTrailingSlashes (a ++ b) = a ++ stripTrailingSlashes b.
Proof.
  intros Hb. induction a as [|c a IH]; [reflexivity|].
  rewrite !append_cons. cbn [stripTrailingSlashes]. cbv zeta. rewrite IH.
  assert (H : isEmpty (a ++ stripTrailingSlashes b) = false).
  { destruct a; [|reflexivity]. change ("" ++ stripTrailingSlashes b)
      with (stripTrailingSlashes b).
    unfold truthy in Hb. apply negb_true_iff in Hb. exact Hb. }
  rewrite H, andb_false_r. reflexivity.
Qed.

Lemma isName_parts (s : string) :
  isName s = true ->
  truthy s = true /\ allChars isNameChar s = true.
Proof. unfold isName. intros H. apply andb_true_iff in H. exact H. Qed.

Lemma isNameChar_parts (c : ascii) :
  isNameChar c = true ->
  isWhiteSpace c = false /\ Ascii.eqb "@" c = false /\ Ascii.eqb ":" c = false
  /\ Ascii.eqb "/" c = false.
Proof.
  unfold isNameChar. intros H.
  apply andb_true_iff in H. destruct H as [H H4].
  apply andb_true_iff in H. destruct H as [H H3].
  apply andb_true_iff in H. destruct H as [H1 H2].
  apply negb_true_iff in H1, H2, H3, H4.
  rewrite (Ascii.eqb_sym "@"), (Ascii.eqb_sym ":"), (Ascii.eqb_sym "/").
  repeat split; assumption.
Qed.

Lemma isName_lacks (x : ascii) (s : string) :
  x = "@"%char \/ x = ":"%char \/ x = "/"%char ->
  isName s = true -> lacks x s = true.
Proof.
  intros Hx H. apply isName_parts in H. destruct H as [_ H].
  unfold lacks. apply (allChars_weaken isNameChar); [|exact H].
  intros c Hc. apply isNameChar_parts in Hc. destruct Hc as (_ & H1 & H2 & H3).
  destruct Hx as [-> | [-> | ->]]; apply negb_true_iff; assumption.
Qed.

Lemma isWhiteSpace_lineTerminator (c : ascii) :
  isWhiteSpace c = false -> isLineTerminator c = false.
Proof.
  unfold isWhiteSpace, isLineTerminator. cbv zeta. intros H.
  repeat (apply orb_false_iff in H; destruct H as [H ?]).
  apply orb_false_iff. split; assumption.
Qed.

Lemma isName_head (s : string) :
  isName s = true ->
  exists c rest, s = String c rest /\ isNameChar c = true.
Proof.
  intros H. apply isName_parts in H. destruct H as [Ht Ha].
  destruct s as [|c rest]; [discriminate Ht|].
  cbn [allChars] in Ha. apply andb_true_iff in Ha. destruct Ha as [Hc _].
  exists c, rest. split; [reflexivity | exact Hc].
Qed.

Lemma slice_middle (a b c : string) :
  slice (a ++ b ++ c) (Z.of_nat (String.length a))
    (Z.of_nat (String.length a) + Z.of_nat (String.length b)) = b.
Proof.
  unfold slice, relIndex. cbv zeta. rewrite !length_append.
  replace (Z.of_nat (String.length a) <? 0)%Z with false by (symmetry; apply Z.ltb_ge; lia).
  replace (Z.of_nat (String.length a) + Z.of_nat (String.length b) <? 0)%Z
    with false by (symmetry; apply Z.ltb_ge; lia).
  rewrite !Z.min_l by lia.
  replace (Z.to_nat (Z.of_nat (String.length a) + Z.of_nat (String.length b)
                     - Z.of_nat (String.length a)))
    with (String.length b) by lia.
  rewrite Nat2Z.id, drop_append. apply take_append.
Qed.

Lemma take_all (s : string) : take (String.length s) s = s.
Proof.
  pose proof (take_append s "") as H. rewrite append_empty_r in H. exact H.
Qed.

Lemma sliceFrom_suffix (a b : string) :
  sliceFrom (a ++ b) (Z.of_nat (String.length a)) = b.
Proof.
  unfold sliceFrom, slice, relIndex. cbv zeta. rewrite !length_append.
  replace (Z.of_nat (String.length a) <? 0)%Z with false by (symmetry; apply Z.ltb_ge; lia).
  replace (Z.of_nat (String.length a + String.length b) <? 0)%Z
    with false by (symmetry; apply Z.ltb_ge; lia).
  rewrite !Z.min_l by lia.
  replace (Z.to_nat (Z.of_nat (String.length a + String.length b)
                     - Z.of_nat (String.length a)))
    with (String.length b) by lia.
  rewrite Nat2Z.id, drop_append. apply take_all.
Qed.

Lemma indexOf_at (x : ascii) (a b c : string) :
  lacks x b = true ->
  indexOf (String x "") (a ++ b ++ String x c) (Z.of_nat (String.length a))
  = (Z.of_nat (String.length a) + Z.of_nat (String.length b))%Z.
Proof.
  intros Hb. unfold indexOf. cbv zeta. rewrite !length_append.
  replace (Z.min (Z.max (Z.of_nat (String.length a)) 0)
             (Z.of_nat (String.length a + (String.length b + String.length (String x c)))))
    with (Z.of_nat (String.length a)) by lia.
  rewrite Nat2Z.id, drop_append. apply indexOfFrom_append. exact Hb.
Qed.

Lemma join_last_name (owners : list string) (r : string) :
  Forall (fun o => isName o = true) owners -> isName r = true ->
  exists a, join "/" (owners ++ [r]) = a ++ r
            /\ (owners <> [] ->
                exists c rest, a = String c rest /\ isNameChar c = true).
Proof.
  induction 1 as [|o owners Ho _ IH]; intros Hr.
  - exists "". split; [reflexivity | intros H; contradiction].
  - destruct (IH Hr) as (a & Ha & _).
    exists (o ++ "/" ++ a). split.
    + change ((o :: owners) ++ [r])%list with (o :: (owners ++ [r]))%list.
      destruct (owners ++ [r])%list as [|y l] eqn:E.
      { destruct owners; discriminate E. }
      change (join "/" (o :: y :: l)) with (o ++ "/" ++ join "/" (y :: l)).
      rewrite Ha, !append_assoc. reflexivity.
    + intros _. destruct (isName_head o Ho) as (c & rest & -> & Hc).
      exists c, (rest ++ "/" ++ a). split; [reflexivity | exact Hc].
Qed.

(** X4.  For every user, host, owner path (one or more segments) and
    repository name made of name characters, [parseRemoteUrl] on
    [user@host:owner/path/repo.git] gives back exactly that host, that
    owner path and that repository name, with the provider of the host;
    [new URL] is never asked. *)
Theorem parseRemoteUrl_scp_round_trip :
  forall (URL : string -> option URLRecord) (user h r : string) (owners : list string),
    isName user = true ->
    isName h = true ->
    owners <> [] ->
    Forall (fun o => isName o = true) owners ->
    isName r = true ->
    parseRemoteUrl URL (user ++ "@" ++ h ++ ":" ++ join "/" (owners ++ [r]) ++ ".git")
    = Some {| host := h; ownerPath := join "/" owners; repo := r;
              provider := providerOf h |}.
Proof.
  intros URL user h r owners Hu Hh Hne Ho Hr.
  destruct (join_last_name owners r Ho Hr) as (a & Hjoin & Ha).
  destruct (Ha Hne) as (p0 & prest & Hap & Hp0). clear Ha.
  destruct (isName_head user Hu) as (u0 & urest & Hue & Hu0).
  set (path := join "/" (owners ++ [r])) in *.
  set (whole := user ++ "@" ++ h ++ ":" ++ path ++ ".git").
  assert (Hsegs : Forall (fun w => isName w = true) (owners ++ [r])%list).
  { apply Forall_app. split; [exact Ho | constructor; [exact Hr | constructor]]. }
  (* the address is its own trim *)
  assert (Htrim : trim whole = whole).
  { unfold whole. rewrite Hue.
    replace (String u0 urest ++ "@" ++ h ++ ":" ++ path ++ ".git")
      with (String u0 (urest ++ "@" ++ h ++ ":" ++ path) ++ trim ".git")
      by (change (trim ".git") with ".git"; str_norm).
    apply trim_fixed; [|reflexivity].
    apply isNameChar_parts in Hu0. apply Hu0. }
  (* it is scp-style *)
  assert (Hscp : isScpStyle whole = true).
  { unfold isScpStyle, whole, scpPattern.
    replace (user ++ "@" ++ h ++ ":" ++ path ++ ".git")
      with ((user ++ "@" ++ h ++ ":" ++ String p0 "") ++ (prest ++ r ++ ".git"))
      by (rewrite Hjoin, Hap; str_norm).
    apply testAnchored_prefix.
    apply fullMatch_Seq.
    { apply fullMatch_Plus_class; [apply (isName_parts user Hu)|].
      apply (isName_lacks "@" user); [left; reflexivity | exact Hu]. }
    apply (fullMatch_Seq (Chr "@") _ "@"); [apply fullMatch_Chr|].
    apply fullMatch_Seq.
    { apply fullMatch_Plus_class; [apply (isName_parts h Hh)|].
      apply (isName_lacks ":" h); [right; left; reflexivity | exact Hh]. }
    apply (fullMatch_Seq (Chr ":") _ ":"); [apply fullMatch_Chr|].
    apply fullMatch_Plus_class; [reflexivity|].
    cbn [allChars]. apply isNameChar_parts in Hp0. destruct Hp0 as (Hws & _).
    rewrite (isWhiteSpace_lineTerminator p0 Hws). reflexivity. }
  (* the two indices *)
  assert (Hat : indexOf "@" whole 0 = Z.of_nat (String.length user)).
  { rewrite indexOf_0. unfold whole.
    change ("@" ++ h ++ ":" ++ path ++ ".git") with (String "@" (h ++ ":" ++ path ++ ".git")).
    rewrite indexOfFrom_append; [lia|].
    apply (isName_lacks "@" user); [left; reflexivity | exact Hu]. }
  assert (Hcolon : indexOf ":" whole (Z.of_nat (String.length user))
                   = (Z.of_nat (String.length user)
                      + Z.of_nat (String.length (String "@" h)))%Z).
  { unfold whole.
    change (user ++ "@" ++ h ++ ":" ++ path ++ ".git")
      with (user ++ String "@" h ++ String ":" (path ++ ".git")).
    apply indexOf_at. unfold lacks. cbn [allChars]. cbn [Ascii.eqb Bool.eqb negb andb].
    apply (isName_lacks ":" h); [right; left; reflexivity | exact Hh]. }
  assert (Hhost : slice whole (Z.of_nat (String.length user) + 1)
                    (Z.of_nat (String.length user)
                     + Z.of_nat (String.length (String "@" h))) = h).
  { unfold whole.
    replace (user ++ "@" ++ h ++ ":" ++ path ++ ".git")
      with ((user ++ "@") ++ h ++ (":" ++ path ++ ".git"))
      by str_norm.
    replace (Z.of_nat (String.length user) + 1)%Z
      with (Z.of_nat (String.length (user ++ "@")))
      by (rewrite length_append; cbn [String.length]; lia).
    replace (Z.of_nat (String.length user) + Z.of_nat (String.length (String "@" h)))%Z
      with (Z.of_nat (String.length (user ++ "@")) + Z.of_nat (String.length h))%Z
      by (rewrite length_append; cbn [String.length]; lia).
    apply slice_middle. }
  assert (Hpath : sliceFrom whole
                    (Z.of_nat (String.length user)
                     + Z.of_nat (String.length (String "@" h)) + 1)
                  = path ++ ".git").
  { unfold whole.
    replace (user ++ "@" ++ h ++ ":" ++ path ++ ".git")
      with ((user ++ "@" ++ h ++ ":") ++ (path ++ ".git"))
      by str_norm.
    replace (Z.of_nat (String.length user) + Z.of_nat (String.length (String "@" h)) + 1)%Z
      with (Z.of_nat (String.length (user ++ "@" ++ h ++ ":")))
      by (rewrite !length_append; cbn [String.length]; lia).
    apply sliceFrom_suffix. }
  (* the segments of the path *)
  assert (Hparts : pathSegments (path ++ ".git") = (owners ++ [r])%list).
  { unfold pathSegments. cbv zeta. rewrite stripDotGit_append.
    assert (Hrl : lacks "/" r = true)
      by (apply (isName_lacks "/" r); [right; right; reflexivity | exact Hr]).
    rewrite Hjoin, stripTrailingSlashes_append;
      rewrite (stripTrailingSlashes_lacks r Hrl); [|apply (isName_parts r Hr)].
    rewrite <- Hjoin. unfold path.
    rewrite (split_join "/").
    - apply filterBoolean_all. apply (Forall_impl _ (fun w H => proj1 (isName_parts w H)) Hsegs).
    - destruct owners; discriminate.
    - apply (Forall_impl (fun w => lacks "/" w = true)
               (fun w H => isName_lacks "/" w (or_intror (or_intror eq_refl)) H) Hsegs). }
  unfold parseRemoteUrl, hostAndPath. cbv zeta.
  fold whole. rewrite Htrim, Hscp, Hat, Hcolon, Hhost, Hpath, Hparts.
  assert (Hwt : isEmpty whole = false).
  { unfold whole. rewrite Hue. reflexivity. }
  rewrite Hwt.
  destruct (isName_head h Hh) as (h0 & hrest & Hhe & _).
  assert (Hpe : isEmpty (path ++ ".git") = false).
  { rewrite Hjoin, Hap. reflexivity. }
  rewrite Hpe. rewrite Hhe at 1. cbn [isEmpty orb].
  assert (Hlen : (List.length (owners ++ [r]) <? 2)%nat = false).
  { apply Nat.ltb_ge. rewrite length_app. cbn [List.length].
    destruct owners; [contradiction | cbn [List.length]; lia]. }
  rewrite Hlen, last_last, arraySlice_init, length_app.
  cbn [List.length]. replace (List.length owners + 1 - 1)%nat with (List.length owners) by lia.
  rewrite firstn_app, firstn_all, Nat.sub_diag. cbn [firstn]. rewrite app_nil_r.
  reflexivity.
Qed.

Lemma parseRemoteUrl_scp_round_trip_witness :
  parseRemoteUrl Scripted.url "deploy@git.example.org:platform/tools/cli.git"
  = Some {| host := "git.example.org"; ownerPath := "platform/tools"; repo := "cli";
            provider := unknown |}.
Proof.
  refine (parseRemoteUrl_scp_round_trip Scripted.url "deploy" "git.example.org" "cli"
            ["platform"; "tools"] eq_refl eq_refl _ _ eq_refl).
  - discriminate.
  - repeat constructor.
Defined.

(** ** The scopes of the configuration file *)

Lemma testAnchored_Void (s : string) : testAnchored Void s = false.
Proof. induction s as [|c s IH]; [reflexivity | exact IH]. Qed.

Lemma test_Class (p : ascii -> bool) (s : string) :
  test (Class p) s = negb (allChars (fun c => negb (p c)) s).
Proof.
  induction s as [|c s IH]; [reflexivity|].
  cbn [test testAnchored nullable deriv allChars]. rewrite IH.
  destruct (p c); cbn [negb andb orb].
  - destruct s; reflexivity.
  - rewrite testAnchored_Void. reflexivity.
Qed.

Lemma scope_chars (s : string) :
  test (Class isWhiteSpace) s = false ->
  test (Class (fun c => Ascii.eqb c "(" || Ascii.eqb c ")")) s = false ->
  allChars isScopeChar s = true.
Proof.
  rewrite !test_Class. intros H1 H2.
  apply negb_false_iff in H1, H2.
  induction s as [|c s IH]; [reflexivity|].
  cbn [allChars] in *. apply andb_true_iff in H1, H2.
  destruct H1 as [Hw H1], H2 as [Hp H2].
  rewrite (IH H1 H2), andb_true_r. unfold isScopeChar.
  rewrite Hw. apply negb_true_iff, orb_false_iff in Hp. destruct Hp as [Ha Hb].
  rewrite Ha, Hb. reflexivity.
Qed.

Lemma normalizeScope_valid (v : Config.JSValue) (s : string) :
  Config.normalizeScope v = Some s ->
  truthy s = true /\ trim s = s /\ allChars isScopeChar s = true
  /\ validateScope s = None.
Proof.
  destruct v as [x|]; [|discriminate]. unfold Config.normalizeScope. cbv zeta.
  destruct (isEmpty (trim x)) eqn:E1; [discriminate|].
  destruct (test (Class isWhiteSpace) (trim x)) eqn:E2; [discriminate|].
  destruct (test (Class (fun c => Ascii.eqb c "(" || Ascii.eqb c ")")) (trim x)) eqn:E3;
    [discriminate|].
  intros H. inversion H; subst s. clear H.
  split; [unfold truthy; rewrite E1; reflexivity|].
  split; [apply trim_idempotent|].
  split; [apply scope_chars; assumption|].
  unfold validateScope. cbv zeta. rewrite trim_idempotent, E1, E2, E3. reflexivity.
Qed.

Lemma normalized_valid (scopes : list Config.JSValue) (s : string) :
  In s (Config.normalized scopes) ->
  exists v, In v scopes /\ Config.normalizeScope v = Some s.
Proof.
  induction scopes as [|v rest IH]; [contradiction|].
  cbn [Config.normalized]. destruct (Config.normalizeScope v) as [x|] eqn:E.
  - destruct (truthy x).
    + intros [-> | H].
      * exists v. split; [left; reflexivity | exact E].
      * destruct (IH H) as (v' & Hin & Hv). exists v'. split; [right; exact Hin | exact Hv].
    + intros H. destruct (IH H) as (v' & Hin & Hv). exists v'.
      split; [right; exact Hin | exact Hv].
  - intros H. destruct (IH H) as (v' & Hin & Hv). exists v'.
    split; [right; exact Hin | exact Hv].
Qed.

Lemma unique_In (l : list string) (x : string) : In x (Config.unique l) <-> In x l.
Proof.
  induction l as [|y l IH]; [reflexivity|].
  cbn [Config.unique]. split.
  - intros [-> | H]; [left; reflexivity|].
    apply filter_In in H. right. apply IH. apply H.
  - intros [-> | H]; [left; reflexivity|].
    destruct (String.eqb_spec y x) as [-> | Hne]; [left; reflexivity|].
    right. apply filter_In. split; [apply IH; exact H|].
    apply negb_true_iff. apply String.eqb_neq. exact Hne.
Qed.

Lemma unique_NoDup (l : list string) : NoDup (Config.unique l).
Proof.
  induction l as [|y l IH]; [constructor|].
  cbn [Config.unique]. constructor.
  - intros H. apply filter_In in H. destruct H as [_ H].
    rewrite String.eqb_refl in H. discriminate H.
  - apply NoDup_filter. exact IH.
Qed.

(** X5.  [loadCicdConfigScopes] never throws and makes no call.  When it
    returns a list, the list is not empty and holds no scope twice, and
    every scope in it normalizes an entry of the file: it is trimmed and
    not empty, has no white space and no parenthesis, and is a scope the
    free-text question of the commit preparer accepts. *)
Theorem loadCicdConfigScopes_valid :
  forall (configPath : string) (r : Config.ConfigRead) (w : World),
    let run := Config.loadCicdConfigScopes configPath r w in
    calls (snd run) = calls w
    /\ (exists o, fst run = Ok o)
    /\ forall scopes : list string,
         fst run = Ok (Some scopes) ->
         scopes <> []
         /\ NoDup scopes
         /\ Forall (fun s => truthy s = true /\ trim s = s
                             /\ allChars isScopeChar s = true
                             /\ validateScope s = None) scopes
         /\ exists entries, r = Config.Parsed (Some entries)
              /\ forall s, In s scopes ->
                   exists v, In v entries /\ Config.normalizeScope v = Some s.
Proof.
  intros configPath r w run. subst run.
  destruct r as [[entries|] | |]; cbn [Config.loadCicdConfigScopes].
  - unfold ret. cbn [fst snd]. split; [reflexivity|]. split; [eexists; reflexivity|].
    intros scopes H.
    destruct (Config.unique (Config.normalized entries)) as [|x l] eqn:E;
      [discriminate H|].
    cbn in H. inversion H; subst scopes; clear H. rewrite <- E.
    assert (Hin : forall s, In s (Config.unique (Config.normalized entries)) ->
                            exists v, In v entries /\ Config.normalizeScope v = Some s).
    { intros s Hs. apply (proj1 (unique_In _ _)) in Hs. apply normalized_valid. exact Hs. }
    split; [rewrite E; discriminate|].
    split; [apply unique_NoDup|].
    split.
    + apply Forall_forall. intros s Hs. destruct (Hin s Hs) as (v & _ & Hv).
      apply (normalizeScope_valid v s Hv).
    + exists entries. split; [reflexivity | exact Hin].
  - split; [reflexivity|]. split; [eexists; reflexivity|]. discriminate.
  - split; [reflexivity|]. split; [eexists; reflexivity|]. discriminate.
  - split; [reflexivity|]. split; [eexists; reflexivity|]. discriminate.
Qed.

Lemma loadCicdConfigScopes_valid_witness :
  NoDup ["core"; "api"].
Proof.
  destruct (loadCicdConfigScopes_valid "/work/work.cicd.config"
              (Config.Parsed
                 (Some [Config.JSString " core "; Config.JSOther; Config.JSString "api";
                        Config.JSString "no (parens)"; Config.JSString "core"]))
              start) as (_ & _ & H).
  destruct (H ["core"; "api"] eq_refl) as (_ & Hnd & _). exact Hnd.
Defined.

(** ** Which calls a run makes *)

Lemma confined_ret (A : Type) (P : Call -> bool) (a : A) : confinedTo P (ret a).
Proof. intros w. exists []. split; reflexivity. Qed.

Lemma confined_throw (A : Type) (P : Call -> bool) (e : string) :
  confinedTo P (@throw A e).
Proof. intros w. exists []. split; reflexivity. Qed.

Lemma confined_emit (P : Call -> bool) (o : Output) : confinedTo P (emit o).
Proof. intros w. exists []. split; reflexivity. Qed.

Lemma confined_perform (A : Type) (P : Call -> bool) (c : Call)
  (answer : History -> result A) :
  P c = true -> confinedTo P (perform c answer).
Proof.
  intros H w. exists [c]. split; [reflexivity|]. cbn [forallb]. rewrite H. reflexivity.
Qed.

Lemma confined_bind (A B : Type) (P : Call -> bool) (m : M A) (k : A -> M B) :
  confinedTo P m -> (forall a, confinedTo P (k a)) -> confinedTo P (bind m k).
Proof.
  intros Hm Hk w. unfold bind. destruct (Hm w) as (made1 & H1 & F1).
  destruct (m w) as [[a | e] w1]; cbn [snd] in H1.
  - destruct (Hk a w1) as (made2 & H2 & F2).
    exists (made2 ++ made1)%list. rewrite H2, H1, app_assoc. split; [reflexivity|].
    rewrite forallb_app, F1, F2. reflexivity.
  - exists made1. split; [exact H1 | exact F1].
Qed.

Lemma confined_tryCatch (A : Type) (P : Call -> bool) (body handler : M A) :
  confinedTo P body -> confinedTo P handler -> confinedTo P (tryCatch body handler).
Proof.
  intros Hb Hh w. unfold tryCatch. destruct (Hb w) as (made1 & H1 & F1).
  destruct (body w) as [[a | e] w1]; cbn [snd] in H1.
  - exists made1. split; [exact H1 | exact F1].
  - destruct (Hh w1) as (made2 & H2 & F2).
    exists (made2 ++ made1)%list. rewrite H2, H1, app_assoc. split; [reflexivity|].
    rewrite forallb_app, F1, F2. reflexivity.
Qed.

Lemma confined_weaken (A : Type) (P Q : Call -> bool) (m : M A) :
  (forall c, P c = true -> Q c = true) -> confinedTo P m -> confinedTo Q m.
Proof.
  intros HPQ Hm w. destruct (Hm w) as (made & H & F). exists made.
  split; [exact H|]. rewrite forallb_forall in *. intros c Hc. apply HPQ, F, Hc.
Qed.

Lemma confined_forEach (A : Type) (P : Call -> bool) (l : list A) (body : A -> M unit) :
  (forall x, confinedTo P (body x)) -> confinedTo P (forEach l body).
Proof.
  intros Hb. induction l as [|x l IH]; cbn [forEach].
  - apply confined_ret.
  - apply confined_bind; [apply Hb | intros _; exact IH].
Qed.

(** Splits a run into its steps, one lemma per construct. *)
Ltac confine_using known :=
  repeat first
    [ known
    | apply confined_ret
    | apply confined_throw
    | apply confined_emit
    | apply confined_perform; reflexivity
    | apply confined_forEach; intros ?
    | apply confined_tryCatch
    | apply confined_bind; [|intros ?]
    | match goal with
      | |- confinedTo _ (if ?b then _ else _) => destruct b
      | |- confinedTo _ (match ?x with _ => _ end) => destruct x
      end ].

Ltac confine := confine_using ltac:(fail).

Lemma promptCommitScope_confined (env : Env) (dir : string) :
  confinedTo isPrompt (promptCommitScope env dir).
Proof.
  unfold promptCommitScope, loadCicdConfigScopes, askList, askInput. confine.
Qed.

Lemma commitIntent_confined (env : Env) (options : CommitOptions) :
  confinedTo isPrompt (commitIntent env options).
Proof.
  unfold commitIntent, promptCommitSubject, promptCommitType, askList, askInput, logStep.
  confine; apply promptCommitScope_confined.
Qed.

Lemma committedMessages_app (a b : History) :
  committedMessages (a ++ b)%list = (committedMessages a ++ committedMessages b)%list.
Proof.
  induction a as [|c a IH]; [reflexivity|].
  destruct c; cbn [app committedMessages]; rewrite IH; reflexivity.
Qed.

Lemma committedMessages_none (P : Call -> bool) (made : History) :
  (forall m, P (GitCommit m) = false) ->
  forallb P made = true -> committedMessages made = [].
Proof.
  intros HP. induction made as [|c made IH]; [reflexivity|].
  cbn [forallb]. intros H. apply andb_true_iff in H. destruct H as [Hc Hm].
  destruct c; cbn [committedMessages]; try exact (IH Hm).
  rewrite HP in Hc. discriminate Hc.
Qed.

Lemma forallb_weaken (P Q : Call -> bool) (l : History) :
  (forall c, P c = true -> Q c = true) -> forallb P l = true -> forallb Q l = true.
Proof.
  intros HPQ. rewrite !forallb_forall. intros H c Hc. apply HPQ, H, Hc.
Qed.

Lemma isPrompt_preparer (c : Call) : isPrompt c = true -> isCommitPreparerCall c = true.
Proof. destruct c; cbn; intros H; try reflexivity; discriminate H. Qed.

(** ** The commit preparer, whatever the platform answers *)

(** X6.  In every run of [commitIfDirty], whatever git and the operator
    answer, the calls made are status, add, diff, commit and the questions
    to the operator, nothing else (no pull, push, fetch, merge, listing or
    process); and at most one commit is created, as the last call of the
    run. *)
Theorem commitIfDirty_calls :
  forall (env : Env) (git : SimpleGit) (options : CommitOptions) (w : World),
  exists made,
    calls (snd (commitIfDirty env git options w)) = (made ++ calls w)%list
    /\ forallb isCommitPreparerCall made = true
    /\ (committedMessages made = []
        \/ exists msg rest, made = GitCommit msg :: rest /\ committedMessages rest = []).
Proof.
  intros env git options w.
  destruct (commitIfDirty_cases env git options w) as [o Ho]. rewrite Ho. clear Ho.
  destruct (status git (calls w)) as [st | e].
  2: { exists [GitStatus]. repeat split. left. reflexivity. }
  destruct (negb (0 <? List.length (files st))%nat).
  { exists [GitStatus]. repeat split. left. reflexivity. }
  destruct (add git (GitStatus :: calls w) ["-A"]) as [[] | e].
  2: { exists [GitAdd ["-A"]; GitStatus]. repeat split. left. reflexivity. }
  destruct (diff git (GitAdd ["-A"] :: GitStatus :: calls w) ["--cached"; "--name-only"])
    as [d | e].
  2: { exists [GitDiff ["--cached"; "--name-only"]; GitAdd ["-A"]; GitStatus].
       repeat split. left. reflexivity. }
  destruct (String.length (trim d) =? 0)%nat.
  { exists [GitDiff ["--cached"; "--name-only"]; GitAdd ["-A"]; GitStatus].
    repeat split. left. reflexivity. }
  set (w0 := {| calls := staged_history w; output := o |}).
  destruct (commitIntent_confined env options w0) as (made1 & H1 & F1).
  assert (Hnone : committedMessages made1 = []).
  { apply (committedMessages_none isPrompt); [reflexivity | exact F1]. }
  assert (Hprep : forallb isCommitPreparerCall made1 = true).
  { apply (forallb_weaken isPrompt); [exact isPrompt_preparer | exact F1]. }
  unfold bind. destruct (commitIntent env options w0) as [[intent | e] w1]; cbn [snd] in H1.
  - unfold commitStep, logStep, gitCommit, bind, emit, perform. cbn [snd calls].
    rewrite H1. unfold w0. cbn [calls]. unfold staged_history.
    exists (GitCommit (finalMessage (fst (fst intent)) (snd (fst intent)) (snd intent))
            :: made1 ++ [GitDiff ["--cached"; "--name-only"]; GitAdd ["-A"]; GitStatus])%list.
    split; [cbn [app]; rewrite <- app_assoc; reflexivity|]. split.
    + cbn [forallb isCommitPreparerCall]. rewrite forallb_app, Hprep. reflexivity.
    + right. eexists. eexists. split; [reflexivity|].
      rewrite committedMessages_app, Hnone. reflexivity.
  - cbn [snd]. rewrite H1. unfold w0. cbn [calls]. unfold staged_history.
    exists (made1 ++ [GitDiff ["--cached"; "--name-only"]; GitAdd ["-A"]; GitStatus])%list.
    split; [cbn [app]; rewrite <- app_assoc; reflexivity|]. split.
    + rewrite forallb_app, Hprep. reflexivity.
    + left. rewrite committedMessages_app, Hnone. reflexivity.
Qed.

(** X7.  A clean tree is not an error, and neither is a tree whose
    changes leave nothing staged: [commitIfDirty] returns normally, having
    asked for the status only in the first case, and staged and looked at
    the diff in the second; it asks nothing and commits nothing. *)
Theorem commitIfDirty_nothing_to_commit :
  forall (env : Env) (git : SimpleGit) (options : CommitOptions) (w : World)
         (st : StatusResult),
    status git (calls w) = Ok st ->
    let r := commitIfDirty env git options w in
    (files st = [] -> fst r = Ok tt /\ calls (snd r) = GitStatus :: calls w)
    /\ (forall d : string,
          files st <> [] ->
          add git (GitStatus :: calls w) ["-A"] = Ok tt ->
          diff git (GitAdd ["-A"] :: GitStatus :: calls w)
            ["--cached"; "--name-only"] = Ok d ->
          trim d = "" ->
          fst r = Ok tt /\ calls (snd r) = staged_history w).
Proof.
  intros env git options w st Hst r. subst r.
  destruct (commitIfDirty_cases env git options w) as [o Ho]. rewrite Ho, Hst. clear Ho.
  split.
  - intros Hf. rewrite Hf. split; reflexivity.
  - intros d Hf Hadd Hdiff Hd.
    destruct (files st) as [|f fs]; [contradiction|]. cbn [List.length Nat.ltb Nat.leb negb].
    rewrite Hadd, Hdiff, Hd. split; reflexivity.
Qed.

Lemma commitIfDirty_nothing_to_commit_witness :
  fst (commitIfDirty (env cleanTree) (git cleanTree) noOptions start) = Ok tt
  /\ calls (snd (commitIfDirty (env cleanTree) (git cleanTree) noOptions start))
     = [GitStatus].
Proof.
  exact (proj1 (commitIfDirty_nothing_to_commit (env cleanTree) (git cleanTree) noOptions
                  start {| files := []; conflicted := [] |} eq_refl) eq_refl).
Defined.

Lemma commitIntent_full (env : Env) (options : CommitOptions) (w : World) (m : string) :
  commitMessage options = Some m ->
  truthy (trim m) = true ->
  truthyOpt (commitType options) = true ->
  isRecognizedCommitType (trim (str (commitType options))) = true ->
  commitIntent env options w
  = (Ok (trim m, Some (trim (str (commitType options))), ""), prepared w).
Proof.
  intros Hm Htm Hty Hrec.
  assert (Ht : typeAcceptable options = true).
  { unfold typeAcceptable. rewrite Hrec. apply orb_true_r. }
  assert (Hmt : truthy m = true).
  { destruct m; [discriminate Htm | reflexivity]. }
  assert (Hct : truthy (trim (str (commitType options))) = true).
  { destruct (trim (str (commitType options))); [discriminate Hrec | reflexivity]. }
  unfold commitIntent. unfold bind at 1. unfold logStep, emit. cbv beta iota zeta.
  rewrite commitIntent_type_step by exact Ht.
  unfold suppliedType. rewrite Hty, Hm. cbn [option_map truthyOpt str].
  rewrite Htm, Hct, Hmt. cbn [negb orb andb]. rewrite andb_false_r.
  reflexivity.
Qed.

(** Without a terminal the message determination asks nothing. *)
Lemma commitIntent_non_interactive (env : Env) (options : CommitOptions) (w : World) :
  stdinIsTTY env = false ->
  snd (commitIntent env options w) = prepared w.
Proof.
  intros Htty.
  destruct (typeAcceptable options) eqn:Ht.
  2: { rewrite (commitIntent_unknown_type env options w Ht). reflexivity. }
  destruct (truthyOpt (option_map trim (commitMessage options))) eqn:Hm.
  2: { rewrite (commitIntent_missing_message env options w Htty Hm Ht). reflexivity. }
  destruct (commitMessage options) as [m|] eqn:Em; [|discriminate Hm].
  cbn [option_map truthyOpt] in Hm.
  destruct (truthyOpt (commitType options)) eqn:Hty.
  - unfold typeAcceptable in Ht. rewrite Hty in Ht. cbn [negb orb] in Ht.
    rewrite (commitIntent_full env options w m Em Hm Hty Ht). reflexivity.
  - destruct (hasConventionalPrefix m) eqn:Hp.
    + rewrite (commitIntent_prefixed env options w m Em Hp Ht). reflexivity.
    + rewrite (commitIntent_missing_type env options w m Htty Em Hm Hp Hty). reflexivity.
Qed.

(** X8.  Without a terminal, [commitIfDirty] never asks the operator
    anything and never reads the scope configuration: whatever the options
    and whatever git answers, its calls are status, add, diff and commit. *)
Theorem commitIfDirty_non_interactive_silent :
  forall (env : Env) (git : SimpleGit) (options : CommitOptions) (w : World),
    stdinIsTTY env = false ->
    exists made,
      calls (snd (commitIfDirty env git options w)) = (made ++ calls w)%list
      /\ forallb isStagingCall made = true.
Proof.
  intros env git options w Htty.
  destruct (commitIfDirty_cases env git options w) as [o Ho]. rewrite Ho. clear Ho.
  destruct (status git (calls w)) as [st | e].
  2: { exists [GitStatus]. split; reflexivity. }
  destruct (negb (0 <? List.length (files st))%nat).
  { exists [GitStatus]. split; reflexivity. }
  destruct (add git (GitStatus :: calls w) ["-A"]) as [[] | e].
  2: { exists [GitAdd ["-A"]; GitStatus]. split; reflexivity. }
  destruct (diff git (GitAdd ["-A"] :: GitStatus :: calls w) ["--cached"; "--name-only"])
    as [d | e].
  2: { exists [GitDiff ["--cached"; "--name-only"]; GitAdd ["-A"]; GitStatus].
       split; reflexivity. }
  destruct (String.length (trim d) =? 0)%nat.
  { exists [GitDiff ["--cached"; "--name-only"]; GitAdd ["-A"]; GitStatus].
    split; reflexivity. }
  set (w0 := {| calls := staged_history w; output := o |}).
  pose proof (commitIntent_non_interactive env options w0 Htty) as Hq.
  unfold bind. destruct (commitIntent env options w0) as [[intent | e] w1];
    cbn [snd] in Hq; subst w1.
  - exists [GitCommit (finalMessage (fst (fst intent)) (snd (fst intent)) (snd intent));
            GitDiff ["--cached"; "--name-only"]; GitAdd ["-A"]; GitStatus].
    split; reflexivity.
  - exists [GitDiff ["--cached"; "--name-only"]; GitAdd ["-A"]; GitStatus].
    split; reflexivity.
Qed.

Lemma commitIfDirty_non_interactive_silent_witness :
  exists made,
    calls (snd (commitIfDirty (env base) (git base) prefixedUntrimmed start))
    = (made ++ [])%list
    /\ forallb isStagingCall made = true.
Proof.
  exact (commitIfDirty_non_interactive_silent (env base) (git base) prefixedUntrimmed
           start eq_refl).
Defined.

(** X9.  With a message that is not blank and a recognized type both
    given, [commitIfDirty] asks nothing, with or without a terminal: on a
    dirty tree with a staged diff it commits the trimmed message as it is
    when it already carries a prefix, and [type: message] otherwise, type
    and message trimmed. *)
Theorem commitIfDirty_full_options :
  forall (env : Env) (git : SimpleGit) (options : CommitOptions) (w : World)
         (st : StatusResult) (d m ty : string),
    status git (calls w) = Ok st ->
    files st <> [] ->
    add git (GitStatus :: calls w) ["-A"] = Ok tt ->
    diff git (GitAdd ["-A"] :: GitStatus :: calls w) ["--cached"; "--name-only"] = Ok d ->
    trim d <> "" ->
    commitMessage options = Some m ->
    truthy (trim m) = true ->
    commitType options = Some ty ->
    isRecognizedCommitType (trim ty) = true ->
    let message :=
      if hasConventionalPrefix m then trim m else trim ty ++ ": " ++ trim m in
    let r := commitIfDirty env git options w in
    fst r = commit git (staged_history w) message
    /\ calls (snd r) = GitCommit message :: staged_history w.
Proof.
  intros env git options w st d m ty Hst Hdirty Hadd Hdiff Hstaged Hm Htm Hty Hrec
         message r.
  subst r.
  destruct (commitIfDirty_staged env git options w st d Hst Hdirty Hadd Hdiff Hstaged)
    as [o Ho].
  rewrite Ho. clear Ho.
  assert (Htt : truthy ty = true).
  { destruct ty; [discriminate Hrec | reflexivity]. }
  assert (Hct : truthy (trim ty) = true).
  { destruct (trim ty); [discriminate Hrec | reflexivity]. }
  assert (E : commitIntent env options {| calls := staged_history w; output := o |}
              = (Ok (trim m, Some (trim ty), ""),
                 prepared {| calls := staged_history w; output := o |})).
  { pose proof (commitIntent_full env options {| calls := staged_history w; output := o |} m
                  Hm Htm) as H.
    rewrite Hty in H. cbn [truthyOpt str] in H. apply H; assumption. }
  assert (F : finalMessage (trim m) (Some (trim ty)) "" = message).
  { unfold finalMessage, message. rewrite hasConventionalPrefix_trim, trim_idempotent.
    cbn [truthyOpt str]. rewrite Hct. cbn [negb truthy isEmpty]. rewrite orb_false_r.
    reflexivity. }
  unfold bind. rewrite E. unfold commitStep, logStep, gitCommit, bind, emit, perform.
  cbn [fst snd calls output prepared]. rewrite F. split; reflexivity.
Qed.

Lemma commitIfDirty_full_options_witness :
  calls (snd (commitIfDirty (env interactive) (git interactive) typedOptions start))
  = GitCommit "fix: fix the build" :: staged_history start.
Proof.
  refine (proj2 (commitIfDirty_full_options (env interactive) (git interactive)
                   typedOptions start {| files := changed base; conflicted := [] |}
                   "a.txt" " fix the build " "fix"
                   eq_refl _ eq_refl eq_refl _ eq_refl _ eq_refl _)).
  - discriminate.
  - vm_compute; discriminate.
  - vm_compute; reflexivity.
  - vm_compute; reflexivity.
Defined.

(** ** The questions of an interactive run *)

Lemma commitIntent_after_subject (env : Env) (options : CommitOptions) (w : World)
  (a : string) :
  stdinIsTTY env = true ->
  commitMessage options = None ->
  truthyOpt (commitType options) = false ->
  promptInput env (calls w) subjectQuestion = Ok a ->
  commitIntent env options w
  = (if hasConventionalPrefix a then
       (Ok (trim a, None, ""),
        {| calls := PromptInput subjectQuestion :: calls w;
           output := output (prepared w) |})
     else
       match promptList env (PromptInput subjectQuestion :: calls w)
               typeQuestion typeChoices with
       | Throw e =>
           (Throw e,
            {| calls := PromptList typeQuestion typeChoices
                        :: PromptInput subjectQuestion :: calls w;
               output := output (prepared w) |})
       | Ok t =>
           let w2 := {| calls := PromptList typeQuestion typeChoices
                                 :: PromptInput subjectQuestion :: calls w;
                        output := output (prepared w) |} in
           if truthy t && truthy (trim a) then
             let s := promptCommitScope env
                        (match cwd options with
                         | Some dir => dir
                         | None => processCwd env
                         end) w2 in
             (match fst s with
              | Ok scope => Ok (trim a, Some t, scope)
              | Throw e => Throw e
              end, snd s)
           else (Ok (trim a, Some t, ""), w2)
       end).
Proof.
  intros Htty Hm Hty Hask.
  assert (Ht : typeAcceptable options = true).
  { unfold typeAcceptable. rewrite Hty. reflexivity. }
  unfold commitIntent. unfold bind at 1. unfold logStep, emit. cbv beta iota zeta.
  rewrite commitIntent_type_step by exact Ht.
  unfold suppliedType. rewrite Hty, Hm, Htty. cbn [option_map truthyOpt negb orb andb].
  unfold promptCommitSubject, promptCommitType, askInput, askList.
  fold subjectQuestion typeQuestion typeChoices.
  cbv [bind ret perform]. cbv beta iota zeta. cbn [calls output].
  rewrite Hask. cbv beta iota zeta. cbn [str fst snd truthyOpt].
  rewrite hasConventionalPrefix_trim.
  destruct (hasConventionalPrefix a) eqn:Hp; cbn [negb andb]; [reflexivity|].
  cbn [calls output].
  destruct (promptList env (PromptInput subjectQuestion :: calls w) typeQuestion typeChoices)
    as [t | e]; [|reflexivity].
  cbv beta iota zeta. cbn [str fst snd truthyOpt].
  rewrite hasConventionalPrefix_trim, Hp. cbn [negb]. rewrite andb_true_r.
  destruct (truthy t && truthy (trim a)); [|reflexivity].
  unfold prepared. cbn [calls output].
  destruct (promptCommitScope env _ _) as [[scope | e] w3]; reflexivity.
Qed.

(** X10.  With a terminal and neither message nor type given, the
    subject is asked first.  When the subject typed carries a conventional
    prefix, nothing else is asked and the intent has no type and no scope.
    Otherwise the type is asked next and then, for a subject that is not
    blank and a type that is not empty, the scope: the intent is the
    trimmed subject, the type chosen and the scope answered. *)
Theorem commitIntent_interactive_order :
  forall (env : Env) (options : CommitOptions) (w : World) (a : string),
    stdinIsTTY env = true ->
    commitMessage options = None ->
    truthyOpt (commitType options) = false ->
    promptInput env (calls w) subjectQuestion = Ok a ->
    let asked := PromptInput subjectQuestion :: calls w in
    let r := commitIntent env options w in
    (hasConventionalPrefix a = true ->
     fst r = Ok (trim a, None, "") /\ calls (snd r) = asked)
    /\ (forall t : string,
          hasConventionalPrefix a = false ->
          promptList env asked typeQuestion typeChoices = Ok t ->
          truthy (trim a) = true ->
          truthy t = true ->
          let dir := match cwd options with
                     | Some dir => dir
                     | None => processCwd env
                     end in
          let s := promptCommitScope env dir
                     {| calls := PromptList typeQuestion typeChoices :: asked;
                        output := output (prepared w) |} in
          fst r = match fst s with
                  | Ok scope => Ok (trim a, Some t, scope)
                  | Throw e => Throw e
                  end
          /\ snd r = snd s).
Proof.
  intros env options w a Htty Hm Hty Hask asked r. subst r.
  rewrite (commitIntent_after_subject env options w a Htty Hm Hty Hask).
  split.
  - intros Hp. rewrite Hp. split; reflexivity.
  - intros t Hp Hlist Hta Htt dir s. rewrite Hp. fold asked. rewrite Hlist.
    cbv zeta. rewrite Htt, Hta. split; reflexivity.
Qed.

Lemma commitIntent_interactive_order_witness :
  fst (commitIntent (env interactive) noOptions start)
  = Ok ("add login", Some "feat", "api").
Proof.
  refine (proj1 (proj2 (commitIntent_interactive_order (env interactive) noOptions start
                          " add login " eq_refl eq_refl eq_refl eq_refl)
                   "feat" _ eq_refl _ eq_refl)).
  - vm_compute; reflexivity.
  - vm_compute; reflexivity.
Defined.

(** ** The composed message *)

Lemma finalMessage_typed (m t s : string) :
  isRecognizedCommitType t = true ->
  hasConventionalPrefix m = false ->
  finalMessage m (Some t) s
  = if truthy s then t ++ "(" ++ s ++ "): " ++ trim m else t ++ ": " ++ trim m.
Proof.
  intros Ht Hm.
  assert (Htruthy : truthy t = true).
  { destruct t; [discriminate Ht | reflexivity]. }
  unfold finalMessage. rewrite Hm. cbn [truthyOpt str]. rewrite Htruthy. reflexivity.
Qed.

(** C2, as the code has it.  For every type [t] that is recognized, every
    subject [m] without a conventional prefix and every scope [s], the
    message composed is [t(s): m'] when [s] is not empty and [t: m'] when
    it is, where [m'] is [m] without the white space around it.  And this
    is the message [commitIfDirty] commits on a dirty tree whose staging
    leaves a diff: with [--message m] and [--type ty] both given, it
    commits [ty: m], both trimmed, and asks for no scope; on a terminal
    with neither given, for the subject [a] and the type [t] the operator
    answers, it commits [t(s): a'] or [t: a'] for the scope [s] that
    [promptCommitScope] returns, and nothing when that question fails. *)
Theorem finalMessage_composition :
  (forall m t s : string,
      isRecognizedCommitType t = true ->
      hasConventionalPrefix m = false ->
      (s <> "" -> validateScope s = None ->
       finalMessage m (Some t) s = t ++ "(" ++ s ++ "): " ++ trim m)
      /\ (s = "" -> finalMessage m (Some t) s = t ++ ": " ++ trim m))
  /\ (forall (env : Env) (git : SimpleGit) (options : CommitOptions) (w : World)
             (st : StatusResult) (d : string),
        status git (calls w) = Ok st ->
        files st <> [] ->
        add git (GitStatus :: calls w) ["-A"] = Ok tt ->
        diff git (GitAdd ["-A"] :: GitStatus :: calls w) ["--cached"; "--name-only"] = Ok d ->
        trim d <> "" ->
        let r := commitIfDirty env git options w in
        (forall m ty : string,
            commitMessage options = Some m ->
            truthy (trim m) = true ->
            hasConventionalPrefix m = false ->
            commitType options = Some ty ->
            isRecognizedCommitType (trim ty) = true ->
            fst r = commit git (staged_history w) (trim ty ++ ": " ++ trim m)
            /\ calls (snd r) = GitCommit (trim ty ++ ": " ++ trim m) :: staged_history w)
        /\ (forall a t : string,
              stdinIsTTY env = true ->
              commitMessage options = None ->
              truthyOpt (commitType options) = false ->
              promptInput env (staged_history w) subjectQuestion = Ok a ->
              truthy (trim a) = true ->
              hasConventionalPrefix a = false ->
              promptList env (PromptInput subjectQuestion :: staged_history w)
                typeQuestion typeChoices = Ok t ->
              isRecognizedCommitType t = true ->
              exists asked,
                calls asked
                = PromptList typeQuestion typeChoices
                  :: PromptInput subjectQuestion :: staged_history w
                /\ let q := promptCommitScope env
                              (match cwd options with
                               | Some dir => dir
                               | None => processCwd env
                               end) asked in
                   match fst q with
                   | Ok s =>
                       let message :=
                         if truthy s then t ++ "(" ++ s ++ "): " ++ trim a
                         else t ++ ": " ++ trim a in
                       fst r = commit git (calls (snd q)) message
                       /\ calls (snd r) = GitCommit message :: calls (snd q)
                   | Throw e => fst r = Throw e /\ calls (snd r) = calls (snd q)
                   end)).
Proof.
  split.
  - intros m t s Ht Hm. rewrite (finalMessage_typed m t s Ht Hm). split.
    + intros Hs _. apply truthy_true_iff in Hs. rewrite Hs. reflexivity.
    + intros ->. reflexivity.
  - intros env git options w st d Hst Hdirty Hadd Hdiff Hstaged r. subst r.
    destruct (commitIfDirty_staged env git options w st d Hst Hdirty Hadd Hdiff Hstaged)
      as [o Ho].
    rewrite Ho. clear Ho.
    set (w0 := {| calls := staged_history w; output := o |}).
    split.
    + intros m ty Hm Htm Hp Hty Hrec.
      assert (E : commitIntent env options w0
                  = (Ok (trim m, Some (trim ty), ""), prepared w0)).
      { pose proof (commitIntent_full env options w0 m Hm Htm) as H.
        rewrite Hty in H. cbn [truthyOpt str] in H. apply H; [|exact Hrec].
        destruct ty; [discriminate Hrec | reflexivity]. }
      assert (F : finalMessage (trim m) (Some (trim ty)) "" = trim ty ++ ": " ++ trim m).
      { rewrite (finalMessage_typed (trim m) (trim ty) "" Hrec)
          by (rewrite hasConventionalPrefix_trim; exact Hp).
        cbn [truthy isEmpty negb]. rewrite trim_idempotent. reflexivity. }
      unfold bind. rewrite E. unfold commitStep, logStep, gitCommit, bind, emit, perform.
      cbn [fst snd calls output prepared w0]. rewrite F. split; reflexivity.
    + intros a t Htty Hm Hty Hask Hta Hp Hlist Hrec.
      assert (Htt : truthy t = true).
      { destruct t; [discriminate Hrec | reflexivity]. }
      pose proof (commitIntent_after_subject env options w0 a Htty Hm Hty Hask) as E.
      rewrite Hp in E. cbn [calls w0] in E. rewrite Hlist in E. cbv zeta in E.
      rewrite Htt, Hta in E. cbn [andb] in E.
      exists {| calls := PromptList typeQuestion typeChoices
                         :: PromptInput subjectQuestion :: staged_history w;
                output := output (prepared w0) |}.
      split; [reflexivity|]. cbv zeta.
      unfold bind. rewrite E. clear E.
      destruct (promptCommitScope env
                  (match cwd options with
                   | Some dir => dir
                   | None => processCwd env
                   end)
                  {| calls := PromptList typeQuestion typeChoices
                              :: PromptInput subjectQuestion :: staged_history w;
                     output := output (prepared w0) |}) as [[s | e] w3];
        cbn [fst snd]; [|split; reflexivity].
      assert (F : finalMessage (trim a) (Some t) s
                  = if truthy s then t ++ "(" ++ s ++ "): " ++ trim a
                    else t ++ ": " ++ trim a).
      { rewrite (finalMessage_typed (trim a) t s Hrec)
          by (rewrite hasConventionalPrefix_trim; exact Hp).
        rewrite trim_idempotent. reflexivity. }
      unfold commitStep, logStep, gitCommit, bind, emit, perform.
      cbn [fst snd calls output]. rewrite F. split; reflexivity.
Qed.

Lemma finalMessage_composition_witness :
  finalMessage " add login" (Some "feat") "api" = "feat(api): add login"
  /\ calls (snd (commitIfDirty (env interactive) (git interactive) typedOptions start))
     = GitCommit "fix: fix the build" :: staged_history start
  /\ calls (snd (commitIfDirty (env interactive) (git interactive) noOptions start))
     = GitCommit "feat(api): add login"
       :: PromptInput scopeQuestion :: LoadCicdConfigScopes "/work"
       :: PromptList typeQuestion typeChoices
       :: PromptInput subjectQuestion :: staged_history start.
Proof.
  destruct finalMessage_composition as [Hpure Hrun].
  split; [|split].
  - refine (proj1 (Hpure " add login" "feat" "api" _ _) _ _).
    + vm_compute; reflexivity.
    + vm_compute; reflexivity.
    + discriminate.
    + vm_compute; reflexivity.
  - refine (proj2 (proj1 (Hrun (env interactive) (git interactive) typedOptions start
                            {| files := changed base; conflicted := [] |} "a.txt"
                            eq_refl _ eq_refl eq_refl _)
                     " fix the build " "fix" eq_refl _ _ eq_refl _)).
    + discriminate.
    + vm_compute; discriminate.
    + vm_compute; reflexivity.
    + vm_compute; reflexivity.
    + vm_compute; reflexivity.
  - assert (H : exists asked,
               calls asked
               = PromptList typeQuestion typeChoices
                 :: PromptInput subjectQuestion :: staged_history start
               /\ let q := promptCommitScope (env interactive) "/work" asked in
                  match fst q with
                  | Ok s =>
                      let message :=
                        if truthy s then "feat" ++ "(" ++ s ++ "): " ++ trim " add login "
                        else "feat" ++ ": " ++ trim " add login " in
                      fst (commitIfDirty (env interactive) (git interactive) noOptions start)
                      = commit (git interactive) (calls (snd q)) message
                      /\ calls (snd (commitIfDirty (env interactive) (git interactive)
                                       noOptions start))
                         = GitCommit message :: calls (snd q)
                  | Throw e =>
                      fst (commitIfDirty (env interactive) (git interactive) noOptions start)
                      = Throw e
                      /\ calls (snd (commitIfDirty (env interactive) (git interactive)
                                       noOptions start))
                         = calls (snd q)
                  end).
    { refine (proj2 (Hrun (env interactive) (git interactive) noOptions start
                       {| files := changed base; conflicted := [] |} "a.txt"
                       eq_refl _ eq_refl eq_refl _)
                " add login " "feat" eq_refl eq_refl eq_refl eq_refl _ _ eq_refl _).
      - discriminate.
      - vm_compute; discriminate.
      - vm_compute; reflexivity.
      - vm_compute; reflexivity.
      - vm_compute; reflexivity. }
    destruct H as ([h o] & Hc & H). cbn [calls] in Hc. subst h.
    cbv zeta in H. exact (proj2 H).
Defined.

(** The specification has the subject in the composed message as it was
    given.  The subject [" add login"] with the type [feat] and the scope
    [api] is composed to ["feat(api): add login"], one space after the
    colon; and [--message " fix the build " --type fix] is committed as
    ["fix: fix the build"]. *)
Lemma finalMessage_subject_trimmed :
  isRecognizedCommitType "feat" = true
  /\ hasConventionalPrefix " add login" = false
  /\ validateScope "api" = None
  /\ finalMessage " add login" (Some "feat") "api" = "feat(api): add login"
  /\ finalMessage " add login" (Some "feat") "api"
     <> "feat" ++ "(" ++ "api" ++ "): " ++ " add login"
  /\ hasConventionalPrefix " fix the build " = false
  /\ committedMessages
       (calls (snd (commitIfDirty (env interactive) (git interactive) typedOptions start)))
     = ["fix: fix the build"]
  /\ "fix: fix the build" <> "fix" ++ ": " ++ " fix the build ".
Proof.
  repeat split; try (vm_compute; reflexivity); vm_compute; discriminate.
Qed.

(** ** The scope of the commit intent *)

Lemma validateScope_chars (a : string) :
  validateScope a = None -> allChars isScopeChar (trim a) = true.
Proof.
  unfold validateScope. cbv zeta.
  destruct (isEmpty (trim a)) eqn:E.
  - intros _. destruct (trim a); [reflexivity | discriminate E].
  - destruct (test (Class isWhiteSpace) (trim a)) eqn:E1; [discriminate|].
    destruct (test (Class (fun c => Ascii.eqb c "(" || Ascii.eqb c ")")) (trim a)) eqn:E2;
      [discriminate|].
    intros _. apply scope_chars; assumption.
Qed.

Lemma scopeChars_no_paren (s : string) :
  allChars isScopeChar s = true -> includes "(" s = false /\ includes ")" s = false.
Proof.
  intros H. split; apply lacks_iff; unfold lacks;
    apply (allChars_weaken isScopeChar); try exact H;
    intros c Hc; unfold isScopeChar in Hc;
    apply andb_true_iff in Hc; destruct Hc as [Hc H2];
    apply andb_true_iff in Hc; destruct Hc as [_ H1];
    rewrite Ascii.eqb_sym; assumption.
Qed.

Lemma In_scopeChoices (scopes : list string) (v : string) :
  In v (map snd (scopeChoices scopes)) -> v = "" \/ In v scopes \/ v = "__custom__".
Proof.
  unfold scopeChoices. rewrite map_app. cbn [map snd app].
  intros [H | H]; [left; symmetry; exact H|].
  apply in_app_or in H. destruct H as [H | [H | []]].
  - rewrite map_map in H. cbn [snd] in H. rewrite map_id in H. right. left. exact H.
  - right. right. symmetry. exact H.
Qed.

(** X11.  The scope [promptCommitScope] returns has no white space and no
    parenthesis, for every run in which the list question is answered with
    one of the values it offers, the free-text question with an answer its
    validation accepts, and the scopes of the configuration are the
    normalized ones. *)
Theorem promptCommitScope_scope :
  forall (env : Env) (dir : string) (w : World),
    (forall h scopes ans,
        promptList env h scopeListQuestion (scopeChoices scopes) = Ok ans ->
        In ans (map snd (scopeChoices scopes))) ->
    (forall h ans, promptInput env h scopeQuestion = Ok ans -> validateScope ans = None) ->
    (forall h l, cicdConfigScopes env h dir = Some l ->
                 Forall (fun s => allChars isScopeChar s = true) l) ->
    forall s : string,
      fst (promptCommitScope env dir w) = Ok s ->
      allChars isScopeChar s = true
      /\ includes "(" s = false /\ includes ")" s = false.
Proof.
  intros env dir w Hlist Hinput Hconf s H.
  assert (Hs : allChars isScopeChar s = true);
    [|split; [exact Hs | apply scopeChars_no_paren; exact Hs]].
  unfold promptCommitScope, loadCicdConfigScopes, askList, askInput in H.
  fold scopeListQuestion scopeQuestion in H.
  cbv [bind ret perform] in H. cbv beta iota zeta in H. cbn [calls output] in H.
  pose proof (Hconf (calls w)) as Hc.
  destruct (cicdConfigScopes env (calls w) dir) as [[|x rest]|];
    cbn [calls output] in H.
  - destruct (promptInput env (LoadCicdConfigScopes dir :: calls w) scopeQuestion)
      as [ans|e] eqn:E; cbn [fst] in H; [|discriminate H].
    inversion H; subst s. apply validateScope_chars. apply (Hinput _ _ E).
  - specialize (Hc _ eq_refl).
    change ((("(none)", "") :: map (fun x0 : string => (x0, x0)) (x :: rest))
              ++ [("(custom)", "__custom__")])%list
      with (scopeChoices (x :: rest)) in H.
    destruct (promptList env (LoadCicdConfigScopes dir :: calls w) scopeListQuestion
                (scopeChoices (x :: rest))) as [ans|e] eqn:E;
      cbn [calls output fst snd] in H; [|discriminate H].
    pose proof (Hlist _ _ _ E) as Hin. apply In_scopeChoices in Hin.
    destruct (String.eqb_spec ans "__custom__") as [-> | Hne].
    + destruct (promptInput env _ scopeQuestion) as [ans'|e] eqn:E';
        cbn [fst] in H; [|discriminate H].
      inversion H; subst s. apply validateScope_chars. apply (Hinput _ _ E').
    + cbn [fst] in H. inversion H; subst s. destruct Hin as [-> | [Hin | ->]].
      * reflexivity.
      * rewrite Forall_forall in Hc. apply Hc. exact Hin.
      * contradiction.
  - destruct (promptInput env (LoadCicdConfigScopes dir :: calls w) scopeQuestion)
      as [ans|e] eqn:E; cbn [fst] in H; [|discriminate H].
    inversion H; subst s. apply validateScope_chars. apply (Hinput _ _ E).
Qed.

Lemma promptCommitScope_scope_witness :
  fst (promptCommitScope pickFirstScope "/work" start) = Ok "core"
  /\ includes ")" "core" = false.
Proof.
  split; [reflexivity|].
  refine (proj2 (proj2 (promptCommitScope_scope pickFirstScope "/work" start _ _ _
                          "core" eq_refl))).
  - intros h scopes ans H. cbn in H. inversion H; subst ans.
    destruct scopes; cbn; auto.
  - intros h ans H. inversion H. reflexivity.
  - intros h l H. inversion H; subst l. repeat constructor.
Defined.

(** ** Publishing a branch *)

(** X12.  [pushCurrentBranch] looks up the upstream and then pushes once,
    to the remote and the branch it is given: with no option when the
    branch has an upstream, with [-u] when it has none, a failed lookup
    counting as none.  Its outcome is the outcome of that push. *)
Theorem pushCurrentBranch_sets_upstream :
  forall (git : SimpleGit) (remote br : string) (w : World),
    let h := GitRaw revParseArgs :: calls w in
    let r := pushCurrentBranch git remote br w in
    (forall u, upstreamRef git (calls w) = Some u ->
       fst r = push git h remote br [] /\ calls (snd r) = GitPush remote br [] :: h)
    /\ (upstreamRef git (calls w) = None ->
        fst r = push git h remote br ["-u"]
        /\ calls (snd r) = GitPush remote br ["-u"] :: h)
    /\ (forall e, raw git (calls w) revParseArgs = Throw e ->
          upstreamRef git (calls w) = None).
Proof.
  intros git remote br w h r. subst r.
  assert (E : pushCurrentBranch git remote br w
              = (push git h remote br
                   (match upstreamRef git (calls w) with Some _ => [] | None => ["-u"] end),
                 {| calls := GitPush remote br
                               (match upstreamRef git (calls w) with
                                | Some _ => [] | None => ["-u"] end) :: h;
                    output := output w |})).
  { unfold pushCurrentBranch. unfold bind. rewrite getUpstreamRef_run.
    fold (upstreamRef git (calls w)). cbv zeta. unfold gitPush, perform. cbn [calls output].
    destruct (upstreamRef git (calls w)); reflexivity. }
  rewrite E. split; [|split].
  - intros u Hu. rewrite Hu. split; reflexivity.
  - intros Hu. rewrite Hu. split; reflexivity.
  - intros e He. unfold upstreamRef. rewrite He. reflexivity.
Qed.

Lemma pushCurrentBranch_sets_upstream_witness :
  calls (snd (pushCurrentBranch (git unpublished) "origin" "feat-x" start))
  = [GitPush "origin" "feat-x" ["-u"]; GitRaw revParseArgs].
Proof.
  exact (proj2 (proj1 (proj2 (pushCurrentBranch_sets_upstream (git unpublished)
                                "origin" "feat-x" start)) eq_refl)).
Defined.

(** X13.  [pullIfPossible] pulls only when there is something to pull
    from.  With no upstream and no branch of that name on the remote (the
    listing empty, blank or failed) it warns and returns without pulling;
    and when the pull succeeds it returns at once, without asking for the
    status. *)
Theorem pullIfPossible_skips_or_pulls :
  forall (git : SimpleGit) (remote br rerun : string) (w : World),
    let h1 := GitRaw revParseArgs :: calls w in
    let h2 := GitRaw (lsRemoteArgs remote br) :: h1 in
    let r := pullIfPossible git remote br rerun w in
    (upstreamRef git (calls w) = None ->
     fst (remoteBranchExists git remote br {| calls := h1; output := output w |})
     = Ok false ->
     fst r = Ok tt /\ calls (snd r) = h2
     /\ output (snd r)
        = LogWarning "Remote branch not found yet; skipping pull." :: output w)
    /\ (upstreamRef git (calls w) <> None ->
        pull git h1 None = Ok tt ->
        fst r = Ok tt /\ calls (snd r) = GitPull None :: h1)
    /\ (upstreamRef git (calls w) = None ->
        fst (remoteBranchExists git remote br {| calls := h1; output := output w |})
        = Ok true ->
        pull git h2 (Some (remote, br)) = Ok tt ->
        fst r = Ok tt /\ calls (snd r) = GitPull (Some (remote, br)) :: h2).
Proof.
  intros git remote br rerun w h1 h2 r. subst r.
  assert (Hup : getUpstreamRef git w
                = (Ok (upstreamRef git (calls w)), {| calls := h1; output := output w |})).
  { rewrite getUpstreamRef_run. reflexivity. }
  split; [|split].
  - intros Hu Hex.
    assert (E : pullIfPossible git remote br rerun w
                = (Ok tt, {| calls := h2;
                             output := LogWarning "Remote branch not found yet; skipping pull."
                                       :: output w |})).
    { unfold pullIfPossible. unfold bind at 1. rewrite Hup, Hu. cbv zeta.
      unfold bind at 1. rewrite remoteBranchExists_run in *. cbn [fst calls output] in *.
      fold h2. destruct (raw git h1 (lsRemoteArgs remote br)) as [out | e'].
      - inversion Hex as [Hex']. rewrite Hex'. reflexivity.
      - reflexivity. }
    rewrite E. repeat split.
  - intros Hu Hpull.
    assert (E : pullIfPossible git remote br rerun w
                = (Ok tt, {| calls := GitPull None :: h1; output := output w |})).
    { unfold pullIfPossible. unfold bind at 1. rewrite Hup.
      destruct (upstreamRef git (calls w)) as [u|]; [|contradiction].
      cbv zeta. unfold bind at 1, ret at 1. cbn [negb].
      unfold tryCatch, gitPull, perform at 1. cbn [calls output]. rewrite Hpull.
      reflexivity. }
    rewrite E. split; reflexivity.
  - intros Hu Hex Hpull.
    assert (E : pullIfPossible git remote br rerun w
                = (Ok tt, {| calls := GitPull (Some (remote, br)) :: h2;
                             output := output w |})).
    { unfold pullIfPossible. unfold bind at 1. rewrite Hup, Hu. cbv zeta.
      unfold bind at 1. rewrite remoteBranchExists_run in *. cbn [fst calls output] in *.
      fold h2. destruct (raw git h1 (lsRemoteArgs remote br)) as [out | e'];
        [|discriminate Hex].
      inversion Hex as [Hex']. rewrite Hex'. cbn [negb].
      unfold tryCatch, gitPull, perform at 1. cbn [calls output]. rewrite Hpull.
      reflexivity. }
    rewrite E. split; reflexivity.
Qed.

Lemma pullIfPossible_skips_or_pulls_witness :
  fst (pullIfPossible (git unpublished) "origin" "feat-x" "to-self" start) = Ok tt
  /\ calls (snd (pullIfPossible (git unpublished) "origin" "feat-x" "to-self" start))
     = [GitRaw (lsRemoteArgs "origin" "feat-x"); GitRaw revParseArgs].
Proof.
  destruct (proj1 (pullIfPossible_skips_or_pulls (git unpublished) "origin" "feat-x"
                     "to-self" start) eq_refl eq_refl) as (H1 & H2 & _).
  split; [exact H1 | exact H2].
Defined.

(** ** The remote, when the upstream names none *)

(** X14.  When the upstream ref gives no remote, [getPreferredRemote]
    answers from the listing and only from it: [origin] whenever [origin]
    is listed, wherever it stands, otherwise the first remote listed, and
    the no-remote error for an empty listing; so what it returns is always
    a listed remote.  It asks git two things and changes nothing. *)
Theorem getPreferredRemote_listed :
  forall (git : SimpleGit) (w : World) (listed : list RemoteWithRefs),
    upstreamRemote git (calls w) = None ->
    getRemotes git (GitRaw revParseArgs :: calls w) true = Ok listed ->
    let names := map remote_name listed in
    let r := getPreferredRemote git w in
    (In "origin" names -> fst r = Ok "origin")
    /\ (forall first rest, ~ In "origin" names -> names = first :: rest ->
                           fst r = Ok first)
    /\ (names = [] -> fst r = Throw noRemoteConfigured)
    /\ (forall remote, fst r = Ok remote -> In remote names)
    /\ exists made, calls (snd r) = (made ++ calls w)%list
                    /\ existsb mutates made = false.
Proof.
  intros git w listed Hup Hlist names r. subst r.
  pose proof (getPreferredRemote_priority git w) as H.
  rewrite Hup, Hlist in H. cbv zeta in H. fold names in H.
  assert (Horigin : existsb (String.eqb "origin") names = true <-> In "origin" names).
  { rewrite existsb_exists. split.
    - intros (x & Hx & E). apply String.eqb_eq in E. subst x. exact Hx.
    - intros Hin. exists "origin". split; [exact Hin | apply String.eqb_refl]. }
  split; [|split; [|split; [|split]]].
  - intros Hin. rewrite H. apply Horigin in Hin. rewrite Hin. reflexivity.
  - intros first rest Hno Hn. rewrite H.
    destruct (existsb (String.eqb "origin") names) eqn:E.
    + exfalso. apply Hno, Horigin. reflexivity.
    + rewrite Hn. reflexivity.
  - intros Hn. rewrite H, Hn. reflexivity.
  - intros remote Hr. rewrite H in Hr.
    destruct (existsb (String.eqb "origin") names) eqn:E.
    + inversion Hr; subst remote. apply Horigin. reflexivity.
    + destruct names as [|first rest]; [discriminate Hr|].
      inversion Hr; subst remote. left. reflexivity.
  - exists [GitGetRemotes true; GitRaw revParseArgs]. split; [|reflexivity].
    unfold getPreferredRemote. unfold bind at 1. rewrite getUpstreamRef_run.
    unfold upstreamRemote in Hup. cbv zeta.
    assert (Hno : truthyOpt
                    (if truthyOpt
                          match raw git (calls w) revParseArgs with
                          | Ok out => if truthy (trim out) then Some (trim out) else None
                          | Throw _ => None
                          end
                     then getRemoteFromUpstream
                            (str match raw git (calls w) revParseArgs with
                                 | Ok out => if truthy (trim out) then Some (trim out) else None
                                 | Throw _ => None
                                 end)
                     else None) = false).
    { destruct (raw git (calls w) revParseArgs) as [out | e]; [|reflexivity].
      destruct (truthy (trim out)) eqn:Et; [|reflexivity].
      cbn [truthyOpt str]. rewrite Et, Hup. reflexivity. }
    rewrite Hno. unfold gitGetRemotes, bind, perform. cbn [calls output]. rewrite Hlist.
    cbv zeta. destruct (existsb (String.eqb "origin") (map remote_name listed));
      [reflexivity|].
    destruct (map remote_name listed); reflexivity.
Qed.

Lemma getPreferredRemote_listed_witness :
  fst (getPreferredRemote (git unpublished) start) = Ok "origin".
Proof.
  refine (proj1 (getPreferredRemote_listed (git unpublished) start
                   [ {| remote_name := "backup"; fetch_url := remoteUrl unpublished;
                        push_url := remoteUrl unpublished |};
                     {| remote_name := "origin"; fetch_url := remoteUrl unpublished;
                        push_url := remoteUrl unpublished |} ] eq_refl eq_refl) _).
  right. left. reflexivity.
Defined.

(** ** One request tool, at most *)

Lemma isLookup_whichCall (env : Env) (tool : string) :
  isLookup env (whichCall env tool) = true.
Proof.
  unfold isLookup, whichCall. rewrite (String.eqb_refl (processCwd env)). reflexivity.
Qed.

(** The loop over the candidates: look-ups, then at most one create
    command, whose exit code decides. *)
Lemma tryCandidates_shape (env : Env) (dir source target : string)
  (mrUrl : option string) (candidates : list string) :
  forall w,
    let r := tryCandidates env dir source target mrUrl candidates w in
    exists lookups,
      forallb (isLookup env) lookups = true
      /\ (List.length lookups <= List.length candidates)%nat
      /\ ((fst r = Ok false /\ calls (snd r) = (lookups ++ calls w)%list)
          \/ exists tool,
               (tool = "glab" \/ tool = "gh")
               /\ calls (snd r)
                  = Spawn tool (createArgs tool source target) dir
                    :: (lookups ++ calls w)%list
               /\ fst r
                  = let c := spawnCapture env (lookups ++ calls w)%list tool
                               (createArgs tool source target) dir in
                    if (code c =? 0)%Z then Ok true else Throw (toolFailure tool c)).
Proof.
  induction candidates as [|tool rest IH]; intros w r; subst r.
  - exists []. split; [reflexivity|]. split; [apply Nat.le_refl|]. left.
    split; reflexivity.
  - assert (Hnext : exists lookups,
               forallb (isLookup env) lookups = true
               /\ (List.length lookups <= List.length (tool :: rest))%nat
               /\ ((fst (tryCandidates env dir source target mrUrl rest
                           {| calls := whichCall env tool :: calls w;
                              output := output w |}) = Ok false
                    /\ calls (snd (tryCandidates env dir source target mrUrl rest
                           {| calls := whichCall env tool :: calls w;
                              output := output w |})) = (lookups ++ calls w)%list)
                   \/ exists t,
                        (t = "glab" \/ t = "gh")
                        /\ calls (snd (tryCandidates env dir source target mrUrl rest
                                  {| calls := whichCall env tool :: calls w;
                                     output := output w |}))
                           = Spawn t (createArgs t source target) dir
                             :: (lookups ++ calls w)%list
                        /\ fst (tryCandidates env dir source target mrUrl rest
                                  {| calls := whichCall env tool :: calls w;
                                     output := output w |})
                           = let c := spawnCapture env (lookups ++ calls w)%list t
                                        (createArgs t source target) dir in
                             if (code c =? 0)%Z then Ok true
                             else Throw (toolFailure t c))).
    { destruct (IH {| calls := whichCall env tool :: calls w; output := output w |})
        as (lookups & F & L & H).
      cbn [calls] in H. exists (lookups ++ [whichCall env tool])%list.
      rewrite <- !app_assoc. cbn [app]. split; [|split].
      - rewrite forallb_app, F. cbn [forallb]. rewrite isLookup_whichCall. reflexivity.
      - rewrite length_app. cbn [List.length]. lia.
      - exact H. }
    remember (tryCandidates env dir source target mrUrl (tool :: rest) w) as run eqn:Erun.
    cbn [tryCandidates] in Erun. unfold bind at 1 in Erun.
    rewrite commandExists_run in Erun.
    destruct (available env (calls w) tool) eqn:Hav; cbn [negb] in Erun;
      [|subst run; exact Hnext].
    destruct (String.eqb tool "glab") eqn:Hglab.
    + apply String.eqb_eq in Hglab. subst tool.
      exists [whichCall env "glab"]. split; [|split].
      * cbn [forallb]. rewrite isLookup_whichCall. reflexivity.
      * cbn [List.length]. lia.
      * right. exists "glab". split; [left; reflexivity|].
        unfold toolFailure, createArgs. change (String.eqb "glab" "glab") with true.
        cbv iota. cbv zeta. cbn [app].
        unfold bind at 1, runCommandCapture, perform at 1 in Erun.
        cbn [calls output] in Erun.
        destruct (code _ =? 0)%Z.
        -- unfold bind, logSuccess, emit, ret in Erun.
           destruct (truthyOpt _); subst run; split; reflexivity.
        -- subst run. split; reflexivity.
    + destruct (String.eqb tool "gh") eqn:Hgh; [|subst run; exact Hnext].
      apply String.eqb_eq in Hgh. subst tool.
      exists [whichCall env "gh"]. split; [|split].
      * cbn [forallb]. rewrite isLookup_whichCall. reflexivity.
      * cbn [List.length]. lia.
      * right. exists "gh". split; [right; reflexivity|].
        unfold toolFailure, createArgs. change (String.eqb "gh" "glab") with false.
        cbv iota. cbv zeta. cbn [app].
        unfold bind at 1, runCommandCapture, perform at 1 in Erun.
        cbn [calls output] in Erun.
        destruct (code _ =? 0)%Z.
        -- unfold bind, logSuccess, emit, ret in Erun.
           destruct (truthyOpt _); subst run; split; reflexivity.
        -- subst run. split; reflexivity.
Qed.

(** X16.  Whatever is installed and whatever the tools answer,
    [createMergeRequest] runs at most one create command, as its last
    call, after at most two look-ups on the path and nothing else; it
    succeeds exactly when that command exits with code 0, throws the
    failure of that tool otherwise, and throws the no-tool hint when no
    create command was run. *)
Theorem createMergeRequest_one_tool :
  forall (env : Env) (options : MergeRequestOptions) (w : World),
    let r := createMergeRequest env options w in
    let source := sourceBranch options in
    let target := targetBranch options in
    exists lookups,
      forallb (isLookup env) lookups = true
      /\ (List.length lookups <= 2)%nat
      /\ ((fst r = Throw (hint (mrUrlFor options))
           /\ calls (snd r) = (lookups ++ calls w)%list)
          \/ exists tool,
               (tool = "glab" \/ tool = "gh")
               /\ calls (snd r)
                  = Spawn tool (createArgs tool source target) (mr_cwd options)
                    :: (lookups ++ calls w)%list
               /\ fst r
                  = let c := spawnCapture env (lookups ++ calls w)%list tool
                               (createArgs tool source target) (mr_cwd options) in
                    if (code c =? 0)%Z then Ok tt else Throw (toolFailure tool c)).
Proof.
  intros env options w r source target. subst r source target.
  destruct (tryCandidates_shape env (mr_cwd options) (sourceBranch options)
              (targetBranch options) (mrUrlFor options)
              (candidatesFor (parsedRemote options)) w)
    as (lookups & F & L & H).
  exists lookups. split; [exact F|]. split.
  { destruct (candidatesFor_cases (parsedRemote options)) as [E | E];
      rewrite E in L; exact L. }
  unfold createMergeRequest. cbv zeta. unfold bind.
  destruct (tryCandidates env (mr_cwd options) (sourceBranch options)
              (targetBranch options) (mrUrlFor options)
              (candidatesFor (parsedRemote options)) w) as [res w1].
  cbn [fst snd] in H. destruct H as [[Hr Hc] | (tool & Ht & Hc & Hr)].
  - left. subst res. split; [reflexivity | exact Hc].
  - right. exists tool. split; [exact Ht|]. cbv zeta in Hr. subst res.
    destruct (code _ =? 0)%Z; split; try reflexivity; exact Hc.
Qed.

(** ** The order of a flow *)

Lemma confined_run (A : Type) (P : Call -> bool) (m : M A) (w : World) :
  confinedTo P m ->
  exists r w1 made,
    m w = (r, w1) /\ calls w1 = (made ++ calls w)%list /\ forallb P made = true.
Proof.
  intros H. destruct (H w) as (made & Hc & F). destruct (m w) as [r w1].
  exists r, w1, made. cbn [snd] in Hc. repeat split; assumption.
Qed.

Lemma commitIfDirty_confined (env : Env) (git : SimpleGit) (options : CommitOptions) :
  confinedTo isCommitPreparerCall (commitIfDirty env git options).
Proof.
  unfold commitIfDirty, gitStatus, gitAdd, gitDiff, gitCommit, logStep, logHeading.
  cbv zeta.
  confine_using
    ltac:(idtac;
          match goal with
          | |- confinedTo _ (commitIntent _ _) =>
              apply (confined_weaken _ isPrompt isCommitPreparerCall _ isPrompt_preparer);
              apply commitIntent_confined
          end).
Qed.

Lemma isCommitPreparerCall_preparation (c : Call) :
  isCommitPreparerCall c = true -> isPreparation c = true.
Proof. destruct c; cbn; intros H; try reflexivity; discriminate H. Qed.

Lemma getUpstreamRef_confined (git : SimpleGit) :
  confinedTo isPreparation (getUpstreamRef git).
Proof. unfold getUpstreamRef, gitRaw. cbv zeta. confine. Qed.

Lemma getPreferredRemote_confined (git : SimpleGit) :
  confinedTo isPreparation (getPreferredRemote git).
Proof.
  unfold getPreferredRemote, gitGetRemotes. cbv zeta.
  apply confined_bind; [apply getUpstreamRef_confined | intros upstream].
  confine.
Qed.

Lemma pullIfPossible_confined (git : SimpleGit) (remote br rerun : string) :
  confinedTo isPreparation (pullIfPossible git remote br rerun).
Proof.
  unfold pullIfPossible, remoteBranchExists, gitRaw, gitPull, gitStatus, logWarning.
  cbv zeta.
  apply confined_bind; [apply getUpstreamRef_confined | intros upstream].
  confine.
Qed.

Lemma pushCurrentBranch_run (git : SimpleGit) (remote br : string) (w : World) :
  let h := GitRaw revParseArgs :: calls w in
  let opts := match upstreamRef git (calls w) with Some _ => [] | None => ["-u"] end in
  pushCurrentBranch git remote br w
  = (push git h remote br opts,
     {| calls := GitPush remote br opts :: h; output := output w |}).
Proof.
  cbv zeta. unfold pushCurrentBranch. unfold bind. rewrite getUpstreamRef_run.
  fold (upstreamRef git (calls w)). cbv zeta. unfold gitPush, perform. cbn [calls output].
  destruct (upstreamRef git (calls w)); reflexivity.
Qed.

(** The steps [toSelf] and [toMain] share, from the commit to the push:
    either one of them fails before anything is pushed, or the branch is
    pushed once and the flow goes on only if the push succeeded. *)
Lemma publish_steps (env : Env) (git : SimpleGit) (options : CommitOptions)
  (br rerun : string) (k : string -> M unit) (w : World) :
  let m := bind (commitIfDirty env git options) (fun _ =>
           bind (logStep "Resolving remote/upstream") (fun _ =>
           bind (getPreferredRemote git) (fun remote =>
           bind (logStep ("Pulling latest from " ++ remote ++ "/" ++ br)) (fun _ =>
           bind (pullIfPossible git remote br rerun) (fun _ =>
           bind (logStep ("Pushing to " ++ remote ++ "/" ++ br)) (fun _ =>
           bind (pushCurrentBranch git remote br) (fun _ => k remote))))))) in
  (exists e w1 made,
      m w = (Throw e, w1) /\ calls w1 = (made ++ calls w)%list
      /\ forallb isPreparation made = true)
  \/ (exists remote opts rest out,
         forallb isPreparation rest = true
         /\ match push git (rest ++ calls w)%list remote br opts with
            | Ok _ => m w = k remote {| calls := GitPush remote br opts
                                                 :: (rest ++ calls w)%list;
                                        output := out |}
            | Throw e => m w = (Throw e, {| calls := GitPush remote br opts
                                                     :: (rest ++ calls w)%list;
                                            output := out |})
            end).
Proof.
  intros m. remember (m w) as run eqn:Erun. subst m.
  destruct (confined_run _ _ (commitIfDirty env git options) w
              (confined_weaken _ _ _ _ isCommitPreparerCall_preparation
                 (commitIfDirty_confined env git options)))
    as (r1 & w1 & made1 & E1 & C1 & F1).
  unfold bind at 1 in Erun. rewrite E1 in Erun. destruct r1 as [u1 | e];
    [|left; exists e, w1, made1; repeat split; assumption].
  unfold bind at 1 in Erun. unfold logStep at 1, emit at 1 in Erun.
  unfold bind at 1 in Erun.
  destruct (confined_run _ _ (getPreferredRemote git)
              {| calls := calls w1;
                 output := LogStep "Resolving remote/upstream" :: output w1 |}
              (getPreferredRemote_confined git))
    as (r2 & w2 & made2 & E2 & C2 & F2).
  cbn [calls] in C2. rewrite E2 in Erun. destruct r2 as [remote | e].
  2:{ left. exists e, w2, (made2 ++ made1)%list. split; [exact Erun|]. split.
      - rewrite C2, C1, app_assoc. reflexivity.
      - rewrite forallb_app, F1, F2. reflexivity. }
  unfold bind at 1 in Erun. unfold logStep at 1, emit at 1 in Erun.
  unfold bind at 1 in Erun.
  destruct (confined_run _ _ (pullIfPossible git remote br rerun)
              {| calls := calls w2;
                 output := LogStep ("Pulling latest from " ++ remote ++ "/" ++ br)
                           :: output w2 |}
              (pullIfPossible_confined git remote br rerun))
    as (r3 & w3 & made3 & E3 & C3 & F3).
  cbn [calls] in C3. rewrite E3 in Erun. destruct r3 as [u3 | e].
  2:{ left. exists e, w3, (made3 ++ made2 ++ made1)%list. split; [exact Erun|]. split.
      - rewrite C3, C2, C1, !app_assoc. reflexivity.
      - rewrite !forallb_app, F1, F2, F3. reflexivity. }
  unfold bind at 1 in Erun. unfold logStep at 1, emit at 1 in Erun.
  unfold bind at 1 in Erun. rewrite pushCurrentBranch_run in Erun.
  cbn [calls output] in Erun.
  assert (Hh : GitRaw revParseArgs :: calls w3
               = ((GitRaw revParseArgs :: made3 ++ made2 ++ made1) ++ calls w)%list).
  { rewrite C3, C2, C1. cbn [app]. rewrite !app_assoc. reflexivity. }
  rewrite Hh in Erun.
  right. exists remote.
  exists (match upstreamRef git (calls w3) with Some _ => [] | None => ["-u"] end).
  exists (GitRaw revParseArgs :: made3 ++ made2 ++ made1)%list.
  exists (LogStep ("Pushing to " ++ remote ++ "/" ++ br) :: output w3).
  split.
  - cbn [forallb]. rewrite !forallb_app, F1, F2, F3. reflexivity.
  - destruct (push git _ remote br _); exact Erun.
Qed.

(** X17.  Every run of [toSelf] either fails before anything is pushed,
    having started no process, or ends with one push, its last call: of
    the branch git reported as current, and [toSelf] succeeds exactly when
    that push does (its error is the error of the run).  So nothing is
    pushed twice, nothing is done after the push, and a run that returns
    normally has pushed. *)
Theorem toSelf_ends_with_the_push :
  forall (env : Env) (options : ToSelfOptions) (w : World),
    let git := simpleGit env (processCwd env) in
    let r := toSelf env options w in
    exists made,
      calls (snd r) = (made ++ calls w)%list
      /\ ((forallb isPreparation made = true /\ exists e, fst r = Throw e)
          \/ exists remote opts rest summary,
               made = GitPush remote (current summary) opts :: rest
               /\ forallb isPreparation rest = true
               /\ branch git (GitCheckIsRepo :: calls w) = Ok summary
               /\ fst r = push git (rest ++ calls w)%list remote (current summary) opts).
Proof.
  intros env options w git r.
  remember (toSelf env options w) as run eqn:Erun. subst r.
  unfold toSelf, logStep, gitCheckIsRepo, gitBranch in Erun. cbv zeta in Erun.
  fold git in Erun.
  unfold bind at 1 in Erun. unfold emit at 1 in Erun.
  unfold bind at 1 in Erun. unfold emit at 1 in Erun.
  unfold bind at 1 in Erun. unfold perform at 1 in Erun. cbn [calls output] in Erun.
  destruct (checkIsRepo git (calls w)) as [[|] | e].
  2:{ subst run. exists [GitCheckIsRepo]. split; [reflexivity|]. left.
      split; [reflexivity | eexists; reflexivity]. }
  2:{ subst run. exists [GitCheckIsRepo]. split; [reflexivity|]. left.
      split; [reflexivity | eexists; reflexivity]. }
  cbn [negb] in Erun.
  unfold bind at 1 in Erun. unfold emit at 1 in Erun.
  unfold bind at 1 in Erun. unfold perform at 1 in Erun. cbn [calls output] in Erun.
  destruct (branch git (GitCheckIsRepo :: calls w)) as [summary | e] eqn:Hbranch.
  2:{ subst run. exists [GitBranch; GitCheckIsRepo]. split; [reflexivity|]. left.
      split; [reflexivity | eexists; reflexivity]. }
  destruct (negb (truthy (current summary)) || String.eqb (current summary) "HEAD").
  { subst run. exists [GitBranch; GitCheckIsRepo]. split; [reflexivity|]. left.
    split; [reflexivity | eexists; reflexivity]. }
  pose proof (publish_steps env git
                {| commitMessage := ts_commitMessage options;
                   commitType := ts_commitType options; cwd := None |}
                (current summary) "to-self"
                (fun remote => logSuccess ("Pushed " ++ current summary ++ " -> "
                                           ++ remote ++ "/" ++ current summary))
                {| calls := GitBranch :: GitCheckIsRepo :: calls w;
                   output := LogStep "Detecting current branch"
                             :: LogStep "Checking git repository"
                             :: LogStep ("Working directory: " ++ processCwd env)
                             :: output w |}) as H.
  cbv zeta in H. cbv beta in H. cbn [calls] in H. unfold logStep in H.
  destruct H as [(e & w1 & made & E & C & F) | (remote & opts & rest & out & F & H)].
  - rewrite E in Erun. subst run. cbn [fst snd].
    exists (made ++ [GitBranch; GitCheckIsRepo])%list. split.
    + rewrite C, <- app_assoc. reflexivity.
    + left. split; [|eexists; reflexivity].
      rewrite forallb_app, F. reflexivity.
  - exists (GitPush remote (current summary) opts
            :: rest ++ [GitBranch; GitCheckIsRepo])%list.
    assert (Hh : (rest ++ GitBranch :: GitCheckIsRepo :: calls w)%list
                 = ((rest ++ [GitBranch; GitCheckIsRepo]) ++ calls w)%list).
    { rewrite <- app_assoc. reflexivity. }
    rewrite Hh in H.
    assert (Hrun : calls (snd run)
                   = GitPush remote (current summary) opts
                     :: ((rest ++ [GitBranch; GitCheckIsRepo]) ++ calls w)%list
                   /\ fst run = push git ((rest ++ [GitBranch; GitCheckIsRepo])
                                            ++ calls w)%list
                                  remote (current summary) opts).
    { destruct (push git ((rest ++ [GitBranch; GitCheckIsRepo]) ++ calls w)%list
                  remote (current summary) opts) as [[] | e];
        rewrite H in Erun; subst run; split; reflexivity. }
    destruct Hrun as [Hc Hr]. split; [exact Hc|].
    right. exists remote, opts, (rest ++ [GitBranch; GitCheckIsRepo])%list, summary.
    split; [reflexivity|]. split; [|split; [reflexivity | exact Hr]].
    rewrite forallb_app, F. reflexivity.
Qed.

Lemma tryCandidates_confined (env : Env) (dir source target : string)
  (mrUrl : option string) (candidates : list string) :
  confinedTo isSpawn (tryCandidates env dir source target mrUrl candidates).
Proof.
  induction candidates as [|tool rest IH]; cbn [tryCandidates].
  - apply confined_ret.
  - unfold commandExists, runCommandCapture, logSuccess. cbv zeta.
    confine_using
      ltac:(idtac;
            match goal with
            | |- confinedTo _ (tryCandidates _ _ _ _ _ _) => exact IH
            end).
Qed.

Lemma createMergeRequest_confined (env : Env) (options : MergeRequestOptions) :
  confinedTo isSpawn (createMergeRequest env options).
Proof.
  unfold createMergeRequest. cbv zeta.
  apply confined_bind; [apply tryCandidates_confined | intros returned].
  confine.
Qed.

(** The calls of [createMergeRequest]: look-ups, then at most one create
    command. *)
Lemma createMergeRequest_calls (env : Env) (options : MergeRequestOptions) (w : World) :
  exists lookups,
    forallb (isLookup env) lookups = true
    /\ (List.length lookups <= 2)%nat
    /\ (calls (snd (createMergeRequest env options w)) = (lookups ++ calls w)%list
        \/ exists tool,
             (tool = "glab" \/ tool = "gh")
             /\ calls (snd (createMergeRequest env options w))
                = Spawn tool (createArgs tool (sourceBranch options) (targetBranch options))
                    (mr_cwd options)
                  :: (lookups ++ calls w)%list).
Proof.
  destruct (tryCandidates_shape env (mr_cwd options) (sourceBranch options)
              (targetBranch options) (mrUrlFor options)
              (candidatesFor (parsedRemote options)) w)
    as (lookups & F & L & H).
  exists lookups. split; [exact F|]. split.
  { destruct (candidatesFor_cases (parsedRemote options)) as [E | E];
      rewrite E in L; exact L. }
  unfold createMergeRequest. cbv zeta. unfold bind.
  destruct (tryCandidates env (mr_cwd options) (sourceBranch options)
              (targetBranch options) (mrUrlFor options)
              (candidatesFor (parsedRemote options)) w) as [res w1].
  cbn [fst snd] in H. destruct H as [[Hr Hc] | (tool & Ht & Hc & Hr)].
  - left. subst res. exact Hc.
  - right. exists tool. split; [exact Ht|].
    destruct res as [[|] | e]; exact Hc.
Qed.

(** X18.  Every run of [toMain] either fails before anything is pushed,
    having started no process, or pushes once, the branch git reported as
    current, which is not the target branch.  If that push fails the run
    stops there with its error.  After a push that succeeded the calls
    are, in this order: the query of the URL of the remote, at most two
    look-ups on the path, and at most one create command, of [glab] or
    [gh], from the current branch into the target, as the last call. *)
Theorem toMain_publishes_before_request :
  forall (env : Env) (options : ToMainOptions) (w : World),
    let dir := workingDirectory env options in
    let git := simpleGit env dir in
    let target := targetBranchOf options in
    let r := toMain env options w in
    exists made,
      calls (snd r) = (made ++ calls w)%list
      /\ ((forallb isPreparation made = true /\ exists e, fst r = Throw e)
          \/ exists after remote opts rest summary,
               made = (after ++ GitPush remote (current summary) opts :: rest)%list
               /\ forallb isPreparation rest = true
               /\ branch git (GitCheckIsRepo :: calls w) = Ok summary
               /\ current summary <> target
               /\ match push git (rest ++ calls w)%list remote (current summary) opts with
                  | Throw e => after = [] /\ fst r = Throw e
                  | Ok _ =>
                      exists lookups,
                        forallb (isLookup env) lookups = true
                        /\ (List.length lookups <= 2)%nat
                        /\ (after = (lookups ++ [GitRaw ["remote"; "get-url"; remote]])%list
                            \/ exists tool,
                                 (tool = "glab" \/ tool = "gh")
                                 /\ after
                                    = (Spawn tool (createArgs tool (current summary) target)
                                         dir
                                       :: lookups
                                       ++ [GitRaw ["remote"; "get-url"; remote]])%list)
                  end).
Proof.
  intros env options w dir git target r.
  remember (toMain env options w) as run eqn:Erun. subst r.
  unfold toMain, logStep, gitCheckIsRepo, gitBranch in Erun. cbv zeta in Erun.
  fold dir in Erun. fold git in Erun. fold target in Erun.
  unfold bind at 1 in Erun. unfold emit at 1 in Erun.
  unfold bind at 1 in Erun. unfold emit at 1 in Erun.
  unfold bind at 1 in Erun. unfold perform at 1 in Erun. cbn [calls output] in Erun.
  destruct (checkIsRepo git (calls w)) as [[|] | e].
  2:{ subst run. exists [GitCheckIsRepo]. split; [reflexivity|]. left.
      split; [reflexivity | eexists; reflexivity]. }
  2:{ subst run. exists [GitCheckIsRepo]. split; [reflexivity|]. left.
      split; [reflexivity | eexists; reflexivity]. }
  cbn [negb] in Erun.
  unfold bind at 1 in Erun. unfold emit at 1 in Erun.
  unfold bind at 1 in Erun. unfold perform at 1 in Erun. cbn [calls output] in Erun.
  destruct (branch git (GitCheckIsRepo :: calls w)) as [summary | e] eqn:Hbranch.
  2:{ subst run. exists [GitBranch; GitCheckIsRepo]. split; [reflexivity|]. left.
      split; [reflexivity | eexists; reflexivity]. }
  destruct (negb (truthy (current summary)) || String.eqb (current summary) "HEAD").
  { subst run. exists [GitBranch; GitCheckIsRepo]. split; [reflexivity|]. left.
    split; [reflexivity | eexists; reflexivity]. }
  destruct (String.eqb (current summary) target) eqn:Htarget.
  { subst run. exists [GitBranch; GitCheckIsRepo]. split; [reflexivity|]. left.
    split; [reflexivity | eexists; reflexivity]. }
  apply String.eqb_neq in Htarget.
  set (k := fun remote : string =>
         bind (logSuccess ("Pushed " ++ current summary ++ " -> " ++ remote ++ "/"
                           ++ current summary)) (fun _ =>
         bind (emit (LogStep ("Creating MR/PR: " ++ current summary ++ " -> "
                              ++ target))) (fun _ =>
         bind (gitRaw git ["remote"; "get-url"; remote]) (fun out =>
         bind (match parseRemoteUrl (newURL env) (trim out) with
               | Some _ => ret tt
               | None => logWarning ("Could not parse remote url: " ++ trim out)
               end) (fun _ =>
         createMergeRequest env
           {| mr_cwd := dir;
              parsedRemote := parseRemoteUrl (newURL env) (trim out);
              sourceBranch := current summary;
              targetBranch := target |}))))) in Erun.
  assert (Hk : forall remote w1,
             exists lookups,
               forallb (isLookup env) lookups = true
               /\ (List.length lookups <= 2)%nat
               /\ (calls (snd (k remote w1))
                   = ((lookups ++ [GitRaw ["remote"; "get-url"; remote]]) ++ calls w1)%list
                   \/ exists tool,
                        (tool = "glab" \/ tool = "gh")
                        /\ calls (snd (k remote w1))
                           = ((Spawn tool (createArgs tool (current summary) target) dir
                               :: lookups ++ [GitRaw ["remote"; "get-url"; remote]])
                                ++ calls w1)%list)).
  { intros remote w1. remember (k remote w1) as kr eqn:Ekr. subst k. cbv beta in Ekr.
    unfold logSuccess, logWarning, gitRaw in Ekr.
    unfold bind at 1 in Ekr. unfold emit at 1 in Ekr.
    unfold bind at 1 in Ekr. unfold emit at 1 in Ekr.
    unfold bind at 1 in Ekr. unfold perform at 1 in Ekr. cbn [calls output] in Ekr.
    destruct (raw git (calls w1) ["remote"; "get-url"; remote]) as [out | e].
    2:{ subst kr. exists []. split; [reflexivity|]. split; [apply Nat.le_0_l|].
        left. reflexivity. }
    unfold bind at 1 in Ekr.
    match type of Ekr with
    | context [createMergeRequest env ?o] =>
        assert (Hc : forall w2,
                   calls w2 = GitRaw ["remote"; "get-url"; remote] :: calls w1 ->
                   exists lookups,
                     forallb (isLookup env) lookups = true
                     /\ (List.length lookups <= 2)%nat
                     /\ (calls (snd (createMergeRequest env o w2))
                         = ((lookups ++ [GitRaw ["remote"; "get-url"; remote]])
                              ++ calls w1)%list
                         \/ exists tool,
                              (tool = "glab" \/ tool = "gh")
                              /\ calls (snd (createMergeRequest env o w2))
                                 = ((Spawn tool (createArgs tool (current summary) target)
                                       dir
                                     :: lookups ++ [GitRaw ["remote"; "get-url"; remote]])
                                      ++ calls w1)%list))
    end.
    { intros w2 Hw2.
      match goal with
      | |- context [createMergeRequest env ?o] =>
          destruct (createMergeRequest_calls env o w2) as (lookups & F & L & H)
      end.
      cbn [sourceBranch targetBranch mr_cwd] in H.
      exists lookups. split; [exact F|]. split; [exact L|].
      destruct H as [H | (tool & Ht & H)].
      - left. rewrite H, Hw2, <- app_assoc. reflexivity.
      - right. exists tool. split; [exact Ht|]. rewrite H, Hw2.
        cbn [app]. rewrite <- app_assoc. reflexivity. }
    destruct (parseRemoteUrl (newURL env) (trim out)) as [parsed|];
      unfold ret, emit in Ekr; subst kr; apply Hc; reflexivity. }
  pose proof (publish_steps env git
                {| commitMessage := tm_commitMessage options;
                   commitType := tm_commitType options; cwd := None |}
                (current summary) "to-main" k
                {| calls := GitBranch :: GitCheckIsRepo :: calls w;
                   output := LogStep "Detecting current branch"
                             :: LogStep "Checking git repository"
                             :: LogStep ("Working directory: " ++ dir)
                             :: output w |}) as H.
  cbv zeta in H. cbn [calls] in H. unfold logStep in H.
  destruct H as [(e & w1 & made & E & C & F) | (remote & opts & rest & out & F & H)].
  - assert (Erun' : run = (Throw e, w1)) by (rewrite Erun; exact E).
    clear Erun. subst run. cbn [fst snd].
    exists (made ++ [GitBranch; GitCheckIsRepo])%list. split.
    + rewrite C, <- app_assoc. reflexivity.
    + left. split; [|eexists; reflexivity].
      rewrite forallb_app, F. reflexivity.
  - assert (Hh : (rest ++ GitBranch :: GitCheckIsRepo :: calls w)%list
                 = ((rest ++ [GitBranch; GitCheckIsRepo]) ++ calls w)%list).
    { rewrite <- app_assoc. reflexivity. }
    rewrite Hh in H.
    destruct (push git ((rest ++ [GitBranch; GitCheckIsRepo]) ++ calls w)%list
                remote (current summary) opts) as [u | e] eqn:Hpush.
    + set (w1 := {| calls := GitPush remote (current summary) opts
                             :: ((rest ++ [GitBranch; GitCheckIsRepo]) ++ calls w)%list;
                    output := out |}) in H.
      assert (Erun' : run = k remote w1) by (rewrite Erun; exact H).
      clear Erun H.
      destruct (Hk remote w1) as (lookups & Fl & L & Hshape).
      rewrite <- Erun' in Hshape. cbn [calls] in Hshape.
      assert (Hsplit : forall after,
                 calls (snd run)
                 = (after ++ GitPush remote (current summary) opts
                          :: (rest ++ [GitBranch; GitCheckIsRepo]) ++ calls w)%list ->
                 calls (snd run)
                 = ((after ++ GitPush remote (current summary) opts
                           :: rest ++ [GitBranch; GitCheckIsRepo]) ++ calls w)%list).
      { intros after Ha. rewrite Ha.
        exact (app_assoc after (_ :: _) (calls w)). }
      destruct Hshape as [Hs | (tool & Ht & Hs)].
      * exists ((lookups ++ [GitRaw ["remote"; "get-url"; remote]])
                  ++ GitPush remote (current summary) opts
                  :: rest ++ [GitBranch; GitCheckIsRepo])%list.
        split; [apply Hsplit; exact Hs|]. right.
        exists (lookups ++ [GitRaw ["remote"; "get-url"; remote]])%list, remote, opts,
               (rest ++ [GitBranch; GitCheckIsRepo])%list, summary.
        split; [reflexivity|]. split; [rewrite forallb_app, F; reflexivity|].
        split; [reflexivity|]. split; [exact Htarget|].
        rewrite Hpush. exists lookups. split; [exact Fl|]. split; [exact L|].
        left. reflexivity.
      * exists ((Spawn tool (createArgs tool (current summary) target) dir
                 :: lookups ++ [GitRaw ["remote"; "get-url"; remote]])
                  ++ GitPush remote (current summary) opts
                  :: rest ++ [GitBranch; GitCheckIsRepo])%list.
        split; [apply Hsplit; exact Hs|]. right.
        exists (Spawn tool (createArgs tool (current summary) target) dir
                :: lookups ++ [GitRaw ["remote"; "get-url"; remote]])%list, remote, opts,
               (rest ++ [GitBranch; GitCheckIsRepo])%list, summary.
        split; [reflexivity|]. split; [rewrite forallb_app, F; reflexivity|].
        split; [reflexivity|]. split; [exact Htarget|].
        rewrite Hpush. exists lookups. split; [exact Fl|]. split; [exact L|].
        right. exists tool. split; [exact Ht | reflexivity].
    + assert (Erun' : run = (Throw e,
                             {| calls := GitPush remote (current summary) opts
                                         :: ((rest ++ [GitBranch; GitCheckIsRepo])
                                               ++ calls w)%list;
                                output := out |}))
        by (rewrite Erun; exact H).
      clear Erun. subst run. cbn [fst snd].
      exists (GitPush remote (current summary) opts
              :: rest ++ [GitBranch; GitCheckIsRepo])%list.
      split; [reflexivity|]. right.
      exists [], remote, opts, (rest ++ [GitBranch; GitCheckIsRepo])%list, summary.
      split; [reflexivity|]. split; [rewrite forallb_app, F; reflexivity|].
      split; [reflexivity|]. split; [exact Htarget|].
      rewrite Hpush. split; reflexivity.
Qed.

(** ** The guards of the flows *)

Lemma confined_any (A : Type) (P : Call -> bool) (m : M A) :
  confinedTo P m -> confinedTo anyCall m.
Proof. apply confined_weaken. intros c _. reflexivity. Qed.

Lemma pushCurrentBranch_any (git : SimpleGit) (remote br : string) :
  confinedTo anyCall (pushCurrentBranch git remote br).
Proof.
  unfold pushCurrentBranch, gitPush. cbv zeta.
  apply confined_bind; [apply (confined_any _ _ _ (getUpstreamRef_confined git))|].
  intros upstream. apply confined_perform. reflexivity.
Qed.

(** Splits what follows the commit preparer in a flow. *)
Ltac confine_flow :=
  confine_using
    ltac:(idtac;
          match goal with
          | |- confinedTo _ (getPreferredRemote ?g) =>
              apply (confined_any _ _ _ (getPreferredRemote_confined g))
          | |- confinedTo _ (pullIfPossible ?g ?r ?b ?n) =>
              apply (confined_any _ _ _ (pullIfPossible_confined g r b n))
          | |- confinedTo _ (pushCurrentBranch ?g ?r ?b) =>
              apply (pushCurrentBranch_any g r b)
          | |- confinedTo _ (createMergeRequest ?e ?o) =>
              apply (confined_any _ _ _ (createMergeRequest_confined e o))
          end).

(** The first call of the commit preparer is the status query. *)
Lemma commitIfDirty_first_call (env : Env) (git : SimpleGit) (options : CommitOptions)
  (w : World) :
  exists made,
    calls (snd (commitIfDirty env git options w)) = (made ++ GitStatus :: calls w)%list.
Proof.
  destruct (commitIfDirty_cases env git options w) as [o Ho]. rewrite Ho. clear Ho.
  destruct (status git (calls w)) as [st | e]; [|exists []; reflexivity].
  destruct (negb (0 <? List.length (files st))%nat); [exists []; reflexivity|].
  destruct (add git (GitStatus :: calls w) ["-A"]) as [[] | e];
    [|exists [GitAdd ["-A"]]; reflexivity].
  destruct (diff git (GitAdd ["-A"] :: GitStatus :: calls w) ["--cached"; "--name-only"])
    as [d | e];
    [|exists [GitDiff ["--cached"; "--name-only"]; GitAdd ["-A"]]; reflexivity].
  destruct (String.length (trim d) =? 0)%nat;
    [exists [GitDiff ["--cached"; "--name-only"]; GitAdd ["-A"]]; reflexivity|].
  assert (Hc : confinedTo anyCall (bind (commitIntent env options) (commitStep git))).
  { apply confined_bind.
    - apply (confined_any _ _ _ (commitIntent_confined env options)).
    - intros intent. unfold commitStep, logStep, gitCommit. cbv zeta. confine. }
  destruct (Hc {| calls := staged_history w; output := o |}) as (made & Hm & _).
  exists (made ++ [GitDiff ["--cached"; "--name-only"]; GitAdd ["-A"]])%list.
  rewrite Hm. cbn [calls]. unfold staged_history. rewrite <- app_assoc. reflexivity.
Qed.

Lemma bind_grows (A B : Type) (P : Call -> bool) (m : M A) (k : A -> M B)
  (w : World) (h : History) :
  (exists made, calls (snd (m w)) = (made ++ h)%list) ->
  (forall a, confinedTo P (k a)) ->
  exists made, calls (snd (bind m k w)) = (made ++ h)%list.
Proof.
  intros (made & Hm) Hk. unfold bind. destruct (m w) as [[a | e] w1]; cbn [snd] in Hm.
  - destruct (Hk a w1) as (made' & Hc & _). exists (made' ++ made)%list.
    rewrite Hc, Hm, app_assoc. reflexivity.
  - exists made. exact Hm.
Qed.

(** X15.  [toSelf] and [toMain] stop before anything is staged, committed
    or pushed when the directory is not a git repository (the only call
    made is the repository check), with the not-a-repository error, and
    when the branch query reports an empty current branch or the name
    [HEAD] (the calls are the check and the branch query), with the
    detached-HEAD error.  The guard tests these two values and no other:
    under every other name reported, such as the abbreviated commit of a
    detached HEAD, the flow goes on to the commit preparer, whose status
    query is the next call ([toMain]: unless the name is the target
    branch). *)
Theorem flows_guarded :
  forall (env : Env) (w : World),
    let git := simpleGit env (processCwd env) in
    (checkIsRepo git (calls w) = Ok false ->
     forall options,
       fst (toSelf env options w) = Throw notInsideRepository
       /\ calls (snd (toSelf env options w)) = GitCheckIsRepo :: calls w)
    /\ (forall summary,
          checkIsRepo git (calls w) = Ok true ->
          branch git (GitCheckIsRepo :: calls w) = Ok summary ->
          forall options,
            (current summary = "" \/ current summary = "HEAD" ->
             fst (toSelf env options w) = Throw detachedHead
             /\ calls (snd (toSelf env options w)) = GitBranch :: GitCheckIsRepo :: calls w)
            /\ (current summary <> "" -> current summary <> "HEAD" ->
                exists made,
                  calls (snd (toSelf env options w))
                  = (made ++ GitStatus :: GitBranch :: GitCheckIsRepo :: calls w)%list))
    /\ (forall options,
          let git' := simpleGit env (workingDirectory env options) in
          (checkIsRepo git' (calls w) = Ok false ->
           fst (toMain env options w) = Throw notInsideRepository
           /\ calls (snd (toMain env options w)) = GitCheckIsRepo :: calls w)
          /\ (forall summary,
                checkIsRepo git' (calls w) = Ok true ->
                branch git' (GitCheckIsRepo :: calls w) = Ok summary ->
                (current summary = "" \/ current summary = "HEAD" ->
                 fst (toMain env options w) = Throw detachedHead
                 /\ calls (snd (toMain env options w))
                    = GitBranch :: GitCheckIsRepo :: calls w)
                /\ (current summary <> "" -> current summary <> "HEAD" ->
                    current summary <> targetBranchOf options ->
                    exists made,
                      calls (snd (toMain env options w))
                      = (made ++ GitStatus :: GitBranch :: GitCheckIsRepo :: calls w)%list))).
Proof.
  intros env w git.
  assert (Hd : forall summary, current summary = "" \/ current summary = "HEAD" ->
               negb (truthy (current summary)) || String.eqb (current summary) "HEAD" = true).
  { intros summary [E | E]; rewrite E; reflexivity. }
  assert (Hn : forall summary, current summary <> "" -> current summary <> "HEAD" ->
               negb (truthy (current summary)) || String.eqb (current summary) "HEAD"
               = false).
  { intros summary H1 H2. apply truthy_true_iff in H1. rewrite H1.
    apply String.eqb_neq in H2. rewrite H2. reflexivity. }
  split; [|split].
  - intros Hrepo options.
    assert (E : toSelf env options w
                = (Throw notInsideRepository,
                   {| calls := GitCheckIsRepo :: calls w;
                      output := LogStep "Checking git repository"
                                :: LogStep ("Working directory: " ++ processCwd env)
                                :: output w |})).
    { unfold toSelf, logStep, gitCheckIsRepo. cbv zeta. fold git.
      cbv [bind emit perform]. cbv beta iota. cbn [calls output]. rewrite Hrepo.
      reflexivity. }
    rewrite E. split; reflexivity.
  - intros summary Hrepo Hbranch options.
    remember (toSelf env options w) as run eqn:Erun.
    unfold toSelf, logStep, gitCheckIsRepo, gitBranch in Erun. cbv zeta in Erun.
    fold git in Erun.
    unfold bind at 1 in Erun. unfold emit at 1 in Erun.
    unfold bind at 1 in Erun. unfold emit at 1 in Erun.
    unfold bind at 1 in Erun. unfold perform at 1 in Erun. cbn [calls output] in Erun.
    rewrite Hrepo in Erun. cbn [negb] in Erun.
    unfold bind at 1 in Erun. unfold emit at 1 in Erun.
    unfold bind at 1 in Erun. unfold perform at 1 in Erun. cbn [calls output] in Erun.
    rewrite Hbranch in Erun. split.
    + intros Hcur. rewrite (Hd summary Hcur) in Erun. subst run. split; reflexivity.
    + intros H1 H2. rewrite (Hn summary H1 H2) in Erun. subst run.
      apply (bind_grows _ _ anyCall).
      * apply (commitIfDirty_first_call env git _
                 {| calls := GitBranch :: GitCheckIsRepo :: calls w;
                    output := LogStep "Detecting current branch"
                              :: LogStep "Checking git repository"
                              :: LogStep ("Working directory: " ++ processCwd env)
                              :: output w |}).
      * intros u. unfold logSuccess. confine_flow.
  - intros options git'. split.
    + intros Hrepo.
      assert (E : toMain env options w
                  = (Throw notInsideRepository,
                     {| calls := GitCheckIsRepo :: calls w;
                        output := LogStep "Checking git repository"
                                  :: LogStep ("Working directory: "
                                              ++ workingDirectory env options)
                                  :: output w |})).
      { unfold toMain, logStep, gitCheckIsRepo. cbv zeta. fold git'.
        cbv [bind emit perform]. cbv beta iota. cbn [calls output]. rewrite Hrepo.
        reflexivity. }
      rewrite E. split; reflexivity.
    + intros summary Hrepo Hbranch.
      remember (toMain env options w) as run eqn:Erun.
      unfold toMain, logStep, gitCheckIsRepo, gitBranch in Erun. cbv zeta in Erun.
      fold git' in Erun.
      unfold bind at 1 in Erun. unfold emit at 1 in Erun.
      unfold bind at 1 in Erun. unfold emit at 1 in Erun.
      unfold bind at 1 in Erun. unfold perform at 1 in Erun. cbn [calls output] in Erun.
      rewrite Hrepo in Erun. cbn [negb] in Erun.
      unfold bind at 1 in Erun. unfold emit at 1 in Erun.
      unfold bind at 1 in Erun. unfold perform at 1 in Erun. cbn [calls output] in Erun.
      rewrite Hbranch in Erun. split.
      * intros Hcur. rewrite (Hd summary Hcur) in Erun. subst run. split; reflexivity.
      * intros H1 H2 H3. rewrite (Hn summary H1 H2) in Erun.
        apply String.eqb_neq in H3. rewrite H3 in Erun. subst run.
        apply (bind_grows _ _ anyCall).
        -- apply (commitIfDirty_first_call env git' _
                    {| calls := GitBranch :: GitCheckIsRepo :: calls w;
                       output := LogStep "Detecting current branch"
                                 :: LogStep "Checking git repository"
                                 :: LogStep ("Working directory: "
                                             ++ workingDirectory env options)
                                 :: output w |}).
        -- intros u. unfold logSuccess, logWarning, gitRaw. confine_flow.
Qed.

Lemma flows_guarded_witness :
  fst (toSelf (env notARepository) toSelfDefaults start) = Throw notInsideRepository
  /\ fst (toMain (env notARepository) toMainDefaults start) = Throw notInsideRepository
  /\ exists made,
       calls (snd (toSelf (env detachedAtCommit) toSelfDefaults start))
       = (made ++ [GitStatus; GitBranch; GitCheckIsRepo])%list.
Proof.
  destruct (flows_guarded (env notARepository) start) as (Hself & _ & Hmain).
  split; [|split].
  - exact (proj1 (Hself eq_refl toSelfDefaults)).
  - exact (proj1 (proj1 (Hmain toMainDefaults) eq_refl)).
  - destruct (flows_guarded (env detachedAtCommit) start) as (_ & Hgo & _).
    refine (proj2 (Hgo {| current := "d4bfb7e"; all := ["d4bfb7e"] |} eq_refl eq_refl
                     toSelfDefaults) _ _); discriminate.
Defined.

(** ** The manual link *)

Lemma hexDigit_unreserved (n : nat) : isUriUnreserved (hexDigit n) = true.
Proof. do 16 (destruct n as [|n]; [reflexivity|]). reflexivity. Qed.

Lemma percent_safe (n : nat) : allChars isUriSafe (percent n) = true.
Proof.
  unfold percent. cbn [allChars]. unfold isUriSafe at 2 3.
  rewrite !hexDigit_unreserved. reflexivity.
Qed.

Lemma encodeURIComponent_safe (s : string) :
  allChars isUriSafe (encodeURIComponent s) = true.
Proof.
  induction s as [|c s IH]; [reflexivity|].
  cbn [encodeURIComponent]. cbv zeta. rewrite allChars_append, IH, andb_true_r.
  destruct (isUriUnreserved c) eqn:Hc.
  - cbn [allChars]. unfold isUriSafe. rewrite Hc. reflexivity.
  - destruct (_ <? 128)%nat.
    + apply percent_safe.
    + rewrite allChars_append, !percent_safe. reflexivity.
Qed.

Lemma encodeURIComponent_unreserved (s : string) :
  allChars isUriUnreserved s = true -> encodeURIComponent s = s.
Proof.
  induction s as [|c s IH]; [reflexivity|].
  cbn [allChars]. intros H. apply andb_true_iff in H. destruct H as [Hc Hs].
  cbn [encodeURIComponent]. cbv zeta. rewrite Hc, (IH Hs). reflexivity.
Qed.

(** X19.  [buildCreateMrUrl] gives an address exactly for GitHub and
    GitLab remotes.  The address starts with the repository page and then
    holds the fixed text of the provider around the two branch names,
    which appear percent-encoded: made of unreserved characters and [%]
    only, so that no character of a branch name can act as a separator of
    the address, and unchanged when the name has unreserved characters
    only. *)
Theorem buildCreateMrUrl_encodes_branches :
  forall (p : ParsedRemote) (source target : string),
    (buildCreateMrUrl p source target = None <-> provider p = unknown)
    /\ forall u, buildCreateMrUrl p source target = Some u ->
         exists s t,
           allChars isUriSafe s = true /\ allChars isUriSafe t = true
           /\ (allChars isUriUnreserved source = true -> s = source)
           /\ (allChars isUriUnreserved target = true -> t = target)
           /\ u = repositoryPage p
                  ++ match provider p with
                     | github => "/compare/" ++ t ++ "..." ++ s ++ "?expand=1"
                     | _ => "/-/merge_requests/new?merge_request[source_branch]=" ++ s
                            ++ "&merge_request[target_branch]=" ++ t
                     end.
Proof.
  intros p source target. unfold buildCreateMrUrl, repositoryPage. cbv zeta. split.
  - destruct (provider p); split; intros H; try reflexivity; discriminate H.
  - intros u Hu. exists (encodeURIComponent source), (encodeURIComponent target).
    split; [apply encodeURIComponent_safe|]. split; [apply encodeURIComponent_safe|].
    split; [apply encodeURIComponent_unreserved|].
    split; [apply encodeURIComponent_unreserved|].
    destruct (provider p); inversion Hu; str_norm; reflexivity.
Qed.

Lemma buildCreateMrUrl_encodes_branches_witness :
  exists s t,
    allChars isUriSafe s = true /\ allChars isUriSafe t = true
    /\ "https://gitlab.com/acme/tools/widget/-/merge_requests/new?merge_request[source_branch]=feat%2Flogin%20page&merge_request[target_branch]=main"
       = repositoryPage widgetOnGitLab
         ++ "/-/merge_requests/new?merge_request[source_branch]=" ++ s
         ++ "&merge_request[target_branch]=" ++ t.
Proof.
  destruct (proj2 (buildCreateMrUrl_encodes_branches widgetOnGitLab "feat/login page" "main")
              _ eq_refl) as (s & t & Hs & Ht & _ & _ & Hu).
  exists s, t. split; [exact Hs|]. split; [exact Ht | exact Hu].
Defined.

(** ** The deployment runner *)

(** Unfolds a run of the runner down to the answers of the hooks. *)
Ltac deploy_simpl H :=
  cbn [Deploy.trail Deploy.logged Deploy.preflight Deploy.build Deploy.deploy
       Deploy.verify Deploy.rollback Deploy.notify Deploy.withoutNotify] in H.

Ltac deploy_unfold H :=
  unfold Deploy.runCdDeployment, Deploy.andThen, Deploy.catch, Deploy.call, Deploy.log,
    Deploy.pure, Deploy.raise in H;
  deploy_simpl H.

(** Follows the answers of the hooks, one after the other. *)
Ltac deploy_answers H :=
  repeat (match type of H with
          | context [match ?x with Ok _ => _ | Throw _ => _ end] =>
              let E := fresh "Answer" in destruct x eqn:E
          end; deploy_simpl H).

Ltac deploy_recall :=
  repeat match goal with
         | A : ?x = _ |- context [?x] => rewrite A
         end.

(** Closes a goal on the shape of a trail once the lengths are chosen. *)
Ltac deploy_shape :=
  cbn [List.app]; (split; [reflexivity | split]);
  cbn [Deploy.failure Deploy.preflight Deploy.build Deploy.deploy Deploy.verify
       Deploy.rollback Deploy.notify List.app];
  deploy_recall; reflexivity.

(** X20.  A run of [runCdDeployment] that returns, returns what the
    deploy hook answered, and made no recovery call.  A run that throws,
    throws the error of the deployment step that failed (preflight, build,
    deploy, verify or the notification of the success), after having
    called, once each and in this order, the rollback hook with that
    error as reason and the notify hook with the failure, for the hooks
    that are defined: an error of the rollback or of that notification
    neither stops the recovery nor replaces the error. *)
Theorem runCdDeployment_recovers :
  forall (ctx : Deploy.DeployContext) (hooks : Deploy.DeployHooks) (s : Deploy.Stage),
    let r := Deploy.runCdDeployment ctx hooks s in
    let safe := Deploy.safeCtx ctx in
    match fst r with
    | Ok res =>
        exists a before after,
          Deploy.trail (snd r)
          = (after ++ Deploy.Deploying a :: before ++ Deploy.trail s)%list
          /\ Deploy.deploy hooks (before ++ Deploy.trail s)%list safe a = Ok res
          /\ forallb Deploy.isForward (after ++ before)%list = true
    | Throw e =>
        exists c before,
          Deploy.trail (snd r)
          = (Deploy.recovery hooks e ++ c :: before ++ Deploy.trail s)%list
          /\ forallb Deploy.isForward (c :: before) = true
          /\ Deploy.failure hooks safe (before ++ Deploy.trail s)%list c = Some e
    end.
Proof.
  intros ctx hooks s r safe. subst r safe.
  destruct (Deploy.runCdDeployment ctx hooks s) as [res s1] eqn:Erun. cbn [fst snd].
  destruct hooks as [pre bld dep ver rb nt].
  deploy_unfold Erun.
  destruct (match Deploy.dryRun (Deploy.safeCtx ctx) with Some b => b | None => false end);
    deploy_simpl Erun;
    destruct pre as [pre|], bld as [bld|], ver as [ver|], rb as [rb|], nt as [nt|];
    deploy_simpl Erun; deploy_answers Erun;
    inversion Erun; subst res s1; clear Erun;
    cbn [Deploy.trail Deploy.recovery Deploy.notify Deploy.rollback
         Deploy.deploy Deploy.failure Deploy.preflight Deploy.build
         Deploy.verify Deploy.errorOf List.app];
    solve
      [ refine (ex_intro _ _ (ex_intro _ [] (ex_intro _ [] _))); deploy_shape
      | refine (ex_intro _ _ (ex_intro _ [] (ex_intro _ [_] _))); deploy_shape
      | refine (ex_intro _ _ (ex_intro _ [] (ex_intro _ [_; _] _))); deploy_shape
      | refine (ex_intro _ _ (ex_intro _ [_] (ex_intro _ [] _))); deploy_shape
      | refine (ex_intro _ _ (ex_intro _ [_] (ex_intro _ [_] _))); deploy_shape
      | refine (ex_intro _ _ (ex_intro _ [_] (ex_intro _ [_; _] _))); deploy_shape
      | refine (ex_intro _ _ (ex_intro _ [_; _] (ex_intro _ [] _))); deploy_shape
      | refine (ex_intro _ _ (ex_intro _ [_; _] (ex_intro _ [_] _))); deploy_shape
      | refine (ex_intro _ _ (ex_intro _ [_; _] (ex_intro _ [_; _] _))); deploy_shape
      | refine (ex_intro _ _ (ex_intro _ [] _)); deploy_shape
      | refine (ex_intro _ _ (ex_intro _ [_] _)); deploy_shape
      | refine (ex_intro _ _ (ex_intro _ [_; _] _)); deploy_shape
      | refine (ex_intro _ _ (ex_intro _ [_; _; _] _)); deploy_shape
      | refine (ex_intro _ _ (ex_intro _ [_; _; _; _] _)); deploy_shape ].
Qed.

(** X21.  The notification of a success is part of what can fail: when
    the deployment without its notify hook would return [res], and the
    notify hook throws on the success payload, the run throws that error
    instead of returning, after the recovery: the rollback hook, if there
    is one, is called on a deployment that was released and verified, and
    the notify hook is called a second time, with the failure. *)
Theorem runCdDeployment_failed_notification :
  forall (ctx : Deploy.DeployContext) (hooks : Deploy.DeployHooks) (s : Deploy.Stage)
         (hook : Deploy.Trail -> Deploy.DeployContext -> Deploy.Payload -> result unit)
         (res : Deploy.DeployResult) (done : Deploy.Stage) (e : string),
    Deploy.notify hooks = Some hook ->
    Deploy.runCdDeployment ctx (Deploy.withoutNotify hooks) s = (Ok res, done) ->
    hook (Deploy.trail done) (Deploy.safeCtx ctx) (Deploy.Succeeded res) = Throw e ->
    let r := Deploy.runCdDeployment ctx hooks s in
    fst r = Throw e
    /\ Deploy.trail (snd r)
       = (Deploy.recovery hooks e
          ++ Deploy.Notify (Deploy.Succeeded res) :: Deploy.trail done)%list.
Proof.
  intros ctx hooks s hook res done e Hnt Hrun Hfail r. subst r.
  destruct hooks as [pre bld dep ver rb nt]. cbn [Deploy.notify] in Hnt. subst nt.
  destruct (Deploy.runCdDeployment ctx
              {| Deploy.preflight := pre; Deploy.build := bld; Deploy.deploy := dep;
                 Deploy.verify := ver; Deploy.rollback := rb;
                 Deploy.notify := Some hook |} s) as [out s1] eqn:Erun.
  cbn [fst snd]. deploy_unfold Hrun. deploy_unfold Erun.
  destruct (match Deploy.dryRun (Deploy.safeCtx ctx) with Some b => b | None => false end);
    deploy_simpl Hrun; deploy_simpl Erun;
    destruct pre as [pre|], bld as [bld|], ver as [ver|], rb as [rb|];
    deploy_simpl Hrun; deploy_simpl Erun;
    deploy_answers Hrun; try discriminate Hrun;
    inversion Hrun; subst; clear Hrun;
    cbn [Deploy.trail] in Hfail; deploy_simpl Erun;
    repeat (match goal with
            | A : _ = Ok _ |- _ => rewrite A in Erun
            | A : _ = Throw _ |- _ => rewrite A in Erun
            end; deploy_simpl Erun);
    deploy_answers Erun;
    inversion Erun; subst; clear Erun;
    cbn [Deploy.trail Deploy.recovery Deploy.notify Deploy.rollback List.app];
    split; reflexivity.
Qed.

Lemma runCdDeployment_failed_notification_witness :
  fst (Deploy.runCdDeployment Deploy.toStaging Deploy.channelDown Deploy.fresh)
  = Throw "channel not reachable"
  /\ Deploy.trail (snd (Deploy.runCdDeployment Deploy.toStaging Deploy.channelDown
                          Deploy.fresh))
     = [ Deploy.Notify (Deploy.Failed "channel not reachable");
         Deploy.Rollback "channel not reachable";
         Deploy.Notify (Deploy.Succeeded (Deploy.released (Deploy.safeCtx Deploy.toStaging)));
         Deploy.Verify (Deploy.released (Deploy.safeCtx Deploy.toStaging));
         Deploy.Deploying (Deploy.DockerImage "widget:1.4.0");
         Deploy.Build; Deploy.Preflight ].
Proof.
  exact (runCdDeployment_failed_notification Deploy.toStaging Deploy.channelDown
           Deploy.fresh _ _ _ _ eq_refl eq_refl eq_refl).
Defined.

(** ** The upstream ref *)

(** X22.  [getUpstreamRef] never throws: it asks git once and answers
    null when git fails or prints only white space, and the output without
    its surrounding white space otherwise.  So a ref it returns is never
    empty and never starts or ends with white space. *)
Theorem getUpstreamRef_never_throws :
  forall (git : SimpleGit) (w : World),
    let r := getUpstreamRef git w in
    calls (snd r) = GitRaw revParseArgs :: calls w
    /\ output (snd r) = output w
    /\ exists value,
         fst r = Ok value
         /\ (forall e, raw git (calls w) revParseArgs = Throw e -> value = None)
         /\ (forall out, raw git (calls w) revParseArgs = Ok out ->
               (trim out = "" -> value = None)
               /\ (trim out <> "" -> value = Some (trim out)))
         /\ (forall u, value = Some u -> u <> "" /\ trim u = u).
Proof.
  intros git w r. subst r. rewrite getUpstreamRef_run. cbn [fst snd calls output].
  split; [reflexivity|]. split; [reflexivity|].
  eexists. split; [reflexivity|]. split; [|split].
  - intros e He. rewrite He. reflexivity.
  - intros out Hout. rewrite Hout. split.
    + intros Hb. rewrite Hb. reflexivity.
    + intros Hb. apply truthy_true_iff in Hb. rewrite Hb. reflexivity.
  - intros u Hu. destruct (raw git (calls w) revParseArgs) as [out | e];
      [|discriminate Hu].
    destruct (truthy (trim out)) eqn:Ht; [|discriminate Hu].
    inversion Hu; subst u. split.
    + apply truthy_true_iff. exact Ht.
    + apply trim_idempotent.
Qed.

Lemma getUpstreamRef_never_throws_witness :
  fst (getUpstreamRef (git unpublished) start) = Ok None.
Proof.
  destruct (getUpstreamRef_never_throws (git unpublished) start)
    as (_ & _ & value & Hv & Hthrow & _).
  rewrite Hv. rewrite (Hthrow _ eq_refl). reflexivity.
Defined.
